(** * Offline-first sync (src/utils/sync.ts) over the web store adapter
      (src/db/database.web.ts)

    A shallow embedding of [pullFromServer] and [pushToServer] together with
    the parts of the platform they lean on: JavaScript truthiness for the
    identifier fields, the two timestamp renderings that meet in the dirty
    query, SQLite's column affinities for the [id] and [serverId] columns,
    AUTOINCREMENT row ids, and the save/reload behaviour of the sql.js
    adapter. Around them: [fullSync], [getDeviceId], [initSyncTables] and
    [checkServerConnection] of sync.ts, [initDatabase] of the adapter, the
    request functions of src/utils/api.ts, and [getMonthRange] of
    src/db/database.ts. *)

From Stdlib Require Import ZArith List String Ascii Bool Lia.
From Stdlib Require Import DecimalString.
Import ListNotations.
Local Open Scope string_scope.
Local Open Scope list_scope.
Local Open Scope Z_scope.

(* ===================================================================== *)
(** ** JavaScript values of the identifier fields *)
(* ===================================================================== *)

(** The server payload is typed [any]; the fields [_id], [id] and
    [productId] hold an absent value, JSON null, a number or a string.
    A number is a JavaScript number whose value is an integer. *)
Inductive JsVal : Type :=
| JUndef
| JNull
| JNum (n : Z)
| JStr (s : string).

(** ToBoolean: [undefined], [null], [0] and the empty string are falsy. *)
Definition truthy (v : JsVal) : bool :=
  match v with
  | JUndef | JNull => false
  | JNum n => negb (n =? 0)
  | JStr s => negb (String.eqb s EmptyString)
  end.

(** [a || b] *)
Definition js_or (a b : JsVal) : JsVal := if truthy a then a else b.

(** [s || fallback] for an optional string field read lazily. *)
Definition str_truthy (o : option string) : bool :=
  match o with
  | Some s => negb (String.eqb s EmptyString)
  | None => false
  end.

(** A field of a record of the payload whose value, when it has one, is of
    the type the statement expects: the key is absent (reading it gives
    [undefined]), or it holds JSON null, or it holds a value. *)
Inductive Field (A : Type) : Type :=
| Absent
| Null
| Val (a : A).
Arguments Absent {A}.
Arguments Null {A}.
Arguments Val {A} a.

(** The value of a field that has one. *)
Definition present {A} (f : Field A) : option A :=
  match f with
  | Val a => Some a
  | Absent | Null => None
  end.

(* ===================================================================== *)
(** ** Results and thrown errors *)
(* ===================================================================== *)

(** What a [throw] carries: an [Error] object, of which only the message is
    read, or a value that is not an [Error]. sql.js throws a plain string
    when it refuses to bind a value, and an [Error] with SQLite's message
    when a statement fails. *)
Inductive Thrown : Type :=
| ErrorObject (message : string)
| NotAnError (value : string).

(** A message alone stands for the [Error] object that carries it. *)
Coercion ErrorObject : string >-> Thrown.
Bind Scope string_scope with Thrown.

Inductive Result (A : Type) : Type :=
| Ok (a : A)
| Throw (error : Thrown).
Arguments Ok {A} a.
Arguments Throw {A} error.

Definition result_bind {A B} (r : Result A) (k : A -> Result B) : Result B :=
  match r with
  | Ok a => k a
  | Throw e => Throw e
  end.

(** [error instanceof Error ? error.message : 'Unknown error'] *)
Definition caught_message (error : Thrown) : string :=
  match error with
  | ErrorObject message => message
  | NotAnError _ => "Unknown error"
  end.

(* ===================================================================== *)
(** ** Timestamps *)
(* ===================================================================== *)

(** Instants are milliseconds since the epoch, as [Date.now()] gives them.
    A [Clock] lists the successive readings of the system clock that the
    statements modelled here make: reading number [k] of a run returns
    [clk k]. Readings made elsewhere in between, as by [getDeviceId] when
    it makes up an identifier, are not part of the list. *)
Definition Clock : Type := nat -> Z.

Definition digit (d : Z) : ascii := ascii_of_nat (48 + Z.to_nat (d mod 10)).

Definition pad2 (n : Z) : string :=
  String (digit (n / 10)) (String (digit n) EmptyString).

Definition pad3 (n : Z) : string := String (digit (n / 100)) (pad2 n).

Definition pad4 (n : Z) : string := String (digit (n / 1000)) (pad3 n).

Definition pad6 (n : Z) : string :=
  String (digit (n / 100000)) (String (digit (n / 10000)) (pad4 n)).

(** The year of an ISO date: four digits from 0000 to 9999, and a sign
    with six digits outside. *)
Definition year_text (y : Z) : string :=
  if (0 <=? y) && (y <=? 9999) then pad4 y
  else (if y <? 0 then "-" else "+") ++ pad6 (Z.abs y).

(** Proleptic Gregorian date of a day number counted from 1970-01-01. *)
Definition civil_from_days (days : Z) : Z * Z * Z :=
  let z := days + 719468 in
  let era := z / 146097 in
  let doe := z - era * 146097 in
  let yoe := (doe - doe / 1460 + doe / 36524 - doe / 146096) / 365 in
  let doy := doe - (365 * yoe + yoe / 4 - yoe / 100) in
  let mp := (5 * doy + 2) / 153 in
  let d := doy - (153 * mp + 2) / 5 + 1 in
  let m := if mp <? 10 then mp + 3 else mp - 9 in
  let y := yoe + era * 400 in
  (if m <=? 2 then y + 1 else y, m, d).

Definition date_text (t : Z) : string :=
  let '(y, m, d) := civil_from_days (t / 86400000) in
  year_text y ++ "-" ++ pad2 m ++ "-" ++ pad2 d.

Definition clock_text (t : Z) : string :=
  let s := (t mod 86400000) / 1000 in
  pad2 (s / 3600) ++ ":" ++ pad2 ((s / 60) mod 60) ++ ":" ++ pad2 (s mod 60).

(** [new Date(t).toISOString()]: [YYYY-MM-DDTHH:MM:SS.mmmZ], the year
    written as [year_text] has it. *)
Definition toISOString (t : Z) : string :=
  date_text t ++ "T" ++ clock_text t ++ "." ++ pad3 (t mod 1000) ++ "Z".

(** SQLite's [datetime(t)]: [YYYY-MM-DD HH:MM:SS], a blank between date
    and time and no fraction. SQLite's date functions cover the years 0000
    to 9999, where the date is written as [toISOString] writes it. *)
Definition sqlite_datetime (t : Z) : string :=
  date_text t ++ " " ++ clock_text t.

(** [datetime('now', '-1 minute')] when SQLite reads the clock at [now]. *)
Definition one_minute_before (now : Z) : string := sqlite_datetime (now - 60000).

(* ===================================================================== *)
(** ** SQL values, binding and column affinity *)
(* ===================================================================== *)

(** A bound value: NULL, an INTEGER, a REAL whose value is the integer
    [n], or a TEXT. *)
Inductive SqlVal : Type :=
| SNull
| SInt (n : Z)
| SReal (n : Z)
| SText (s : string).

(** sql.js binds a number with [sqlite3_bind_int] when [val === (val | 0)],
    that is inside 32 bits, and with [sqlite3_bind_double] otherwise. *)
Definition bound_number (n : Z) : SqlVal :=
  if (- 2 ^ 31 <=? n) && (n <? 2 ^ 31) then SInt n else SReal n.

(** sql.js [Statement.bind]: strings and numbers are bound, [null] as
    NULL, and a value of any other type, [undefined] among them, is
    refused: [bind] throws a string. *)
Definition bindValue (v : JsVal) : Result SqlVal :=
  match v with
  | JUndef =>
      Throw (NotAnError
               "Wrong API use : tried to bind a value of an unknown type (undefined).")
  | JNull => Ok SNull
  | JNum n => Ok (bound_number n)
  | JStr s => Ok (SText s)
  end.

(** A field bound as a parameter: an absent key is [undefined]. *)
Definition bindField {A} (f : Field A) : Result (option A) :=
  match f with
  | Absent =>
      Throw (NotAnError
               "Wrong API use : tried to bind a value of an unknown type (undefined).")
  | Null => Ok None
  | Val a => Ok (Some a)
  end.

Definition text_of_int (n : Z) : string := NilZero.string_of_int (Z.to_int n).

(** A text without the zeros it ends in. *)
Fixpoint strip_zeros (s : string) : string :=
  match s with
  | EmptyString => EmptyString
  | String c rest =>
      match strip_zeros rest with
      | EmptyString => if Ascii.eqb c "0" then EmptyString else String c EmptyString
      | kept => String c kept
      end
  end.

(** The text SQLite gives a REAL whose value is the integer [n]: every
    digit and [.0] below 10^15; from there on fifteen significant digits
    and an exponent. The sixteenth digit is rounded half up here; where it
    is an exact half SQLite's own arithmetic decides. *)
Definition real_text (n : Z) : string :=
  let a := Z.abs n in
  let sign := if n <? 0 then "-" else EmptyString in
  if a <? 10 ^ 15 then sign ++ text_of_int a ++ ".0"
  else
    let len := Z.of_nat (String.length (text_of_int a)) in
    let cut := 10 ^ (len - 15) in
    let m := (2 * a + cut) / (2 * cut) in
    let '(m', e) := if 10 ^ 15 <=? m then (m / 10, len) else (m, len - 1) in
    match text_of_int m' with
    | String first rest =>
        sign ++ String first
          ("." ++ (match strip_zeros rest with
                   | EmptyString => "0"
                   | kept => kept
                   end)
           ++ "e+" ++ (if e <? 10 then "0" else EmptyString) ++ text_of_int e)
    | EmptyString => EmptyString
    end.

(** TEXT affinity: what a value becomes when stored in, or compared with,
    the [serverId] column. *)
Definition as_text (v : SqlVal) : option string :=
  match v with
  | SNull => None
  | SInt n => Some (text_of_int n)
  | SReal n => Some (real_text n)
  | SText s => Some s
  end.

(** *** A text compared with a number

    NUMERIC affinity on a TEXT operand of [id = ?]: a text that is a
    number from end to end, blanks around it apart, is compared as that
    number; any other text equals no row id. *)

Definition is_space (c : ascii) : bool :=
  let n := nat_of_ascii c in (((9 <=? n) && (n <=? 13)) || (n =? 32))%nat.

Definition digit_value (c : ascii) : option Z :=
  let n := nat_of_ascii c in
  if ((48 <=? n) && (n <=? 57))%nat then Some (Z.of_nat n - 48) else None.

Fixpoint skip_spaces (s : string) : string :=
  match s with
  | String c rest => if is_space c then skip_spaces rest else s
  | EmptyString => s
  end.

(** An optional sign; [true] for minus. *)
Definition take_sign (s : string) : bool * string :=
  match s with
  | String "-" rest => (true, rest)
  | String "+" rest => (false, rest)
  | _ => (false, s)
  end.

(** SQLite keeps the digits of the significand while it is below this
    bound and drops the digits that follow. *)
Definition significand_limit : Z := (9223372036854775807 - 9) / 10.

(** The digits read so far: the significand kept, the integer all the
    digits before the point spell, the power of ten the significand is
    shifted by, and the number of digits kept. *)
Record Mantissa : Type := mkMantissa {
  significand : Z;
  spelled : Z;
  shift : Z;
  kept : nat
}.

Fixpoint integer_part (s : string) (m : Mantissa) : Mantissa * string :=
  match s with
  | String c rest =>
      match digit_value c with
      | Some v =>
          integer_part rest
            (if significand m <? significand_limit
             then mkMantissa (significand m * 10 + v) (spelled m * 10 + v)
                    (shift m) (S (kept m))
             else mkMantissa (significand m) (spelled m * 10 + v)
                    (shift m + 1) (kept m))
      | None => (m, s)
      end
  | EmptyString => (m, s)
  end.

Fixpoint fraction_part (s : string) (m : Mantissa) : Mantissa * string :=
  match s with
  | String c rest =>
      match digit_value c with
      | Some v =>
          fraction_part rest
            (if significand m <? significand_limit
             then mkMantissa (significand m * 10 + v) (spelled m)
                    (shift m - 1) (S (kept m))
             else m)
      | None => (m, s)
      end
  | EmptyString => (m, s)
  end.

Fixpoint exponent_digits (s : string) (e : Z) (valid : bool) : Z * bool * string :=
  match s with
  | String c rest =>
      match digit_value c with
      | Some v => exponent_digits rest (if e <? 10000 then e * 10 + v else 10000) true
      | None => (e, valid, s)
      end
  | EmptyString => (e, valid, s)
  end.

(** The largest [b] with [2^b <= num / den], for positive [num] and [den]. *)
Definition floor_log2_ratio (num den : Z) : Z :=
  let b := Z.log2 num - Z.log2 den in
  if (if 0 <=? b then den * 2 ^ b <=? num else den <=? num * 2 ^ (- b))
  then b else b - 1.

(** The double nearest to [num / den] (ties to even), when that double is
    an integer: the text is turned into a REAL before it is compared. *)
Definition nearest_double_integer (num den : Z) : option Z :=
  if num =? 0 then Some 0
  else
    let b := floor_log2_ratio num den in
    let sh := Z.max (b - 52) (-1074) in
    let n := if 0 <=? sh then num else num * 2 ^ (- sh) in
    let d := if 0 <=? sh then den * 2 ^ sh else den in
    let q := n / d in
    let r := n mod d in
    let m := if (d <? 2 * r) || ((d =? 2 * r) && Z.odd q) then q + 1 else q in
    if 0 <=? sh
    then if 2 ^ 1024 <=? m * 2 ^ sh then None else Some (m * 2 ^ sh)
    else if m mod 2 ^ (- sh) =? 0 then Some (m / 2 ^ (- sh)) else None.

(** The integer a text equals as a number, if there is one: blanks, a
    sign, digits with an optional point, an optional exponent, blanks. A
    text of digits alone that fits 64 bits is that integer; any other
    number is the nearest double. *)
Definition numeric_int (text : string) : option Z :=
  let '(negative, s1) := take_sign (skip_spaces text) in
  let '(m1, s2) := integer_part s1 (mkMantissa 0 0 0 0) in
  let '(m2, s3, point) :=
    match s2 with
    | String "." rest => let '(m, s) := fraction_part rest m1 in (m, s, true)
    | _ => (m1, s2, false)
    end in
  let '(e, valid, s4, exponent) :=
    match s3 with
    | String c rest =>
        if (Ascii.eqb c "e" || Ascii.eqb c "E")%bool
        then
          match rest with
          | EmptyString => (0, false, rest, true)
          | _ =>
              let '(minus, s) := take_sign rest in
              let '(e, valid, s') := exponent_digits s 0 false in
              (if minus then - e else e, valid, s', true)
          end
        else (0, true, s3, false)
    | EmptyString => (0, true, s3, false)
    end in
  match skip_spaces s4 with
  | EmptyString =>
      if (0 <? Z.of_nat (kept m2)) && valid
      then
        let signed (k : Z) := if negative then - k else k in
        if negb point && negb exponent
           && (if negative then spelled m2 <=? 9223372036854775808
               else spelled m2 <=? 9223372036854775807)
        then Some (signed (spelled m2))
        else
          let x := shift m2 + e in
          option_map signed
            (if 0 <=? x then nearest_double_integer (significand m2 * 10 ^ x) 1
             else nearest_double_integer (significand m2) (10 ^ (- x)))
      else None
  | _ => None
  end.

(** The integer the other operand of [id = ?] equals, if any. *)
Definition as_int (v : SqlVal) : option Z :=
  match v with
  | SNull => None
  | SInt n => Some n
  | SReal n => Some n
  | SText s => numeric_int s
  end.

(** [serverId = ?] *)
Definition serverId_eq (col : option string) (v : SqlVal) : bool :=
  match col, as_text v with
  | Some c, Some s => String.eqb c s
  | _, _ => false
  end.

(** [id = ?] *)
Definition id_eq (col : Z) (v : SqlVal) : bool :=
  match as_int v with
  | Some n => col =? n
  | None => false
  end.

(** [syncedAt IS NULL OR syncedAt < cutoff], a comparison of TEXT values
    byte by byte. *)
Definition dirty_at (cutoff : string) (syncedAt : option string) : bool :=
  match syncedAt with
  | None => true
  | Some s => String.ltb s cutoff
  end.


(* ===================================================================== *)
(** ** The local schema (initDatabase) *)
(* ===================================================================== *)

(** The numeric columns (prices, amounts, quantities) are payload the sync
    code only copies; they are carried as integers. *)

Module ProductRow.
Record t : Type := mk {
  id : Z;
  name : string;
  costPrice : Z;
  sellingPrice : Z;
  quantity : Z;
  lowStockLevel : Z;
  createdAt : string;
  syncedAt : option string;
  serverId : option string
}.
End ProductRow.

Module InvoiceRow.
Record t : Type := mk {
  id : Z;
  totalAmount : Z;
  totalItems : Z;
  createdAt : string;
  syncedAt : option string;
  serverId : option string
}.
End InvoiceRow.

Module InvoiceItemRow.
Record t : Type := mk {
  id : Z;
  invoiceId : Z;
  productId : Z;
  quantity : Z;
  price : Z
}.
End InvoiceItemRow.

(** A table lists its rows in rowid order, the order in which a scan
    returns them; [seq] is the table's entry in [sqlite_sequence], the
    largest rowid AUTOINCREMENT has handed out. *)
Record Table (R : Type) : Type := mkTable {
  rows : list R;
  seq : Z
}.
Arguments mkTable {R} rows seq.
Arguments rows {R} t.
Arguments seq {R} t.

Record Store : Type := mkStore {
  products : Table ProductRow.t;
  invoices : Table InvoiceRow.t;
  invoice_items : Table InvoiceItemRow.t
}.

Definition empty_table {R} : Table R := mkTable [] 0.
Definition empty_store : Store := mkStore empty_table empty_table empty_table.

(** The rowid AUTOINCREMENT picks: one more than the largest rowid that
    ever existed in the table. *)
Definition next_rowid {R} (key : R -> Z) (t : Table R) : Z :=
  fold_right Z.max (seq t) (map key (rows t)) + 1.

Definition insert_row {R} (key : R -> Z) (mkrow : Z -> R) (t : Table R) : Table R :=
  let k := next_rowid key t in
  mkTable (rows t ++ [mkrow k]) k.

Definition update_where {R} (cond : R -> bool) (f : R -> R) (t : Table R) : Table R :=
  mkTable (map (fun r => if cond r then f r else r) (rows t)) (seq t).

Definition delete_where {R} (cond : R -> bool) (t : Table R) : Table R :=
  mkTable (filter (fun r => negb (cond r)) (rows t)) (seq t).

Definition select_where {R} (cond : R -> bool) (t : Table R) : list R :=
  filter cond (rows t).

(** A NOT NULL column refuses NULL: the statement fails, and sql.js
    throws an [Error] with SQLite's message. *)
Definition not_null {A} (column : string) (v : option A) : Result A :=
  match v with
  | Some a => Ok a
  | None => Throw (ErrorObject ("NOT NULL constraint failed: " ++ column))
  end.

(* ===================================================================== *)
(** ** Server records (the [any] payloads of /sync/all and /sync/push) *)
(* ===================================================================== *)

Module ServerProduct.
Record t : Type := mk {
  _id : JsVal;
  id : JsVal;
  name : Field string;
  costPrice : Field Z;
  sellingPrice : Field Z;
  quantity : Field Z;
  lowStockLevel : Field Z;
  createdAt : Field string
}.
End ServerProduct.

(** [item.productId] is an identifier or a populated product object, of
    which only [_id] is read. *)
Inductive ProductRef : Type :=
| RefId (v : JsVal)
| RefPopulated (_id : JsVal).

Module ServerItem.
Record t : Type := mk {
  productId : ProductRef;
  quantity : Field Z;
  price : Field Z
}.
End ServerItem.

Module ServerInvoice.
Record t : Type := mk {
  _id : JsVal;
  id : JsVal;
  totalAmount : Field Z;
  totalItems : Field Z;
  createdAt : Field string;
  items : option (list ServerItem.t)
}.
End ServerInvoice.

Record Snapshot : Type := mkSnapshot {
  snap_products : list ServerProduct.t;
  snap_invoices : list ServerInvoice.t
}.

(** The request body of /sync/push. *)
Module ApiProduct.
Record t : Type := mk {
  _id : JsVal;
  id : Z;
  name : string;
  costPrice : Z;
  sellingPrice : Z;
  quantity : Z;
  lowStockLevel : Z;
  createdAt : string
}.
End ApiProduct.

Module ApiItem.
Record t : Type := mk {
  productId : option Z;
  productName : string;
  quantity : Z;
  price : Z
}.
End ApiItem.

Module ApiInvoice.
Record t : Type := mk {
  _id : JsVal;
  id : Z;
  totalAmount : Z;
  totalItems : Z;
  createdAt : string;
  items : list ApiItem.t
}.
End ApiInvoice.

Record PushPayload : Type := mkPushPayload {
  push_products : list ApiProduct.t;
  push_invoices : list ApiInvoice.t;
  push_deviceId : string
}.

(** The rows an UPDATE that sets only [syncedAt] and [serverId] writes. *)
Definition restamp_product (syncedAt : string) (sid : option string)
    (r : ProductRow.t) : ProductRow.t :=
  ProductRow.mk (ProductRow.id r) (ProductRow.name r) (ProductRow.costPrice r)
    (ProductRow.sellingPrice r) (ProductRow.quantity r)
    (ProductRow.lowStockLevel r) (ProductRow.createdAt r) (Some syncedAt) sid.

Definition restamp_invoice (syncedAt : string) (sid : option string)
    (r : InvoiceRow.t) : InvoiceRow.t :=
  InvoiceRow.mk (InvoiceRow.id r) (InvoiceRow.totalAmount r)
    (InvoiceRow.totalItems r) (InvoiceRow.createdAt r) (Some syncedAt) sid.

(* ===================================================================== *)
(** ** The SQL statements of sync.ts *)
(* ===================================================================== *)

(** A statement is prepared, its parameters are bound in the order of the
    array, and then it is stepped: a parameter that cannot be bound makes
    [bind] throw before any constraint is checked. *)
Module Sql.

(** [SELECT * FROM products WHERE serverId = ? OR id = ?] *)
Definition products_by_serverId_or_id (a b : JsVal) (s : Store)
  : Result (list ProductRow.t) :=
  result_bind (bindValue a) (fun va =>
  result_bind (bindValue b) (fun vb =>
  Ok (select_where
        (fun r => serverId_eq (ProductRow.serverId r) va
                  || id_eq (ProductRow.id r) vb)
        (products s)))).

(** [SELECT * FROM invoices WHERE serverId = ? OR id = ?] *)
Definition invoices_by_serverId_or_id (a b : JsVal) (s : Store)
  : Result (list InvoiceRow.t) :=
  result_bind (bindValue a) (fun va =>
  result_bind (bindValue b) (fun vb =>
  Ok (select_where
        (fun r => serverId_eq (InvoiceRow.serverId r) va
                  || id_eq (InvoiceRow.id r) vb)
        (invoices s)))).

(** [SELECT id FROM invoices WHERE serverId = ?] *)
Definition invoice_ids_by_serverId (a : JsVal) (s : Store) : Result (list Z) :=
  result_bind (bindValue a) (fun va =>
  Ok (map InvoiceRow.id
        (select_where (fun r => serverId_eq (InvoiceRow.serverId r) va)
                      (invoices s)))).

(** [SELECT id FROM products WHERE serverId = ? OR id = ?] *)
Definition product_ids_by_serverId_or_id (a b : JsVal) (s : Store)
  : Result (list Z) :=
  result_bind (products_by_serverId_or_id a b s) (fun l =>
  Ok (map ProductRow.id l)).

(** [UPDATE products SET name = ?, costPrice = ?, sellingPrice = ?,
     quantity = ?, lowStockLevel = ?, syncedAt = ?, serverId = ?
     WHERE id = ?] *)
Definition update_product (sp : ServerProduct.t) (syncedAt : string)
    (sid : JsVal) (k : Z) (s : Store) : Result Store :=
  result_bind (bindField (ServerProduct.name sp)) (fun name =>
  result_bind (bindField (ServerProduct.costPrice sp)) (fun costPrice =>
  result_bind (bindField (ServerProduct.sellingPrice sp)) (fun sellingPrice =>
  result_bind (bindField (ServerProduct.quantity sp)) (fun quantity =>
  result_bind (bindField (ServerProduct.lowStockLevel sp)) (fun lowStockLevel =>
  result_bind (bindValue sid) (fun vs =>
  result_bind (not_null "products.name" name) (fun n =>
  result_bind (not_null "products.costPrice" costPrice) (fun c =>
  result_bind (not_null "products.sellingPrice" sellingPrice) (fun sl =>
  result_bind (not_null "products.quantity" quantity) (fun q =>
  result_bind (not_null "products.lowStockLevel" lowStockLevel) (fun l =>
  Ok (mkStore
        (update_where
           (fun r => ProductRow.id r =? k)
           (fun r => ProductRow.mk (ProductRow.id r) n c sl q l
                       (ProductRow.createdAt r) (Some syncedAt) (as_text vs))
           (products s))
        (invoices s) (invoice_items s))))))))))))).

(** [INSERT INTO products (name, costPrice, sellingPrice, quantity,
     lowStockLevel, createdAt, syncedAt, serverId) VALUES (...)] *)
Definition insert_product (sp : ServerProduct.t) (createdAt syncedAt : string)
    (sid : JsVal) (s : Store) : Result Store :=
  result_bind (bindField (ServerProduct.name sp)) (fun name =>
  result_bind (bindField (ServerProduct.costPrice sp)) (fun costPrice =>
  result_bind (bindField (ServerProduct.sellingPrice sp)) (fun sellingPrice =>
  result_bind (bindField (ServerProduct.quantity sp)) (fun quantity =>
  result_bind (bindField (ServerProduct.lowStockLevel sp)) (fun lowStockLevel =>
  result_bind (bindValue sid) (fun vs =>
  result_bind (not_null "products.name" name) (fun n =>
  result_bind (not_null "products.costPrice" costPrice) (fun c =>
  result_bind (not_null "products.sellingPrice" sellingPrice) (fun sl =>
  result_bind (not_null "products.quantity" quantity) (fun q =>
  result_bind (not_null "products.lowStockLevel" lowStockLevel) (fun l =>
  Ok (mkStore
        (insert_row ProductRow.id
           (fun k => ProductRow.mk k n c sl q l createdAt (Some syncedAt)
                       (as_text vs))
           (products s))
        (invoices s) (invoice_items s))))))))))))).

(** [UPDATE invoices SET totalAmount = ?, totalItems = ?, createdAt = ?,
     syncedAt = ?, serverId = ? WHERE id = ?] *)
Definition update_invoice (si : ServerInvoice.t) (syncedAt : string)
    (sid : JsVal) (k : Z) (s : Store) : Result Store :=
  result_bind (bindField (ServerInvoice.totalAmount si)) (fun totalAmount =>
  result_bind (bindField (ServerInvoice.totalItems si)) (fun totalItems =>
  result_bind (bindField (ServerInvoice.createdAt si)) (fun createdAt =>
  result_bind (bindValue sid) (fun vs =>
  result_bind (not_null "invoices.totalAmount" totalAmount) (fun a =>
  result_bind (not_null "invoices.totalItems" totalItems) (fun n =>
  result_bind (not_null "invoices.createdAt" createdAt) (fun c =>
  Ok (mkStore
        (products s)
        (update_where
           (fun r => InvoiceRow.id r =? k)
           (fun r => InvoiceRow.mk (InvoiceRow.id r) a n c (Some syncedAt)
                       (as_text vs))
           (invoices s))
        (invoice_items s))))))))).

(** [INSERT INTO invoices (totalAmount, totalItems, createdAt, syncedAt,
     serverId) VALUES (...)] *)
Definition insert_invoice (si : ServerInvoice.t) (createdAt syncedAt : string)
    (sid : JsVal) (s : Store) : Result Store :=
  result_bind (bindField (ServerInvoice.totalAmount si)) (fun totalAmount =>
  result_bind (bindField (ServerInvoice.totalItems si)) (fun totalItems =>
  result_bind (bindValue sid) (fun vs =>
  result_bind (not_null "invoices.totalAmount" totalAmount) (fun a =>
  result_bind (not_null "invoices.totalItems" totalItems) (fun n =>
  Ok (mkStore
        (products s)
        (insert_row InvoiceRow.id
           (fun k => InvoiceRow.mk k a n createdAt (Some syncedAt) (as_text vs))
           (invoices s))
        (invoice_items s))))))).

(** [DELETE FROM invoice_items WHERE invoiceId = ?] *)
Definition delete_items (localInvoiceId : Z) (s : Store) : Result Store :=
  Ok (mkStore (products s) (invoices s)
        (delete_where
           (fun r => InvoiceItemRow.invoiceId r =? localInvoiceId)
           (invoice_items s))).

(** [INSERT INTO invoice_items (invoiceId, productId, quantity, price)
     VALUES (?, ?, ?, ?)] *)
Definition insert_item (localInvoiceId localProductId : Z)
    (it : ServerItem.t) (s : Store) : Result Store :=
  result_bind (bindField (ServerItem.quantity it)) (fun quantity =>
  result_bind (bindField (ServerItem.price it)) (fun price =>
  result_bind (not_null "invoice_items.quantity" quantity) (fun q =>
  result_bind (not_null "invoice_items.price" price) (fun p =>
  Ok (mkStore (products s) (invoices s)
        (insert_row InvoiceItemRow.id
           (fun k => InvoiceItemRow.mk k localInvoiceId localProductId q p)
           (invoice_items s))))))).

(** [SELECT * FROM products WHERE syncedAt IS NULL
     OR syncedAt < datetime('now', '-1 minute')] *)
Definition dirty_products (now : Z) (s : Store) : Result (list ProductRow.t) :=
  Ok (select_where
        (fun r => dirty_at (one_minute_before now) (ProductRow.syncedAt r))
        (products s)).

(** [SELECT * FROM invoices WHERE syncedAt IS NULL
     OR syncedAt < datetime('now', '-1 minute')] *)
Definition dirty_invoices (now : Z) (s : Store) : Result (list InvoiceRow.t) :=
  Ok (select_where
        (fun r => dirty_at (one_minute_before now) (InvoiceRow.syncedAt r))
        (invoices s)).

(** [SELECT * FROM invoice_items WHERE invoiceId = ?] *)
Definition items_of_invoice (k : Z) (s : Store) : Result (list InvoiceItemRow.t) :=
  Ok (select_where (fun r => InvoiceItemRow.invoiceId r =? k) (invoice_items s)).

(** [SELECT name FROM products WHERE id = ?] *)
Definition product_names_by_id (k : Z) (s : Store) : Result (list string) :=
  Ok (map ProductRow.name
        (select_where (fun r => ProductRow.id r =? k) (products s))).

(** [UPDATE products SET syncedAt = ?, serverId = ? WHERE id = ?] *)
Definition stamp_product (syncedAt : string) (sid k : JsVal) (s : Store)
  : Result Store :=
  result_bind (bindValue sid) (fun vs =>
  result_bind (bindValue k) (fun vk =>
  Ok (mkStore
        (update_where
           (fun r => id_eq (ProductRow.id r) vk)
           (restamp_product syncedAt (as_text vs))
           (products s))
        (invoices s) (invoice_items s)))).

(** [UPDATE invoices SET syncedAt = ?, serverId = ? WHERE id = ?] *)
Definition stamp_invoice (syncedAt : string) (sid k : JsVal) (s : Store)
  : Result Store :=
  result_bind (bindValue sid) (fun vs =>
  result_bind (bindValue k) (fun vk =>
  Ok (mkStore
        (products s)
        (update_where
           (fun r => id_eq (InvoiceRow.id r) vk)
           (restamp_invoice syncedAt (as_text vs))
           (invoices s))
        (invoice_items s)))).

End Sql.

(* ===================================================================== *)
(** ** The web store adapter (src/db/database.web.ts) *)
(* ===================================================================== *)

(** The adapter keeps the sql.js database in memory ([mem]) and exports it
    to IndexedDB ([idb], empty until the first save). [ticks] counts the
    clock readings made so far. *)
Record World : Type := mkWorld {
  mem : Store;
  idb : option Store;
  ticks : nat
}.

(** Asynchronous code that may throw: the world reached at the throw is
    kept, since nothing undoes the steps already taken. *)
Definition M (A : Type) : Type := World -> Result A * World.

Definition ret {A} (a : A) : M A := fun w => (Ok a, w).

(** [throw new Error(message)] *)
Definition throw {A} (message : string) : M A := fun w => (Throw message, w).

Definition bind {A B} (c : M A) (k : A -> M B) : M B :=
  fun w =>
    match c w with
    | (Ok a, w') => k a w'
    | (Throw e, w') => (Throw e, w')
    end.

(** [try { c } catch (error) { h error }] *)
Definition try_catch {A} (c : M A) (h : Thrown -> M A) : M A :=
  fun w =>
    match c w with
    | (Ok a, w') => (Ok a, w')
    | (Throw e, w') => h e w'
    end.

Declare Scope sync_scope.
Delimit Scope sync_scope with sync.
Notation "x <- c ;; k" := (bind c (fun x => k))
  (at level 100, c at next level, right associativity) : sync_scope.
Notation "c ;;; k" := (bind c (fun _ => k))
  (at level 100, right associativity) : sync_scope.
Local Open Scope sync_scope.

(** [for (const x of xs) { await body(x) }] *)
Fixpoint for_of {A} (xs : list A) (body : A -> M unit) : M unit :=
  match xs with
  | [] => ret tt
  | x :: rest => body x ;;; for_of rest body
  end.

(** [await Promise.all(xs.map(async (x) => f x))] for callbacks that only
    read the store: the results come back in the order of [xs]. *)
Fixpoint map_all {A B} (f : A -> M B) (xs : list A) : M (list B) :=
  match xs with
  | [] => ret []
  | x :: rest => y <- f x ;; ys <- map_all f rest ;; ret (y :: ys)
  end.

(** [saveDb]: export the in-memory database to IndexedDB. *)
Definition saveDb (w : World) : World := mkWorld (mem w) (Some (mem w)) (ticks w).

(** The catch branch of [withTransactionAsync]: read the last export back
    and replace the in-memory database by it when there is one. *)
Definition reloadDb (w : World) : World :=
  match idb w with
  | Some saved => mkWorld saved (idb w) (ticks w)
  | None => w
  end.

(** [runAsync]: prepare, bind and step the statement, then save. A statement
    that throws changes nothing and is not followed by a save. *)
Definition runAsync (stmt : Store -> Result Store) : M unit :=
  fun w =>
    match stmt (mem w) with
    | Ok s' => (Ok tt, saveDb (mkWorld s' (idb w) (ticks w)))
    | Throw e => (Throw e, w)
    end.

(** [querySql] / [getAllAsync] *)
Definition querySql {A} (query : Store -> Result A) : M A :=
  fun w => (query (mem w), w).

(** [withTransactionAsync] *)
Definition withTransactionAsync (callback : M unit) : M unit :=
  fun w =>
    match callback w with
    | (Ok _, w') => (Ok tt, saveDb w')
    | (Throw e, w') => (Throw e, reloadDb w')
    end.

(** A result obtained outside the store (the answer of the server). *)
Definition lift {A} (r : Result A) : M A := fun w => (r, w).

(* ===================================================================== *)
(** ** src/utils/sync.ts *)
(* ===================================================================== *)

Section Sync.

Variable clk : Clock.

(** One reading of the system clock. *)
Definition Date_now : M Z :=
  fun w => (Ok (clk (ticks w)), mkWorld (mem w) (idb w) (S (ticks w))).

(** [new Date().toISOString()] *)
Definition now_iso : M string := t <- Date_now ;; ret (toISOString t).

(** [field || new Date().toISOString()]: the clock is read only when the
    field is falsy. *)
Definition or_now (field : Field string) : M string :=
  match field with
  | Val s => if String.eqb s EmptyString then now_iso else ret s
  | Absent | Null => now_iso
  end.

(** The [// Sync products] loop body. *)
Definition pull_product (serverProduct : ServerProduct.t) : M unit :=
  let sid := js_or (ServerProduct._id serverProduct) (ServerProduct.id serverProduct) in
  existing <- querySql (Sql.products_by_serverId_or_id
                          sid (ServerProduct.id serverProduct)) ;;
  match existing with
  | existing0 :: _ =>
      syncedAt <- now_iso ;;
      runAsync (Sql.update_product serverProduct syncedAt sid
                  (ProductRow.id existing0))
  | [] =>
      createdAt <- or_now (ServerProduct.createdAt serverProduct) ;;
      syncedAt <- now_iso ;;
      runAsync (Sql.insert_product serverProduct createdAt syncedAt sid)
  end.

(** [item.productId?._id || item.productId || item.productId]. A populated
    object is itself truthy, and sql.js refuses to bind an object. *)
Definition item_product_param (it : ServerItem.t) : Result JsVal :=
  match ServerItem.productId it with
  | RefId v => Ok v
  | RefPopulated i =>
      if truthy i then Ok i
      else Throw (NotAnError
                    "Wrong API use : tried to bind a value of an unknown type ([object Object]).")
  end.

(** The [// Insert new items] loop body. *)
Definition pull_item (localInvoiceId : Z) (item : ServerItem.t) : M unit :=
  found <- querySql (fun s =>
             result_bind (item_product_param item) (fun productId =>
             Sql.product_ids_by_serverId_or_id productId productId s)) ;;
  match found with
  | localProduct :: _ =>
      runAsync (Sql.insert_item localInvoiceId localProduct item)
  | [] => ret tt
  end.

(** The [// Sync invoice items] block. *)
Definition pull_items (serverInvoice : ServerInvoice.t)
    (existing : list InvoiceRow.t) (sid : JsVal) : M unit :=
  match ServerInvoice.items serverInvoice with
  | Some items =>
      localInvoiceId <-
        match existing with
        | existing0 :: _ => ret (Some (InvoiceRow.id existing0))
        | [] => ids <- querySql (Sql.invoice_ids_by_serverId sid) ;;
                ret (hd_error ids)
        end ;;
      match localInvoiceId with
      | Some k =>
          if k =? 0 then ret tt
          else
            runAsync (Sql.delete_items k) ;;;
            for_of items (pull_item k)
      | None => ret tt
      end
  | None => ret tt
  end.

(** The [// Sync invoices] loop body. *)
Definition pull_invoice (serverInvoice : ServerInvoice.t) : M unit :=
  let sid := js_or (ServerInvoice._id serverInvoice) (ServerInvoice.id serverInvoice) in
  existing <- querySql (Sql.invoices_by_serverId_or_id
                          sid (ServerInvoice.id serverInvoice)) ;;
  match existing with
  | existing0 :: _ =>
      syncedAt <- now_iso ;;
      runAsync (Sql.update_invoice serverInvoice syncedAt sid
                  (InvoiceRow.id existing0))
  | [] =>
      createdAt <- or_now (ServerInvoice.createdAt serverInvoice) ;;
      syncedAt <- now_iso ;;
      runAsync (Sql.insert_invoice serverInvoice createdAt syncedAt sid)
  end ;;;
  pull_items serverInvoice existing sid.

(** The callback handed to [withTransactionAsync] by [pullFromServer]. *)
Definition pull_transaction (data : Snapshot) : M unit :=
  for_of (snap_products data) pull_product ;;;
  for_of (snap_invoices data) pull_invoice.

(** [pullFromServer]; [response] is what [api.get('/sync/all')] gave: the
    snapshot, or the error it threw. The device identifier read before
    the transaction is not used and is left out, as is the clock reading
    [getDeviceId] makes on a device that has no identifier yet. *)
Definition pullFromServer (response : Result Snapshot) : M Snapshot :=
  try_catch
    (data <- lift response ;;
     withTransactionAsync (pull_transaction data) ;;;
     ret data)
    (fun error =>
       throw ("Failed to pull from server: " ++ caught_message error)).


(** [products.map((p) => ({ _id: p.serverId || undefined, id: p.id, ... }))] *)
Definition product_for_api (p : ProductRow.t) : ApiProduct.t :=
  ApiProduct.mk
    (if str_truthy (ProductRow.serverId p)
     then match ProductRow.serverId p with Some s => JStr s | None => JUndef end
     else JUndef)
    (ProductRow.id p) (ProductRow.name p) (ProductRow.costPrice p)
    (ProductRow.sellingPrice p) (ProductRow.quantity p)
    (ProductRow.lowStockLevel p) (ProductRow.createdAt p).

(** The [items.map] callback of [pushToServer]. *)
Definition item_with_name (invoice : InvoiceRow.t) (item : InvoiceItemRow.t)
  : M ApiItem.t :=
  names <- querySql (Sql.product_names_by_id (InvoiceItemRow.productId item)) ;;
  ret (ApiItem.mk
         (if str_truthy (InvoiceRow.serverId invoice)
          then Some (InvoiceItemRow.productId item) else None)
         (match names with
          | n :: _ => if String.eqb n EmptyString then "Unknown" else n
          | [] => "Unknown"
          end)
         (InvoiceItemRow.quantity item) (InvoiceItemRow.price item)).

(** The [invoices.map] callback of [pushToServer]. *)
Definition invoice_with_items (invoice : InvoiceRow.t) : M ApiInvoice.t :=
  items <- querySql (Sql.items_of_invoice (InvoiceRow.id invoice)) ;;
  itemsWithNames <- map_all (item_with_name invoice) items ;;
  ret (ApiInvoice.mk
         (if str_truthy (InvoiceRow.serverId invoice)
          then match InvoiceRow.serverId invoice with Some s => JStr s | None => JUndef end
          else JUndef)
         (InvoiceRow.id invoice) (InvoiceRow.totalAmount invoice)
         (InvoiceRow.totalItems invoice) (InvoiceRow.createdAt invoice)
         itemsWithNames).

(** The body of the request [pushToServer] posts to /sync/push. Within
    one statement SQLite reads the clock at most once, for
    [datetime('now', ...)], and the two dirty queries are two statements:
    each is given one reading here, whether or not it comes to use it. *)
Definition push_payload (deviceId : string) : M PushPayload :=
  now1 <- Date_now ;;
  products <- querySql (Sql.dirty_products now1) ;;
  now2 <- Date_now ;;
  invoices <- querySql (Sql.dirty_invoices now2) ;;
  invoicesWithItems <- map_all invoice_with_items invoices ;;
  ret (mkPushPayload (map product_for_api products) invoicesWithItems deviceId).

(** The [// Update product sync status] loop body. *)
Definition stamp_pushed_product (product : ServerProduct.t) : M unit :=
  syncedAt <- now_iso ;;
  runAsync (Sql.stamp_product syncedAt
              (js_or (ServerProduct._id product) (ServerProduct.id product))
              (ServerProduct.id product)).

(** The [// Update invoice sync status] loop body. *)
Definition stamp_pushed_invoice (invoice : ServerInvoice.t) : M unit :=
  syncedAt <- now_iso ;;
  runAsync (Sql.stamp_invoice syncedAt
              (js_or (ServerInvoice._id invoice) (ServerInvoice.id invoice))
              (ServerInvoice.id invoice)).

(** The callback handed to [withTransactionAsync] by [pushToServer]. *)
Definition push_transaction (result : Snapshot) : M unit :=
  for_of (snap_products result) stamp_pushed_product ;;;
  for_of (snap_invoices result) stamp_pushed_invoice.

(** [pushToServer]; [deviceId] is what [getDeviceId()] returned and
    [server] answers the request of [api.post('/sync/push', body)] with
    the canonical copies, or with the error it threw. *)
Definition pushToServer (deviceId : string)
    (server : PushPayload -> Result Snapshot) : M unit :=
  try_catch
    (body <- push_payload deviceId ;;
     result <- lift (server body) ;;
     withTransactionAsync (push_transaction result))
    (fun error =>
       throw ("Failed to push to server: " ++ caught_message error)).

(** [fullSync]: pull, then push. *)
Definition fullSync (response : Result Snapshot) (deviceId : string)
    (server : PushPayload -> Result Snapshot) : M (Z * Z) :=
  try_catch
    (pulled <- pullFromServer response ;;
     pushToServer deviceId server ;;;
     ret (Z.of_nat (List.length (snap_products pulled))
          + Z.of_nat (List.length (snap_invoices pulled)), 0))
    (fun error => throw ("Sync failed: " ++ caught_message error)).

End Sync.


(* ===================================================================== *)
(** ** Example stores, snapshots and servers *)
(* ===================================================================== *)

(** A clock that stands at noon of 2024-01-01 (UTC) and advances by one
    second at each reading. *)
Definition noon : Z := 1704110400000.
Definition ticking : Clock := fun k => noon + 1000 * Z.of_nat k.

(** A clock stopped at noon. *)
Definition frozen : Clock := fun _ => noon.

Definition fresh_world (s : Store) : World := mkWorld s (Some s) 0.

(** One product, pushed and stamped two hours before noon of the same day. *)
Definition rice_synced_at_ten : ProductRow.t :=
  ProductRow.mk 1 "Rice" 40 55 50 5 "2023-12-30T08:00:00.000Z"
    (Some (toISOString (noon - 7200000))) (Some "srv_1").

Definition store_synced_at_ten : Store :=
  mkStore (mkTable [rice_synced_at_ten] 1) empty_table empty_table.

(** A server that cannot be reached. *)
Definition unreachable : PushPayload -> Result Snapshot :=
  fun _ => Throw "Network error: Unable to connect to server".

(** A local product without server id in row 1, and in row 2 the local copy
    of the server's product abc. *)
Definition beans_local : ProductRow.t :=
  ProductRow.mk 1 "Beans" 20 30 7 2 "2024-01-01T08:00:00.000Z" None None.

Definition oil_old : ProductRow.t :=
  ProductRow.mk 2 "Old" 90 120 4 0 "2023-12-31T08:00:00.000Z"
    (Some "2023-12-31T09:00:00.000Z") (Some "abc").

Definition store_beans_oil : Store :=
  mkStore (mkTable [beans_local; oil_old] 2) empty_table empty_table.

(** The server's product abc, which another device created as its row 1. *)
Definition oil_new : ServerProduct.t :=
  ServerProduct.mk (JStr "abc") (JNum 1) (Val "New") (Val 95) (Val 125)
    (Val 9) (Val 2) (Val "2023-12-31T08:00:00.000Z").

(** A product record whose name is null. *)
Definition nameless : ServerProduct.t :=
  ServerProduct.mk (JStr "xyz") (JNum 70) Null (Val 1) (Val 2) (Val 3)
    (Val 0) (Val "2023-12-31T08:00:00.000Z").

Definition salt : ServerProduct.t :=
  ServerProduct.mk (JStr "slt") (JNum 60) (Val "Salt") (Val 5) (Val 8)
    (Val 12) (Val 2) (Val "2023-12-31T08:00:00.000Z").

(* ===================================================================== *)
(** ** Vocabulary of the statements about push *)
(* ===================================================================== *)

(** Some record of the list carries, in its [id] field, the local id [k]:
    the [WHERE id = ?] of its UPDATE selects the rows with that id. *)
Definition names_product (qs : list ServerProduct.t) (k : Z) : Prop :=
  exists q v, In q qs /\ bindValue (ServerProduct.id q) = Ok v /\ id_eq k v = true.

Definition names_invoice (qs : list ServerInvoice.t) (k : Z) : Prop :=
  exists q v, In q qs /\ bindValue (ServerInvoice.id q) = Ok v /\ id_eq k v = true.

(** Two rows that agree on every column except [syncedAt] and [serverId]. *)
Definition same_product_data (r r' : ProductRow.t) : Prop :=
  ProductRow.id r' = ProductRow.id r
  /\ ProductRow.name r' = ProductRow.name r
  /\ ProductRow.costPrice r' = ProductRow.costPrice r
  /\ ProductRow.sellingPrice r' = ProductRow.sellingPrice r
  /\ ProductRow.quantity r' = ProductRow.quantity r
  /\ ProductRow.lowStockLevel r' = ProductRow.lowStockLevel r
  /\ ProductRow.createdAt r' = ProductRow.createdAt r.

Definition same_invoice_data (r r' : InvoiceRow.t) : Prop :=
  InvoiceRow.id r' = InvoiceRow.id r
  /\ InvoiceRow.totalAmount r' = InvoiceRow.totalAmount r
  /\ InvoiceRow.totalItems r' = InvoiceRow.totalItems r
  /\ InvoiceRow.createdAt r' = InvoiceRow.createdAt r.

(** What the write-back of push may change between [s] and [s']: row by
    row, only [syncedAt] and [serverId], and only in rows whose id the
    response names. *)
Definition push_frame (result : Snapshot) (s s' : Store) : Prop :=
  invoice_items s' = invoice_items s
  /\ seq (products s') = seq (products s)
  /\ seq (invoices s') = seq (invoices s)
  /\ Forall2
       (fun r r' =>
          same_product_data r r'
          /\ (~ names_product (snap_products result) (ProductRow.id r) -> r' = r))
       (rows (products s)) (rows (products s'))
  /\ Forall2
       (fun r r' =>
          same_invoice_data r r'
          /\ (~ names_invoice (snap_invoices result) (InvoiceRow.id r) -> r' = r))
       (rows (invoices s)) (rows (invoices s')).

(** A row stamped by a run whose first clock reading has number [t0]: it
    has a server id, and its [syncedAt] is the ISO text of a reading the
    run made. *)
Definition stamped (clk : Clock) (t0 : nat)
    (syncedAt serverId : option string) : Prop :=
  serverId <> None
  /\ exists k : nat, (t0 <= k)%nat /\ syncedAt = Some (toISOString (clk k)).


(** A server that stores what it is sent and answers with canonical copies:
    the server id the row already has, or a new one made from the local
    id, and the local id passed through. *)
Definition canonical_product (p : ApiProduct.t) : ServerProduct.t :=
  ServerProduct.mk
    (js_or (ApiProduct._id p) (JStr ("srv_" ++ text_of_int (ApiProduct.id p))))
    (JNum (ApiProduct.id p)) (Val (ApiProduct.name p))
    (Val (ApiProduct.costPrice p)) (Val (ApiProduct.sellingPrice p))
    (Val (ApiProduct.quantity p)) (Val (ApiProduct.lowStockLevel p))
    (Val (ApiProduct.createdAt p)).

Definition canonical_invoice (i : ApiInvoice.t) : ServerInvoice.t :=
  ServerInvoice.mk
    (js_or (ApiInvoice._id i) (JStr ("inv_" ++ text_of_int (ApiInvoice.id i))))
    (JNum (ApiInvoice.id i)) (Val (ApiInvoice.totalAmount i))
    (Val (ApiInvoice.totalItems i)) (Val (ApiInvoice.createdAt i)) None.

Definition accepting : PushPayload -> Result Snapshot :=
  fun body =>
    Ok (mkSnapshot (map canonical_product (push_products body))
                   (map canonical_invoice (push_invoices body))).

(** One local sale, not yet pushed, of two units of the local product. *)
Definition sale_local : InvoiceRow.t :=
  InvoiceRow.mk 1 60 2 "2024-01-01T08:30:00.000Z" None None.

Definition store_with_sale : Store :=
  mkStore (mkTable [beans_local; oil_old] 2)
          (mkTable [sale_local] 1)
          (mkTable [InvoiceItemRow.mk 1 1 1 2 30] 1).

(* ===================================================================== *)
(** ** Vocabulary of the statements about pull *)
(* ===================================================================== *)

(** The invoice record [si] with the items list [its]. *)
Definition with_items (si : ServerInvoice.t) (its : list ServerItem.t)
  : ServerInvoice.t :=
  ServerInvoice.mk (ServerInvoice._id si) (ServerInvoice.id si)
    (ServerInvoice.totalAmount si) (ServerInvoice.totalItems si)
    (ServerInvoice.createdAt si) (Some its).

(** A sale of two units of salt, as the server lists it, and a line that
    refers to a product no one has. *)
Definition item_salt : ServerItem.t :=
  ServerItem.mk (RefId (JStr "slt")) (Val 2) (Val 8).

Definition item_ghost : ServerItem.t :=
  ServerItem.mk (RefId (JStr "gone")) (Val 1) (Val 99).

Definition sale_a : ServerInvoice.t :=
  ServerInvoice.mk (JStr "inv_a") (JStr "inv_a") (Val 16) (Val 2)
    (Val "2024-01-01T09:00:00.000Z") None.

(** The text under which a record is filed in the [serverId] column:
    [_id || id] as the column stores it, or nothing when that is NULL or
    cannot be bound. *)
Definition server_id_text (_id id : JsVal) : option string :=
  match bindValue (js_or _id id) with
  | Ok v => as_text v
  | Throw _ => None
  end.

Definition product_sid (p : ServerProduct.t) : option string :=
  server_id_text (ServerProduct._id p) (ServerProduct.id p).

Definition invoice_sid (i : ServerInvoice.t) : option string :=
  server_id_text (ServerInvoice._id i) (ServerInvoice.id i).

(** The column value [col] is the server id [sid]. *)
Definition carries (sid : string) (col : option string) : bool :=
  match col with
  | Some c => String.eqb c sid
  | None => false
  end.

(** At most one entry of a [serverId] column carries any given server id;
    NULL entries are not counted. *)
Definition unique_serverIds (column : list (option string)) : Prop :=
  forall sid : string, (List.length (filter (carries sid) column) <= 1)%nat.

Definition unique_product_serverIds (s : Store) : Prop :=
  unique_serverIds (map ProductRow.serverId (rows (products s))).

Definition unique_invoice_serverIds (s : Store) : Prop :=
  unique_serverIds (map InvoiceRow.serverId (rows (invoices s))).

(** The primary key: no two rows of a table share their id. *)
Definition distinct_ids {R} (key : R -> Z) (t : Table R) : Prop :=
  NoDup (map key (rows t)).

(** The value of an [id] field equals none of the row ids [ids] under
    [id = ?]: the fallback rule of the lookup selects no row. *)
Definition names_no_row (v : JsVal) (ids : list Z) : Prop :=
  forall vk k, bindValue v = Ok vk -> In k ids -> id_eq k vk = false.

(** A record with the server id [sid] and the [id] field [id] finds its
    holder first: no row of the table that comes before a row holding
    [sid] has an id the field equals. The lookup of pull returns the rows
    in table order and the first one is written. *)
Definition holder_first {R} (key : R -> Z) (sidc : R -> option string)
    (sid : option string) (id : JsVal) (t : Table R) : Prop :=
  forall before r after,
    rows t = before ++ r :: after ->
    sid <> None -> sidc r = sid ->
    names_no_row id (map key before).

Definition product_holders_first (ps : list ServerProduct.t) (s : Store) : Prop :=
  forall p, In p ps ->
    holder_first ProductRow.id ProductRow.serverId
      (product_sid p) (ServerProduct.id p) (products s).

Definition invoice_holders_first (invs : list ServerInvoice.t) (s : Store) : Prop :=
  forall i, In i invs ->
    holder_first InvoiceRow.id InvoiceRow.serverId
      (invoice_sid i) (ServerInvoice.id i) (invoices s).

(** A server id of the response that a local product row already holds is
    held by a row the same record names. *)
Definition answers_own_rows (result : Snapshot) (s : Store) : Prop :=
  forall q r,
    In q (snap_products result) -> In r (rows (products s)) ->
    ProductRow.serverId r <> None ->
    ProductRow.serverId r = product_sid q ->
    names_product [q] (ProductRow.id r).

(** The two operations of a sync session. *)
Inductive SyncOp : Type :=
| OpPull (snapshot : Snapshot)
| OpPush (deviceId : string) (server : PushPayload -> Result Snapshot).

Definition run_op (clk : Clock) (op : SyncOp) : M unit :=
  match op with
  | OpPull snapshot => bind (pullFromServer clk (Ok snapshot)) (fun _ => ret tt)
  | OpPush deviceId server => pushToServer clk deviceId server
  end.

(** What the operation is given carries pairwise distinct server ids and
    does not take a row from the holder of a server id. For a pulled
    snapshot: a record whose server id a local row holds names, by its
    [id], no row that comes before that row. For the response of a push:
    a server id that a local row already holds is held by the row the
    record names. *)
Definition keeps_identities (clk : Clock) (op : SyncOp) (w : World) : Prop :=
  match op with
  | OpPull snapshot =>
      NoDup (map product_sid (snap_products snapshot))
      /\ product_holders_first (snap_products snapshot) (mem w)
  | OpPush deviceId server =>
      forall body result,
        fst (push_payload clk deviceId w) = Ok body ->
        server body = Ok result ->
        NoDup (map product_sid (snap_products result))
        /\ answers_own_rows result (mem w)
  end.

(** A server that files every product under one and the same id. *)
Definition merging : PushPayload -> Result Snapshot :=
  fun body =>
    Ok (mkSnapshot
          (map (fun p => ServerProduct.mk (JStr "abc") (JNum (ApiProduct.id p))
                           (Val (ApiProduct.name p)) (Val (ApiProduct.costPrice p))
                           (Val (ApiProduct.sellingPrice p))
                           (Val (ApiProduct.quantity p))
                           (Val (ApiProduct.lowStockLevel p))
                           (Val (ApiProduct.createdAt p)))
               (push_products body))
          []).

(** Row 1 is new and dirty; row 2 holds abc and was stamped ten seconds
    before noon. *)
Definition oil_fresh : ProductRow.t :=
  ProductRow.mk 2 "Oil" 90 120 4 0 "2023-12-31T08:00:00.000Z"
    (Some (toISOString (noon - 10000))) (Some "abc").

Definition store_beans_fresh_oil : Store :=
  mkStore (mkTable [beans_local; oil_fresh] 2) empty_table empty_table.

(** [SELECT * FROM t WHERE serverId = ? OR id = ?] on a table whose id and
    serverId columns are read by [key] and [sidc]. *)
Definition lookup_rows {R} (key : R -> Z) (sidc : R -> option string)
    (vs vb : SqlVal) (t : Table R) : list R :=
  select_where (fun r => serverId_eq (sidc r) vs || id_eq (key r) vb) t.

(** The upsert of pull: [t'] is [t] with the row [write] makes of the first
    row of the lookup in its place, or with the row [fresh] makes appended
    when the lookup is empty. *)
Inductive upserted {R} (key : R -> Z) (sidc : R -> option string)
    (vs vb : SqlVal) (write : R -> R) (fresh : Z -> R) (t t' : Table R) : Prop :=
| upserted_update (r0 : R) (tl : list R) :
    lookup_rows key sidc vs vb t = r0 :: tl ->
    t' = update_where (fun r => key r =? key r0) write t ->
    upserted key sidc vs vb write fresh t t'
| upserted_insert :
    lookup_rows key sidc vs vb t = [] ->
    t' = insert_row key fresh t ->
    upserted key sidc vs vb write fresh t t'.

(** The columns of an item row other than its own row id. *)
Definition item_data (r : InvoiceItemRow.t) : Z * Z * Z * Z :=
  (InvoiceItemRow.invoiceId r, InvoiceItemRow.productId r,
   InvoiceItemRow.quantity r, InvoiceItemRow.price r).

(** The item rows of the local invoice [k], in rowid order. *)
Definition items_of (k : Z) (s : Store) : list InvoiceItemRow.t :=
  select_where (fun r => InvoiceItemRow.invoiceId r =? k) (invoice_items s).

(** The local product an item's reference finds in [s]: the first row of
    the lookup by server id or local id, if there is one. *)
Definition resolved_product (s : Store) (it : ServerItem.t) : option Z :=
  match result_bind (item_product_param it)
          (fun v => Sql.product_ids_by_serverId_or_id v v s) with
  | Ok (k :: _) => Some k
  | _ => None
  end.

(** The items of a snapshot invoice that resolve, as rows of the local
    invoice [k]: in the order of the snapshot, with the server's quantity
    and price. *)
Definition resolvable_items (s : Store) (k : Z) (its : list ServerItem.t)
  : list (Z * Z * Z * Z) :=
  flat_map
    (fun it =>
       match resolved_product s it, ServerItem.quantity it, ServerItem.price it with
       | Some pid, Val q, Val p => [(k, pid, q, p)]
       | _, _, _ => []
       end)
    its.

(** Row ids as AUTOINCREMENT hands them out: distinct and positive, the
    counter not negative. *)
Definition autoincrement_ids {R} (key : R -> Z) (t : Table R) : Prop :=
  distinct_ids key t /\ Forall (fun r => 0 < key r) (rows t) /\ 0 <= seq t.

(** The lookups and inserts of the item loop go through in [s]: every
    product reference binds, and an item that resolves has its quantity
    and its price. *)
Definition items_go_through (s : Store) (its : list ServerItem.t) : Prop :=
  Forall
    (fun it =>
       exists found,
         result_bind (item_product_param it)
           (fun v => Sql.product_ids_by_serverId_or_id v v s) = Ok found
         /\ (found <> [] ->
             (exists q, ServerItem.quantity it = Val q)
             /\ (exists p, ServerItem.price it = Val p)))
    its.

(** Every row of [l] that holds the server id [sid] satisfies [P], or
    stands behind a row whose id the bound value [vb] equals. *)
Definition traced {R} (key : R -> Z) (sidc : R -> option string)
    (sid : option string) (vb : SqlVal) (P : R -> Prop) (l : list R) : Prop :=
  forall before r after,
    l = before ++ r :: after -> sidc r = sid ->
    P r \/ exists k, In k (map key before) /\ id_eq k vb = true.

(** At most one row of [l] holds the server id [sid]. *)
Definition single_holder {R} (sidc : R -> option string)
    (sid : option string) (l : list R) : Prop :=
  forall r r', In r l -> In r' l -> sidc r = sid -> sidc r' = sid -> r = r'.

(** The row [r] carries the values of the record [sp]. *)
Definition product_carries (sp : ServerProduct.t) (r : ProductRow.t) : Prop :=
  ServerProduct.name sp = Val (ProductRow.name r)
  /\ ServerProduct.costPrice sp = Val (ProductRow.costPrice r)
  /\ ServerProduct.sellingPrice sp = Val (ProductRow.sellingPrice r)
  /\ ServerProduct.quantity sp = Val (ProductRow.quantity r)
  /\ ServerProduct.lowStockLevel sp = Val (ProductRow.lowStockLevel r).

(** The record [sp] is in the store: the first row its lookup returns
    holds its server id and carries its values. *)
Definition product_applied (s : Store) (sp : ServerProduct.t) : Prop :=
  exists vs vb r tl,
    bindValue (js_or (ServerProduct._id sp) (ServerProduct.id sp)) = Ok vs
    /\ bindValue (ServerProduct.id sp) = Ok vb
    /\ lookup_rows ProductRow.id ProductRow.serverId vs vb (products s) = r :: tl
    /\ ProductRow.serverId r = as_text vs
    /\ product_carries sp r.

(** The row [r] carries the values of the record [si] and, when the
    record has an items list, the item loop goes through in [s] and the
    item rows of [r] are the items that resolve. *)
Definition invoice_carries (s : Store) (si : ServerInvoice.t) (r : InvoiceRow.t)
  : Prop :=
  ServerInvoice.totalAmount si = Val (InvoiceRow.totalAmount r)
  /\ ServerInvoice.totalItems si = Val (InvoiceRow.totalItems r)
  /\ (str_truthy (present (ServerInvoice.createdAt si)) = true ->
      ServerInvoice.createdAt si = Val (InvoiceRow.createdAt r))
  /\ forall its, ServerInvoice.items si = Some its ->
       items_go_through s its
       /\ map item_data (items_of (InvoiceRow.id r) s)
          = resolvable_items s (InvoiceRow.id r) its.

(** The record [si] is in the store: the first row its lookup returns
    holds its server id and carries its values and items. *)
Definition invoice_applied (s : Store) (si : ServerInvoice.t) : Prop :=
  exists vs vb r tl,
    bindValue (js_or (ServerInvoice._id si) (ServerInvoice.id si)) = Ok vs
    /\ bindValue (ServerInvoice.id si) = Ok vb
    /\ lookup_rows InvoiceRow.id InvoiceRow.serverId vs vb (invoices s) = r :: tl
    /\ InvoiceRow.serverId r = as_text vs
    /\ invoice_carries s si r.

(** A second product of the server, and one unit of it as an invoice line. *)
Definition pepper : ServerProduct.t :=
  ServerProduct.mk (JStr "ppr") (JNum 61) (Val "Pepper") (Val 2) (Val 3)
    (Val 40) (Val 5) (Val "2023-12-31T08:00:00.000Z").


(** Two invoice lines whose product reference cannot be bound: one that
    carries no [productId], and one whose [productId] is a populated
    object without an [_id]. *)
Definition item_unreferenced : ServerItem.t :=
  ServerItem.mk (RefId JUndef) (Val 1) (Val 3).

Definition item_unidentified : ServerItem.t :=
  ServerItem.mk (RefPopulated JUndef) (Val 1) (Val 3).



(** A row without its [syncedAt] stamp. *)
Definition forget_product_stamp (r : ProductRow.t) : ProductRow.t :=
  ProductRow.mk (ProductRow.id r) (ProductRow.name r) (ProductRow.costPrice r)
    (ProductRow.sellingPrice r) (ProductRow.quantity r)
    (ProductRow.lowStockLevel r) (ProductRow.createdAt r) None
    (ProductRow.serverId r).

Definition forget_invoice_stamp (r : InvoiceRow.t) : InvoiceRow.t :=
  InvoiceRow.mk (InvoiceRow.id r) (InvoiceRow.totalAmount r)
    (InvoiceRow.totalItems r) (InvoiceRow.createdAt r) None
    (InvoiceRow.serverId r).

(** Two stores with the same rows except for the [syncedAt] stamps of
    products and invoices and the row ids of the items: products and
    invoices agree row by row in every other column and in their
    counters, and every invoice has the same item rows, in the same order,
    in every column but the item's own id. *)
Definition same_up_to_stamps (s s' : Store) : Prop :=
  map forget_product_stamp (rows (products s'))
  = map forget_product_stamp (rows (products s))
  /\ seq (products s') = seq (products s)
  /\ map forget_invoice_stamp (rows (invoices s'))
     = map forget_invoice_stamp (rows (invoices s))
  /\ seq (invoices s') = seq (invoices s)
  /\ forall k, map item_data (items_of k s') = map item_data (items_of k s).

(** The store a sync session starts from: primary keys, AUTOINCREMENT ids
    of the invoices, and server ids held by at most one row. *)
Definition store_keys_ok (s : Store) : Prop :=
  distinct_ids ProductRow.id (products s)
  /\ unique_product_serverIds s
  /\ autoincrement_ids InvoiceRow.id (invoices s)
  /\ unique_invoice_serverIds s.

(** A snapshot whose records carry server ids, pairwise distinct among the
    products and among the invoices, and whose invoices carry their
    creation time. *)
Definition snapshot_ids_ok (snap : Snapshot) : Prop :=
  NoDup (map product_sid (snap_products snap))
  /\ (forall p, In p (snap_products snap) -> product_sid p <> None)
  /\ NoDup (map invoice_sid (snap_invoices snap))
  /\ (forall q, In q (snap_invoices snap) ->
        invoice_sid q <> None
        /\ str_truthy (present (ServerInvoice.createdAt q)) = true).

(** Every record of the snapshot is at home in [s]: a row holds its
    server id, and the record finds its holder first. *)
Definition records_at_home (snap : Snapshot) (s : Store) : Prop :=
  (forall p, In p (snap_products snap) ->
     exists r, In r (rows (products s)) /\ ProductRow.serverId r = product_sid p)
  /\ product_holders_first (snap_products snap) s
  /\ (forall i, In i (snap_invoices snap) ->
     exists r, In r (rows (invoices s)) /\ InvoiceRow.serverId r = invoice_sid i)
  /\ invoice_holders_first (snap_invoices snap) s.

(** What the first pull leaves behind when every record is at home: row
    ids in order, and every record in the store. *)
Definition settled (snap : Snapshot) (s : Store) : Prop :=
  distinct_ids ProductRow.id (products s)
  /\ autoincrement_ids InvoiceRow.id (invoices s)
  /\ Forall (product_applied s) (snap_products snap)
  /\ Forall (invoice_applied s) (snap_invoices snap).

(** Two products of the server of which the second names, in its [id],
    the row the first is about to get. *)
Definition product_a : ServerProduct.t :=
  ServerProduct.mk (JStr "a") (JNum 5) (Val "A") (Val 1) (Val 2) (Val 3)
    (Val 0) (Val "2023-12-31T08:00:00.000Z").

Definition product_b : ServerProduct.t :=
  ServerProduct.mk (JStr "b") (JNum 1) (Val "B") (Val 10) (Val 20) (Val 30)
    (Val 0) (Val "2023-12-31T08:00:00.000Z").

(** A sale the server lists with a null creation time. *)
Definition sale_undated : ServerInvoice.t :=
  ServerInvoice.mk (JStr "inv_u") (JNum 9) (Val 16) (Val 2) Null None.

(** The sale of two units of salt with its products. *)
Definition snapshot_salt_sale : Snapshot :=
  mkSnapshot [salt; pepper] [with_items sale_a [item_salt; item_ghost]].

(* ===================================================================== *)
(** ** Vocabulary of the statements about the adapter *)
(* ===================================================================== *)

(** The IndexedDB export, when there is one, is the in-memory database:
    the state [initWebDb] starts from and every [runAsync] re-establishes. *)
Definition export_in_step (w : World) : Prop :=
  forall s, idb w = Some s -> s = mem w.

(** A computation that leaves the export in step, whether it returns or
    throws. *)
Definition keeps_export {A} (c : M A) : Prop :=
  forall w r w', export_in_step w -> c w = (r, w') -> export_in_step w'.

(** A response record that carries neither [_id] nor [id]. *)
Definition anonymous_record : ServerProduct.t :=
  ServerProduct.mk JUndef JUndef (Val "Oil") (Val 90) (Val 120) (Val 4)
    (Val 0) (Val "2023-12-31T08:00:00.000Z").

(** A server that answers the first product of the request and then a
    record without identifiers. *)
Definition half_answering : PushPayload -> Result Snapshot :=
  fun body =>
    Ok (mkSnapshot
          (map canonical_product (firstn 1 (push_products body))
           ++ anonymous_record :: [])
          []).

(* ===================================================================== *)
(** ** Vocabulary of the statements about fullSync *)
(* ===================================================================== *)

(** The first [n] readings of the clock, and the instants one minute before
    them, fall on one and the same UTC date. *)
Definition one_utc_date (clk : Clock) (n : nat) : Prop :=
  forall i j, (i < n)%nat -> (j < n)%nat ->
    date_text (clk i) = date_text (clk j - 60000).

(** A stamp written from one of the first [n] readings of the clock. *)
Definition stamped_before (clk : Clock) (n : nat) (syncedAt : option string) : Prop :=
  exists k, (k < n)%nat /\ syncedAt = Some (toISOString (clk k)).

(** The server's copy of a sale, sent without its items. *)
Definition sale_without_items : ServerInvoice.t :=
  ServerInvoice.mk (JStr "inv_1") (JNum 1) (Val 75) (Val 3)
    (Val "2024-01-01T08:30:00.000Z") None.

(** The server's copy of the local product of row 1, told its server id. *)
Definition beans_on_server : ServerProduct.t :=
  ServerProduct.mk (JStr "bns") (JNum 1) (Val "Beans") (Val 21) (Val 32)
    (Val 6) (Val 2) (Val "2024-01-01T08:00:00.000Z").

(* ===================================================================== *)
(** ** initDatabase (src/db/database.web.ts) *)
(* ===================================================================== *)

(** [executeSql]: [openDatabase], then [runAsync]. *)
Definition executeSql (stmt : Store -> Result Store) : M unit := runAsync stmt.

Module InitSql.

(** [CREATE TABLE IF NOT EXISTS ...]: a table that exists is left as it
    is. The store carries a table that was never created as the empty
    table, so creating it changes nothing either. *)
Definition create_table_if_not_exists (s : Store) : Result Store := Ok s.

(** [CASE WHEN quantity > 10 THEN 5 WHEN quantity > 4 THEN 2 ELSE 0 END] *)
Definition low_stock_case (quantity : Z) : Z :=
  if quantity >? 10 then 5 else if quantity >? 4 then 2 else 0.

(** [UPDATE products SET lowStockLevel = CASE ... END], without WHERE. *)
Definition reset_low_stock (s : Store) : Result Store :=
  Ok (mkStore
        (update_where (fun _ => true)
           (fun r => ProductRow.mk (ProductRow.id r) (ProductRow.name r)
                       (ProductRow.costPrice r) (ProductRow.sellingPrice r)
                       (ProductRow.quantity r)
                       (low_stock_case (ProductRow.quantity r))
                       (ProductRow.createdAt r) (ProductRow.syncedAt r)
                       (ProductRow.serverId r))
           (products s))
        (invoices s) (invoice_items s)).

End InitSql.

Definition initDatabase : M unit :=
  executeSql InitSql.create_table_if_not_exists ;;;
  executeSql InitSql.reset_low_stock ;;;
  executeSql InitSql.create_table_if_not_exists ;;;
  executeSql InitSql.create_table_if_not_exists.

(** The columns of a product row other than [lowStockLevel]. *)
Definition product_but_low_stock (r : ProductRow.t)
  : Z * string * Z * Z * Z * string * option string * option string :=
  (ProductRow.id r, ProductRow.name r, ProductRow.costPrice r,
   ProductRow.sellingPrice r, ProductRow.quantity r, ProductRow.createdAt r,
   ProductRow.syncedAt r, ProductRow.serverId r).

(* ===================================================================== *)
(** ** The transport (src/utils/api.ts) *)
(* ===================================================================== *)

(** What [response.json()] gives: a rejection when the body is not JSON,
    or the parsed body, of which the error branch reads the [error]
    property and the caller the value. *)
Inductive Body (T : Type) : Type :=
| NotJson (message : string)
| Json (error : option string) (value : T).
Arguments NotJson {T} message.
Arguments Json {T} error value.

(** What [fetch] does: it rejects, with a TypeError or with another error,
    or it resolves with a response. *)
Inductive FetchOutcome (T : Type) : Type :=
| FetchRejects (isTypeError : bool) (message : string)
| FetchResponds (ok : bool) (statusText : string) (body : Body T).
Arguments FetchRejects {T} isTypeError message.
Arguments FetchResponds {T} ok statusText body.

(** [message.includes(sub)] *)
Fixpoint includes (sub s : string) : bool :=
  String.prefix sub s
  || match s with
     | EmptyString => false
     | String _ rest => includes sub rest
     end.

(** [error.error || `API Error: ${response.statusText}`], where a body
    that is not JSON is replaced by [{ error: response.statusText }]. *)
Definition error_message {T} (statusText : string) (body : Body T) : string :=
  let error := match body with
               | NotJson _ => Some statusText
               | Json e _ => e
               end in
  if str_truthy error
  then match error with Some e => e | None => EmptyString end
  else "API Error: " ++ statusText.

(** [api.get] and [api.post], given what [fetch] did with the request. *)
Definition api_request {T} (outcome : FetchOutcome T) : Result T :=
  match outcome with
  | FetchRejects isTypeError message =>
      if isTypeError && includes "fetch" message
      then Throw "Network error: Unable to connect to server"
      else Throw message
  | FetchResponds false statusText body => Throw (error_message statusText body)
  | FetchResponds true _ (Json _ value) => Ok value
  | FetchResponds true _ (NotJson message) => Throw message
  end.

(** [api.checkConnection]: a GET of /health that did not throw. *)
Definition checkConnection {T} (health : FetchOutcome T) : bool :=
  match api_request health with
  | Ok _ => true
  | Throw _ => false
  end.

(** [checkServerConnection] of sync.ts. *)
Definition checkServerConnection {T} (health : FetchOutcome T) : bool :=
  checkConnection health.

(* ===================================================================== *)
(** ** getDeviceId (src/utils/sync.ts) *)
(* ===================================================================== *)

(** The SecureStore module: whether its two calls throw, and the item
    stored under [device_id_storage]. *)
Record SecureStore : Type := mkSecureStore {
  getItem_throws : bool;
  setItem_throws : bool;
  item : option string
}.

(** [secure_store] is what the dynamic import gave, nothing when it
    failed; [generated] counts the identifiers made up so far. *)
Record Device : Type := mkDevice {
  secure_store : option SecureStore;
  generated : nat
}.

Section DeviceId.

(** The text [`${Date.now()}_${Math.random().toString(36).substr(2, 9)}`]
    of the k-th identifier made up. *)
Variable entropy : nat -> string.

Definition new_device_id (k : nat) : string := "device_" ++ entropy k.

Definition getDeviceId (d : Device) : string * Device :=
  let fallback (d : Device) :=
    (new_device_id (generated d), mkDevice (secure_store d) (S (generated d))) in
  match secure_store d with
  | Some store =>
      if getItem_throws store then fallback d
      else if str_truthy (item store)
           then (match item store with Some id => id | None => EmptyString end, d)
           else
             let deviceId := new_device_id (generated d) in
             let d1 := mkDevice (secure_store d) (S (generated d)) in
             if setItem_throws store then fallback d1
             else (deviceId,
                   mkDevice (Some (mkSecureStore (getItem_throws store)
                                     (setItem_throws store) (Some deviceId)))
                            (S (generated d)))
  | None => fallback d
  end.

End DeviceId.

(** A SecureStore whose calls do not throw. *)
Definition store_works (d : Device) : Prop :=
  exists store, secure_store d = Some store
                /\ getItem_throws store = false
                /\ setItem_throws store = false.

(* ===================================================================== *)
(** ** initSyncTables (src/utils/sync.ts) *)
(* ===================================================================== *)

(** The columns of the two tables [initSyncTables] alters, in the order of
    their declaration; nothing for a table that does not exist. *)
Record Schema : Type := mkSchema {
  products_columns : option (list string);
  invoices_columns : option (list string)
}.

(** Column names are compared without regard to the case of the letters
    A to Z. *)
Definition lower (c : ascii) : ascii :=
  let n := nat_of_ascii c in
  if ((65 <=? n) && (n <=? 90))%nat then ascii_of_nat (n + 32) else c.

Fixpoint lower_text (s : string) : string :=
  match s with
  | EmptyString => EmptyString
  | String c rest => String (lower c) (lower_text rest)
  end.

Definition same_column (a b : string) : bool :=
  String.eqb (lower_text a) (lower_text b).

(** [ALTER TABLE ... ADD COLUMN column TEXT] *)
Definition add_column (table : string) (column : string)
    (columns : option (list string)) : Result (option (list string)) :=
  match columns with
  | None => Throw ("no such table: " ++ table)
  | Some l =>
      if existsb (same_column column) l
      then Throw ("duplicate column name: " ++ column)
      else Ok (Some (l ++ [column]))
  end.

Definition alter_products (column : string) (s : Schema) : Result Schema :=
  result_bind (add_column "products" column (products_columns s))
    (fun c => Ok (mkSchema c (invoices_columns s))).

Definition alter_invoices (column : string) (s : Schema) : Result Schema :=
  result_bind (add_column "invoices" column (invoices_columns s))
    (fun c => Ok (mkSchema (products_columns s) c)).

(** [try { await db.runAsync(stmt) } catch { }] *)
Definition attempt (stmt : Schema -> Result Schema) (s : Schema) : Schema :=
  match stmt s with
  | Ok s' => s'
  | Throw _ => s
  end.

Definition initSyncTables (s : Schema) : Schema :=
  let s1 := attempt (alter_products "syncedAt") s in
  let s2 := attempt (alter_products "serverId") s1 in
  let s3 := attempt (alter_invoices "syncedAt") s2 in
  attempt (alter_invoices "serverId") s3.

(** The table has the column. *)
Definition has_column (column : string) (columns : option (list string)) : bool :=
  match columns with
  | Some l => existsb (same_column column) l
  | None => false
  end.

(* ===================================================================== *)
(** ** The month of a report (src/db/database.ts) *)
(* ===================================================================== *)

(** Day number, counted from 1970-01-01, of a proleptic Gregorian date. *)
Definition days_from_civil (y m d : Z) : Z :=
  let y' := if m <=? 2 then y - 1 else y in
  let era := y' / 400 in
  let yoe := y' - era * 400 in
  let mp := if m >? 2 then m - 3 else m + 9 in
  let doy := (153 * mp + 2) / 5 + d - 1 in
  let doe := yoe * 365 + yoe / 4 - yoe / 100 + doy in
  era * 146097 + doe - 719468.

(** [Date.UTC(year, monthIndex, 1, 0, 0, 0, 0)]: a month index outside
    0..11 carries into the year, and a year from 0 to 99 stands for
    1900 + year. *)
Definition Date_UTC (year monthIndex : Z) : Z :=
  let y := if (0 <=? year) && (year <=? 99) then 1900 + year else year in
  86400000 * days_from_civil (y + monthIndex / 12) (monthIndex mod 12 + 1) 1.

(** [String(value).padStart(2, '0')] *)
Definition padMonth (value : Z) : string :=
  let s := text_of_int value in
  if (String.length s <? 2)%nat then "0" ++ s else s.

Record MonthRange : Type := mkMonthRange {
  startIso : string;
  endIso : string;
  label : string
}.

Definition getMonthRange (month year : Z) : MonthRange :=
  let start := Date_UTC year (month - 1) in
  let end_ := Date_UTC year month in
  mkMonthRange (toISOString start) (toISOString end_)
    (text_of_int year ++ "-" ++ padMonth month).

(** The first instant of a month, as [toISOString] writes it. *)
Definition first_of_month (year month : Z) : string :=
  pad4 year ++ "-" ++ pad2 month ++ "-01T00:00:00.000Z".

(** The month that follows, December being followed by January of the
    next year. *)
Definition next_month (year month : Z) : Z * Z :=
  if month =? 12 then (year + 1, 1) else (year, month + 1).

(** The first day of the month [m] of the year [y] is found again from its
    day number. *)
Definition first_day_round_trip (y m : Z) : bool :=
  let '(y', m', d') := civil_from_days (days_from_civil y m 1) in
  (y' =? y) && (m' =? m) && (d' =? 1).

(** The twelve months of each of the [n] years from 0. *)
Definition era_round_trip (n : nat) : bool :=
  forallb
    (fun y => forallb (first_day_round_trip y)
                [1; 2; 3; 4; 5; 6; 7; 8; 9; 10; 11; 12])
    (map Z.of_nat (List.seq 0 n)).

(** The server's product abc as the device that created it as its row 2
    receives it. *)
Definition oil_own : ServerProduct.t :=
  ServerProduct.mk (JStr "abc") (JNum 2) (Val "New") (Val 95) (Val 125)
    (Val 9) (Val 2) (Val "2023-12-31T08:00:00.000Z").

(** The server's product abc as a device that is not its creator receives
    it: the [id] it carries is the id of no local row. *)
Definition oil_from_elsewhere : ServerProduct.t :=
  ServerProduct.mk (JStr "abc") (JNum 70) (Val "New") (Val 95) (Val 125)
    (Val 9) (Val 2) (Val "2023-12-31T08:00:00.000Z").

(* ===================================================================== *)
(** * Properties *)
(* ===================================================================== *)

(** ** Bound values *)

Lemma as_text_none (v : SqlVal) : as_text v = None -> v = SNull.
Proof. destruct v; simpl; intros H; [reflexivity | discriminate..]. Qed.

Lemma as_int_bound_number (n : Z) : as_int (bound_number n) = Some n.
Proof. unfold bound_number. destruct (_ && _); reflexivity. Qed.

Lemma id_eq_bound_number (k n : Z) : id_eq k (bound_number n) = (k =? n).
Proof. unfold id_eq. rewrite as_int_bound_number. reflexivity. Qed.

Lemma bound_number_not_null (n : Z) : bound_number n <> SNull.
Proof. unfold bound_number. destruct (_ && _); discriminate. Qed.

Lemma bindValue_null (v : JsVal) : bindValue v = Ok SNull -> v = JNull.
Proof.
  destruct v; simpl; intros H; try discriminate; [reflexivity|].
  inversion H as [Hn]. exfalso. exact (bound_number_not_null _ Hn).
Qed.

(** ** Building the push request only reads *)

Lemma map_all_readonly {A B} (f : A -> M B) (xs : list A) :
  (forall x w, exists y, f x w = (Ok y, w)) ->
  forall w, exists ys, map_all f xs w = (Ok ys, w).
Proof.
  intros Hf. induction xs as [|x xs IH]; intros w; simpl.
  - eexists; reflexivity.
  - unfold bind. destruct (Hf x w) as [y ->]. destruct (IH w) as [ys ->].
    eexists; reflexivity.
Qed.

Lemma item_with_name_readonly invoice item w :
  exists y, item_with_name invoice item w = (Ok y, w).
Proof. unfold item_with_name, bind, querySql, ret; simpl. eexists; reflexivity. Qed.

Lemma invoice_with_items_readonly invoice w :
  exists y, invoice_with_items invoice w = (Ok y, w).
Proof.
  unfold invoice_with_items, bind, querySql; simpl.
  destruct (map_all_readonly (item_with_name invoice)
              (select_where (fun r => InvoiceItemRow.invoiceId r =? InvoiceRow.id invoice)
                 (invoice_items (mem w)))
              (fun x w => item_with_name_readonly invoice x w) w) as [ys ->].
  eexists; reflexivity.
Qed.

Lemma push_payload_total clk deviceId w :
  exists body,
    push_payload clk deviceId w
    = (Ok body, mkWorld (mem w) (idb w) (S (S (ticks w)))).
Proof.
  unfold push_payload, bind, Date_now, querySql; simpl.
  match goal with
  | |- context [map_all invoice_with_items ?l ?w0] =>
      destruct (map_all_readonly invoice_with_items l
                  (fun x w => invoice_with_items_readonly x w) w0) as [ys ->]
  end.
  eexists; reflexivity.
Qed.

(** ** Push: a failed request *)

(** C8. When the request of push fails, [pushToServer] throws the wrapped
    error and neither the in-memory database nor its IndexedDB export has
    changed: no row of any table is touched. *)
Theorem push_network_failure_keeps_store clk deviceId server w (e : string) :
  (forall body w1, push_payload clk deviceId w = (Ok body, w1) ->
                   server body = Throw e) ->
  exists w',
    pushToServer clk deviceId server w
    = (Throw ("Failed to push to server: " ++ e), w')
    /\ mem w' = mem w /\ idb w' = idb w.
Proof.
  intros Hfail.
  destruct (push_payload_total clk deviceId w) as [body Hbody].
  specialize (Hfail _ _ Hbody).
  unfold pushToServer, try_catch, bind, lift, throw.
  rewrite Hbody, Hfail. eexists. split; [reflexivity|]. split; reflexivity.
Qed.

Lemma push_network_failure_keeps_store_witness :
  exists w',
    pushToServer ticking "device_1" unreachable (fresh_world store_beans_oil)
    = (Throw ("Failed to push to server: "
              ++ "Network error: Unable to connect to server"), w')
    /\ mem w' = mem (fresh_world store_beans_oil)
    /\ idb w' = idb (fresh_world store_beans_oil).
Proof.
  apply (push_network_failure_keeps_store ticking "device_1" unreachable
           (fresh_world store_beans_oil)
           "Network error: Unable to connect to server").
  intros body w1 _. reflexivity.
Defined.

(** ** Push: the dirty query *)

Lemma ascii_compare_refl (c : ascii) : Ascii.compare c c = Eq.
Proof. unfold Ascii.compare. apply N.compare_refl. Qed.

Lemma compare_T_blank (d r r' : string) :
  String.compare (d ++ String "T" r) (d ++ String " " r') = Gt.
Proof.
  induction d as [|c d IH]; simpl.
  - reflexivity.
  - rewrite ascii_compare_refl. exact IH.
Qed.

Lemma compare_T_blank_app (d r r' : string) :
  String.compare (d ++ "T" ++ r) (d ++ " " ++ r') = Gt.
Proof. exact (compare_T_blank d r r'). Qed.

(** A stamp written by [toISOString] on the UTC date of the cutoff is never
    below the cutoff, whatever the time of day. *)
Lemma same_date_never_dirty (t now : Z) :
  date_text t = date_text (now - 60000) ->
  dirty_at (one_minute_before now) (Some (toISOString t)) = false.
Proof.
  intros Hd. unfold dirty_at, one_minute_before, sqlite_datetime, toISOString.
  rewrite Hd. unfold String.ltb.
  rewrite compare_T_blank_app. reflexivity.
Qed.

(** C1. The dirty query does not select by age: the product row stamped at
    10:00 is two hours old when push runs at noon of the same day, far more
    than the one minute of the claim, and yet the request carries no
    product. The stamp holds a T where [datetime] writes a blank, so the
    comparison of the two texts is decided by the dates alone. *)
Theorem dirty_selection_skips_same_day_row :
  noon - 7200000 < ticking 0%nat - 60000
  /\ ProductRow.syncedAt rice_synced_at_ten = Some (toISOString (noon - 7200000))
  /\ fst (push_payload ticking "device_1" (fresh_world store_synced_at_ten))
     = Ok (mkPushPayload [] [] "device_1").
Proof. split; [vm_compute; reflexivity|]. split; reflexivity. Qed.

(** C6. A successful push leaves a dirty row as it was. The product row was
    stamped at 10:00, two hours before the first clock reading of the push,
    and is dirty by the one-minute rule; the server accepts whatever it is
    sent and answers every row of the request with its canonical copy. Push
    returns normally, and the row still carries the stamp of 10:00, which
    is before the time push was invoked: the dirty query compares the
    stamp with its cutoff as texts and never sends the row, so no record
    comes back for it. *)
Theorem push_leaves_stale_row_unstamped :
  noon - 7200000 < ticking 0%nat - 60000
  /\ ProductRow.syncedAt rice_synced_at_ten = Some (toISOString (noon - 7200000))
  /\ fst (pushToServer ticking "device_1" accepting
            (fresh_world store_synced_at_ten)) = Ok tt
  /\ rows (products (mem (snd (pushToServer ticking "device_1" accepting
                                 (fresh_world store_synced_at_ten)))))
     = [rice_synced_at_ten].
Proof. split; [vm_compute; reflexivity|]. repeat split; reflexivity. Qed.

(** ** Pull: which row a server record lands on *)

(** C4. Identity resolution does not try the two rules in order: row 2
    carries the record's server id abc, row 1 merely has the local id the
    record names, and the update lands on row 1, the first row of the
    OR-query. Row 1 loses its own data and row 2 keeps the stale copy. *)
Theorem id_match_wins_over_serverId_match :
  mem (snd (pullFromServer ticking (Ok (mkSnapshot [oil_new] []))
              (fresh_world store_beans_oil)))
  = mkStore
      (mkTable
         [ ProductRow.mk 1 "New" 95 125 9 2 "2024-01-01T08:00:00.000Z"
             (Some "2024-01-01T12:00:00.000Z") (Some "abc");
           oil_old ] 2)
      empty_table empty_table.
Proof. reflexivity. Qed.

(** ** Pull: a statement that fails inside the transaction *)

(** C7. A failure inside pull's transaction throws the wrapped error, with
    the message of the cause after the pull context, but the store is not
    put back: the product written before the failing statement is still
    there, in memory and in the IndexedDB export, because [runAsync] saves
    after each statement and the catch branch reloads that very export. *)
Theorem failed_pull_keeps_partial_writes :
  pullFromServer ticking (Ok (mkSnapshot [salt; nameless] []))
    (fresh_world empty_store)
  = (Throw "Failed to pull from server: NOT NULL constraint failed: products.name",
     let s := mkStore
                (mkTable
                   [ ProductRow.mk 1 "Salt" 5 8 12 2 "2023-12-31T08:00:00.000Z"
                       (Some "2024-01-01T12:00:00.000Z") (Some "slt") ] 1)
                empty_table empty_table in
     mkWorld s (Some s) 2).
Proof. reflexivity. Qed.

(** ** Pull: two sales of another device *)


(** ** Pull: an invoice line without a usable product reference *)

(** C9. An invoice line whose product reference cannot be bound aborts the
    pull. The first line of the sale inv_a carries no [productId] (or, in
    the second run, a populated product without an [_id]): the parameter
    of the product lookup is then not a value sql.js binds, the lookup
    throws, and pull throws with it. The second line of that sale, two
    units of the salt that was pulled a moment before, is not inserted,
    and the sale inv_1 that follows is not applied. *)
Theorem unbound_product_reference_aborts_pull :
  let s := mkStore
             (mkTable
                [ ProductRow.mk 1 "Salt" 5 8 12 2 "2023-12-31T08:00:00.000Z"
                    (Some "2024-01-01T12:00:00.000Z") (Some "slt");
                  ProductRow.mk 2 "Pepper" 2 3 40 5 "2023-12-31T08:00:00.000Z"
                    (Some "2024-01-01T12:00:01.000Z") (Some "ppr") ] 2)
             (mkTable
                [ InvoiceRow.mk 1 16 2 "2024-01-01T09:00:00.000Z"
                    (Some "2024-01-01T12:00:02.000Z") (Some "inv_a") ] 1)
             empty_table in
  pullFromServer ticking
    (Ok (mkSnapshot [salt; pepper]
           [with_items sale_a [item_unreferenced; item_salt]; sale_without_items]))
    (fresh_world empty_store)
  = (Throw "Failed to pull from server: Unknown error", mkWorld s (Some s) 3)
  /\ pullFromServer ticking
       (Ok (mkSnapshot [salt; pepper]
              [with_items sale_a [item_unidentified; item_salt]; sale_without_items]))
       (fresh_world empty_store)
     = (Throw "Failed to pull from server: Unknown error", mkWorld s (Some s) 3).
Proof. split; reflexivity. Qed.

(** ** Reasoning about the monad *)

Lemma bind_ok_inv {A B} (c : M A) (k : A -> M B) w b w' :
  bind c k w = (Ok b, w') ->
  exists a w1, c w = (Ok a, w1) /\ k a w1 = (Ok b, w').
Proof.
  unfold bind. destruct (c w) as [[a|e] w1]; intros H.
  - exists a, w1. split; [reflexivity | exact H].
  - discriminate.
Qed.

Lemma try_catch_throw_ok_inv {A} (c : M A) (f : Thrown -> string) w a w' :
  try_catch c (fun m => throw (f m)) w = (Ok a, w') -> c w = (Ok a, w').
Proof.
  unfold try_catch, throw. destruct (c w) as [[a0|e] w1]; intros H.
  - exact H.
  - discriminate.
Qed.

Lemma withTransactionAsync_ok_inv (c : M unit) w w' :
  withTransactionAsync c w = (Ok tt, w') ->
  exists w1, c w = (Ok tt, w1) /\ w' = saveDb w1.
Proof.
  unfold withTransactionAsync. destruct (c w) as [[[]|e] w1]; intros H.
  - exists w1. split; [reflexivity | congruence].
  - discriminate.
Qed.

Lemma runAsync_ok_inv (stmt : Store -> Result Store) w w' :
  runAsync stmt w = (Ok tt, w') ->
  exists s', stmt (mem w) = Ok s' /\ w' = mkWorld s' (Some s') (ticks w).
Proof.
  unfold runAsync. destruct (stmt (mem w)) as [s'|e]; intros H.
  - exists s'. split; [reflexivity|]. unfold saveDb in H. simpl in H. congruence.
  - discriminate.
Qed.

Lemma now_iso_run clk w :
  now_iso clk w
  = (Ok (toISOString (clk (ticks w))), mkWorld (mem w) (idb w) (S (ticks w))).
Proof. reflexivity. Qed.

(** A loop whose every successful iteration relates the worlds before and
    after it by a preorder relates the worlds around the whole loop. *)
Lemma for_of_preorder {A} (R : World -> World -> Prop) (body : A -> M unit)
    (xs : list A) :
  (forall w, R w w) ->
  (forall w1 w2 w3, R w1 w2 -> R w2 w3 -> R w1 w3) ->
  (forall x w w', In x xs -> body x w = (Ok tt, w') -> R w w') ->
  forall w w', for_of xs body w = (Ok tt, w') -> R w w'.
Proof.
  intros Hrefl Htrans. induction xs as [|x xs IH]; intros Hstep w w' Hrun.
  - simpl in Hrun. unfold ret in Hrun. inversion Hrun; subst. apply Hrefl.
  - simpl in Hrun. apply bind_ok_inv in Hrun as ([] & w1 & Hx & Hrest).
    apply Htrans with w1.
    + apply (Hstep x); [left; reflexivity | exact Hx].
    + apply IH; [| exact Hrest]. intros y w2 w3 Hy. apply Hstep. right; exact Hy.
Qed.

Lemma pushToServer_ok_inv clk deviceId server w w' :
  pushToServer clk deviceId server w = (Ok tt, w') ->
  exists body result w2,
    push_payload clk deviceId w
    = (Ok body, mkWorld (mem w) (idb w) (S (S (ticks w))))
    /\ server body = Ok result
    /\ push_transaction clk result (mkWorld (mem w) (idb w) (S (S (ticks w))))
       = (Ok tt, w2)
    /\ w' = saveDb w2.
Proof.
  intros H. unfold pushToServer in H. apply try_catch_throw_ok_inv in H.
  destruct (push_payload_total clk deviceId w) as [body Hbody].
  apply bind_ok_inv in H as (body' & w1 & Hb & H).
  rewrite Hbody in Hb. inversion Hb; subst body' w1. clear Hb.
  apply bind_ok_inv in H as (result & w1 & Hs & H).
  unfold lift in Hs. inversion Hs; subst w1.
  apply withTransactionAsync_ok_inv in H as (w2 & Htx & ->).
  exists body, result, w2. repeat split; assumption.
Qed.

(** ** Push: the write-back *)

Lemma stamp_pushed_product_inv clk q w w' :
  stamp_pushed_product clk q w = (Ok tt, w') ->
  exists vs vk,
    bindValue (js_or (ServerProduct._id q) (ServerProduct.id q)) = Ok vs
    /\ bindValue (ServerProduct.id q) = Ok vk
    /\ ticks w' = S (ticks w)
    /\ mem w'
       = mkStore
           (update_where (fun r => id_eq (ProductRow.id r) vk)
              (restamp_product (toISOString (clk (ticks w))) (as_text vs))
              (products (mem w)))
           (invoices (mem w)) (invoice_items (mem w)).
Proof.
  unfold stamp_pushed_product. intros H.
  apply bind_ok_inv in H as (s & w1 & Hnow & H).
  rewrite now_iso_run in Hnow. inversion Hnow; subst s w1. clear Hnow.
  apply runAsync_ok_inv in H as (s' & Hstmt & ->).
  unfold Sql.stamp_product, result_bind in Hstmt. simpl in Hstmt.
  destruct (bindValue (js_or (ServerProduct._id q) (ServerProduct.id q))) as [vs|];
    [|discriminate].
  destruct (bindValue (ServerProduct.id q)) as [vk|]; [|discriminate].
  inversion Hstmt; subst s'. exists vs, vk. repeat split.
Qed.

Lemma stamp_pushed_invoice_inv clk q w w' :
  stamp_pushed_invoice clk q w = (Ok tt, w') ->
  exists vs vk,
    bindValue (js_or (ServerInvoice._id q) (ServerInvoice.id q)) = Ok vs
    /\ bindValue (ServerInvoice.id q) = Ok vk
    /\ ticks w' = S (ticks w)
    /\ mem w'
       = mkStore
           (products (mem w))
           (update_where (fun r => id_eq (InvoiceRow.id r) vk)
              (restamp_invoice (toISOString (clk (ticks w))) (as_text vs))
              (invoices (mem w)))
           (invoice_items (mem w)).
Proof.
  unfold stamp_pushed_invoice. intros H.
  apply bind_ok_inv in H as (s & w1 & Hnow & H).
  rewrite now_iso_run in Hnow. inversion Hnow; subst s w1. clear Hnow.
  apply runAsync_ok_inv in H as (s' & Hstmt & ->).
  unfold Sql.stamp_invoice, result_bind in Hstmt. simpl in Hstmt.
  destruct (bindValue (js_or (ServerInvoice._id q) (ServerInvoice.id q))) as [vs|];
    [|discriminate].
  destruct (bindValue (ServerInvoice.id q)) as [vk|]; [|discriminate].
  inversion Hstmt; subst s'. exists vs, vk. repeat split.
Qed.

Lemma Forall2_refl_on {A} (P : A -> A -> Prop) (l : list A) :
  (forall x, P x x) -> Forall2 P l l.
Proof. intros H. induction l; constructor; auto. Qed.

Lemma Forall2_trans_on {A} (P : A -> A -> Prop) (l1 l2 l3 : list A) :
  (forall x y z, P x y -> P y z -> P x z) ->
  Forall2 P l1 l2 -> Forall2 P l2 l3 -> Forall2 P l1 l3.
Proof.
  intros Ht H12. revert l3. induction H12; intros l3 H23; inversion H23; subst.
  - constructor.
  - constructor; eauto.
Qed.

Lemma Forall2_map_self {A} (P : A -> A -> Prop) (f : A -> A) (l : list A) :
  (forall x, In x l -> P x (f x)) -> Forall2 P l (map f l).
Proof.
  induction l as [|x l IH]; intros H; simpl; constructor.
  - apply H. left; reflexivity.
  - apply IH. intros y Hy. apply H. right; exact Hy.
Qed.

Lemma push_frame_refl result s : push_frame result s s.
Proof.
  unfold push_frame. repeat split; try reflexivity.
  - apply Forall2_refl_on. intros r. unfold same_product_data. tauto.
  - apply Forall2_refl_on. intros r. unfold same_invoice_data. tauto.
Qed.

Lemma push_frame_trans result s1 s2 s3 :
  push_frame result s1 s2 -> push_frame result s2 s3 -> push_frame result s1 s3.
Proof.
  unfold push_frame.
  intros (Hi1 & Hp1 & Hv1 & Fp1 & Fv1) (Hi2 & Hp2 & Hv2 & Fp2 & Fv2).
  repeat split; try congruence.
  - eapply Forall2_trans_on; [| exact Fp1 | exact Fp2]. cbv beta.
    intros x y z [Dxy Uxy] [Dyz Uyz]. split.
    + unfold same_product_data in *. intuition congruence.
    + intros Hn. rewrite <- (Uxy Hn). apply Uyz.
      destruct Dxy as [-> _]. exact Hn.
  - eapply Forall2_trans_on; [| exact Fv1 | exact Fv2]. cbv beta.
    intros x y z [Dxy Uxy] [Dyz Uyz]. split.
    + unfold same_invoice_data in *. intuition congruence.
    + intros Hn. rewrite <- (Uxy Hn). apply Uyz.
      destruct Dxy as [-> _]. exact Hn.
Qed.

Lemma stamp_pushed_product_frame clk result q w w' :
  In q (snap_products result) ->
  stamp_pushed_product clk q w = (Ok tt, w') ->
  push_frame result (mem w) (mem w').
Proof.
  intros Hin H. apply stamp_pushed_product_inv in H as (vs & vk & _ & Hk & _ & ->).
  unfold push_frame; simpl. repeat split.
  - apply Forall2_map_self. intros r _.
    destruct (id_eq (ProductRow.id r) vk) eqn:E.
    + split; [unfold same_product_data; simpl; tauto|].
      intros Hn. exfalso. apply Hn. exists q, vk. auto.
    + split; [unfold same_product_data; tauto | reflexivity].
  - apply Forall2_refl_on. intros r. unfold same_invoice_data. tauto.
Qed.

Lemma stamp_pushed_invoice_frame clk result q w w' :
  In q (snap_invoices result) ->
  stamp_pushed_invoice clk q w = (Ok tt, w') ->
  push_frame result (mem w) (mem w').
Proof.
  intros Hin H. apply stamp_pushed_invoice_inv in H as (vs & vk & _ & Hk & _ & ->).
  unfold push_frame; simpl. repeat split.
  - apply Forall2_refl_on. intros r. unfold same_product_data. tauto.
  - apply Forall2_map_self. intros r _.
    destruct (id_eq (InvoiceRow.id r) vk) eqn:E.
    + split; [unfold same_invoice_data; simpl; tauto|].
      intros Hn. exfalso. apply Hn. exists q, vk. auto.
    + split; [unfold same_invoice_data; tauto | reflexivity].
Qed.

Lemma push_transaction_frame clk result w w' :
  push_transaction clk result w = (Ok tt, w') ->
  push_frame result (mem w) (mem w').
Proof.
  unfold push_transaction. intros H.
  apply bind_ok_inv in H as ([] & w1 & Hp & Hv).
  apply push_frame_trans with (mem w1).
  - revert Hp. apply (for_of_preorder (fun a b => push_frame result (mem a) (mem b))).
    + intros; apply push_frame_refl.
    + intros ? ? ?; apply push_frame_trans.
    + intros q a b Hq. apply stamp_pushed_product_frame; exact Hq.
  - revert Hv. apply (for_of_preorder (fun a b => push_frame result (mem a) (mem b))).
    + intros; apply push_frame_refl.
    + intros ? ? ?; apply push_frame_trans.
    + intros q a b Hq. apply stamp_pushed_invoice_frame; exact Hq.
Qed.

(** C10. A successful push changes, row by row, nothing but [syncedAt] and
    [serverId], and those only in the products and invoices whose local id
    the response names; every other row, the row counters and the whole
    [invoice_items] table are as before. *)
Theorem push_write_back_frame clk deviceId server w w' :
  pushToServer clk deviceId server w = (Ok tt, w') ->
  exists body result,
    fst (push_payload clk deviceId w) = Ok body
    /\ server body = Ok result
    /\ push_frame result (mem w) (mem w').
Proof.
  intros H. apply pushToServer_ok_inv in H as (body & result & w2 & Hb & Hs & Htx & ->).
  exists body, result. rewrite Hb. split; [reflexivity|]. split; [exact Hs|].
  apply push_transaction_frame in Htx. exact Htx.
Qed.

Lemma push_write_back_frame_witness :
  exists body result,
    fst (push_payload ticking "device_1" (fresh_world store_with_sale)) = Ok body
    /\ accepting body = Ok result
    /\ push_frame result (mem (fresh_world store_with_sale))
         (mem (snd (pushToServer ticking "device_1" accepting
                      (fresh_world store_with_sale)))).
Proof.
  apply (push_write_back_frame ticking "device_1" accepting
           (fresh_world store_with_sale)
           (snd (pushToServer ticking "device_1" accepting
                   (fresh_world store_with_sale)))).
  reflexivity.
Defined.

(** ** Push: the rows a request carried *)

Lemma Forall2_map_l_inv {A B} (P : B -> A -> Prop) (f : A -> B) (l : list A)
    (l' : list A) :
  Forall2 P (map f l) l' -> Forall2 (fun x y => P (f x) y) l l'.
Proof.
  revert l'. induction l as [|x l IH]; intros l' H; simpl in H;
    inversion H; subst; constructor; auto.
Qed.

Lemma Forall2_impl_on {A B} (P Q : A -> B -> Prop) (l : list A) (l' : list B) :
  (forall x y, P x y -> Q x y) -> Forall2 P l l' -> Forall2 Q l l'.
Proof. intros H F. induction F; constructor; auto. Qed.

Lemma Forall2_In_r {A B} (P : A -> B -> Prop) (l : list A) (l' : list B) (y : B) :
  Forall2 P l l' -> In y l' -> exists x, In x l /\ P x y.
Proof.
  intros F. induction F as [|x0 y0 l l' Hxy F IH]; intros Hy.
  - destruct Hy.
  - destruct Hy as [<- | Hy].
    + exists x0. split; [left; reflexivity | exact Hxy].
    + destruct (IH Hy) as (x & Hx & Px). exists x. split; [right; exact Hx | exact Px].
Qed.

(** The server id an UPDATE writes into a row its [WHERE id = ?] selects is
    never NULL: a record whose [id] equals a row id has a defined [id], and
    [_id || id] is then a bound text or number. *)
Lemma written_sid_not_null (_id id : JsVal) (vs vk : SqlVal) (k : Z) :
  bindValue (js_or _id id) = Ok vs ->
  bindValue id = Ok vk ->
  id_eq k vk = true ->
  as_text vs <> None.
Proof.
  intros Hs Hk He Hn. apply as_text_none in Hn. subst vs.
  apply bindValue_null in Hs. unfold js_or in Hs.
  destruct (truthy _id) eqn:T.
  - subst _id. discriminate T.
  - subst id. simpl in Hk. inversion Hk; subst vk. discriminate He.
Qed.


Lemma stamp_invoices_loop clk t0 qs :
  forall w w',
    (t0 <= ticks w)%nat ->
    for_of qs (stamp_pushed_invoice clk) w = (Ok tt, w') ->
    (ticks w <= ticks w')%nat
    /\ products (mem w') = products (mem w)
    /\ Forall2
         (fun r r' =>
            InvoiceRow.id r' = InvoiceRow.id r
            /\ (stamped clk t0 (InvoiceRow.syncedAt r) (InvoiceRow.serverId r) ->
                stamped clk t0 (InvoiceRow.syncedAt r') (InvoiceRow.serverId r'))
            /\ (names_invoice qs (InvoiceRow.id r) ->
                stamped clk t0 (InvoiceRow.syncedAt r') (InvoiceRow.serverId r')))
         (rows (invoices (mem w))) (rows (invoices (mem w'))).
Proof.
  induction qs as [|q qs IH]; intros w w' Ht Hrun.
  - simpl in Hrun. inversion Hrun; subst w'. split; [lia|]. split; [reflexivity|].
    apply Forall2_refl_on. intros r. split; [reflexivity|]. split; [tauto|].
    intros (q & v & [] & _).
  - simpl in Hrun. apply bind_ok_inv in Hrun as ([] & w1 & Hq & Hrest).
    apply stamp_pushed_invoice_inv in Hq as (vs & vk & Hs & Hk & Htick & Hmem).
    assert (Ht1 : (t0 <= ticks w1)%nat) by lia.
    destruct (IH w1 w' Ht1 Hrest) as (Hle & Hinv & HF).
    split; [lia|]. split; [rewrite Hinv, Hmem; reflexivity|].
    rewrite Hmem in HF. simpl in HF. apply Forall2_map_l_inv in HF.
    revert HF. apply Forall2_impl_on. intros r r' (Hid & Hkeep & Hnew).
    destruct (id_eq (InvoiceRow.id r) vk) eqn:E.
    + assert (Hst : stamped clk t0
                (InvoiceRow.syncedAt (restamp_invoice (toISOString (clk (ticks w))) (as_text vs) r))
                (InvoiceRow.serverId (restamp_invoice (toISOString (clk (ticks w))) (as_text vs) r))).
      { simpl. split.
        - exact (written_sid_not_null _ _ _ _ _ Hs Hk E).
        - exists (ticks w). split; [exact Ht | reflexivity]. }
      simpl in Hid. split; [exact Hid|]. split; intros _; exact (Hkeep Hst).
    + split; [exact Hid|]. split; [exact Hkeep|].
      intros (q0 & v & [<- | Hin] & Hb & He).
      * rewrite Hk in Hb. inversion Hb; subst v. congruence.
      * apply Hnew. exists q0, v. auto.
Qed.




(** ** Pull: inverting the loop bodies *)

Lemma for_of_app {A} (body : A -> M unit) (xs ys : list A) (w : World) :
  for_of (xs ++ ys) body w = bind (for_of xs body) (fun _ => for_of ys body) w.
Proof.
  revert w. induction xs as [|x xs IH]; intros w; simpl.
  - reflexivity.
  - unfold bind in *. destruct (body x w) as [[[]|e] w1]; [|reflexivity].
    rewrite IH. reflexivity.
Qed.

Lemma querySql_run {A} (q : Store -> Result A) w : querySql q w = (q (mem w), w).
Proof. reflexivity. Qed.

(** No statement of the invoice phase writes to the products table. *)
Lemma pull_item_products k it w w' :
  pull_item k it w = (Ok tt, w') ->
  products (mem w') = products (mem w) /\ invoices (mem w') = invoices (mem w).
Proof.
  unfold pull_item. intros H.
  apply bind_ok_inv in H as (found & w1 & Hq & H).
  rewrite querySql_run in Hq. inversion Hq; subst w1. clear Hq.
  destruct found as [|localProduct tl].
  - inversion H; subst. split; reflexivity.
  - apply runAsync_ok_inv in H as (s' & Hs & ->).
    unfold Sql.insert_item, result_bind, not_null, bindField in Hs.
    destruct (ServerItem.quantity it), (ServerItem.price it); try discriminate Hs.
    inversion Hs; subst. split; reflexivity.
Qed.

Lemma pull_item_loop_products k its :
  forall w w',
    for_of its (pull_item k) w = (Ok tt, w') ->
    products (mem w') = products (mem w) /\ invoices (mem w') = invoices (mem w).
Proof.
  apply (for_of_preorder
           (fun a b => products (mem b) = products (mem a)
                       /\ invoices (mem b) = invoices (mem a))).
  - intros; split; reflexivity.
  - intros w1 w2 w3 [H1 H2] [H3 H4]. split; congruence.
  - intros it w w' _. apply pull_item_products.
Qed.

Lemma pull_items_products si existing sid w w' :
  pull_items si existing sid w = (Ok tt, w') ->
  products (mem w') = products (mem w) /\ invoices (mem w') = invoices (mem w).
Proof.
  unfold pull_items. destruct (ServerInvoice.items si) as [items|].
  - intros H. apply bind_ok_inv in H as (L & w1 & HL & H).
    assert (Hw1 : w1 = w).
    { destruct existing as [|e0 tl].
      - apply bind_ok_inv in HL as (ids & w2 & Hq & HL).
        rewrite querySql_run in Hq. inversion Hq; subst. inversion HL; reflexivity.
      - inversion HL; reflexivity. }
    subst w1. destruct L as [k|].
    + destruct (k =? 0).
      * inversion H; subst; split; reflexivity.
      * apply bind_ok_inv in H as ([] & w2 & Hd & H).
        apply runAsync_ok_inv in Hd as (s' & Hs & ->).
        unfold Sql.delete_items in Hs. inversion Hs; subst s'. clear Hs.
        apply pull_item_loop_products in H. simpl in H. exact H.
    + inversion H; subst; split; reflexivity.
  - intros H. inversion H; subst; split; reflexivity.
Qed.

Lemma update_invoice_products si t sid k s s' :
  Sql.update_invoice si t sid k s = Ok s' -> products s' = products s.
Proof.
  unfold Sql.update_invoice, result_bind, not_null, bindField.
  destruct (ServerInvoice.totalAmount si), (ServerInvoice.totalItems si),
    (ServerInvoice.createdAt si), (bindValue sid); try discriminate.
  intros H; inversion H; reflexivity.
Qed.

Lemma insert_invoice_products si c t sid s s' :
  Sql.insert_invoice si c t sid s = Ok s' -> products s' = products s.
Proof.
  unfold Sql.insert_invoice, result_bind, not_null, bindField.
  destruct (ServerInvoice.totalAmount si), (ServerInvoice.totalItems si),
    (bindValue sid); try discriminate.
  intros H; inversion H; reflexivity.
Qed.

Lemma or_now_run clk field w :
  exists c w1, or_now clk field w = (Ok c, w1) /\ mem w1 = mem w
               /\ (ticks w <= ticks w1)%nat.
Proof.
  unfold or_now. destruct field as [| |s].
  - rewrite now_iso_run. eexists _, _. split; [reflexivity|]. simpl. split; [reflexivity | lia].
  - rewrite now_iso_run. eexists _, _. split; [reflexivity|]. simpl. split; [reflexivity | lia].
  - destruct (String.eqb s EmptyString).
    + rewrite now_iso_run. eexists _, _. split; [reflexivity|]. simpl. split; [reflexivity | lia].
    + exists s, w. split; [reflexivity|]. split; [reflexivity | lia].
Qed.

Lemma or_now_truthy clk field w c w1 :
  str_truthy (present field) = true -> or_now clk field w = (Ok c, w1) ->
  field = Val c.
Proof.
  unfold or_now, str_truthy. destruct field as [| |s]; simpl; try discriminate.
  destruct (String.eqb s EmptyString); [discriminate|].
  intros _ H. inversion H. reflexivity.
Qed.

Lemma pull_invoice_products clk si w w' :
  pull_invoice clk si w = (Ok tt, w') -> products (mem w') = products (mem w).
Proof.
  unfold pull_invoice. intros H.
  apply bind_ok_inv in H as (existing & w1 & Hq & H).
  rewrite querySql_run in Hq. inversion Hq as [[Hex Hw1]]. subst w1. clear Hq.
  apply bind_ok_inv in H as ([] & w2 & Hup & Hit).
  apply pull_items_products in Hit as [Hit _]. rewrite Hit. clear Hit.
  destruct existing as [|e0 tl].
  - apply bind_ok_inv in Hup as (c & w3 & Hc & Hup).
    destruct (or_now_run clk (ServerInvoice.createdAt si) w) as (c' & w3' & Hc' & Hm & _).
    rewrite Hc' in Hc. inversion Hc; subst c' w3'. clear Hc.
    apply bind_ok_inv in Hup as (t & w4 & Ht & Hup).
    rewrite now_iso_run in Ht. inversion Ht; subst t w4. clear Ht.
    apply runAsync_ok_inv in Hup as (s' & Hs & ->). simpl in *.
    apply insert_invoice_products in Hs. congruence.
  - apply bind_ok_inv in Hup as (t & w4 & Ht & Hup).
    rewrite now_iso_run in Ht. inversion Ht; subst t w4. clear Ht.
    apply runAsync_ok_inv in Hup as (s' & Hs & ->). simpl in *.
    apply update_invoice_products in Hs. congruence.
Qed.

Lemma pull_invoice_loop_products clk invs :
  forall w w',
    for_of invs (pull_invoice clk) w = (Ok tt, w') ->
    products (mem w') = products (mem w).
Proof.
  apply (for_of_preorder (fun a b => products (mem b) = products (mem a))).
  - reflexivity.
  - intros; congruence.
  - intros si w w' _. apply pull_invoice_products.
Qed.

(** ** Pull: running and inverting the whole operation *)

Lemma bind_run {A B} (c : M A) (k : A -> M B) w a w1 :
  c w = (Ok a, w1) -> bind c k w = k a w1.
Proof. unfold bind. intros ->. reflexivity. Qed.

Lemma pullFromServer_ok_iff clk snap w w' :
  pullFromServer clk (Ok snap) w = (Ok snap, w')
  <-> exists w1, pull_transaction clk snap w = (Ok tt, w1) /\ w' = saveDb w1.
Proof.
  unfold pullFromServer, try_catch, bind, lift, withTransactionAsync, ret, throw.
  destruct (pull_transaction clk snap w) as [[[]|e] w1]; split.
  - intros H. exists w1. split; [reflexivity | congruence].
  - intros (w2 & H & ->). inversion H; subst. reflexivity.
  - discriminate.
  - intros (w2 & H & _). discriminate.
Qed.

(** ** Uniqueness of server ids *)

Lemma carries_true sid col : carries sid col = true <-> col = Some sid.
Proof.
  unfold carries. destruct col as [c|].
  - rewrite String.eqb_eq. split; [intros ->; reflexivity | intros [= ->]; reflexivity].
  - split; discriminate.
Qed.

Lemma serverId_eq_true col v :
  serverId_eq col v = true <-> col <> None /\ col = as_text v.
Proof.
  unfold serverId_eq. destruct col as [c|], (as_text v) as [s|]; split;
    try discriminate; try (intros [H1 H2]; congruence).
  - rewrite String.eqb_eq. intros ->. split; [discriminate | reflexivity].
  - intros [_ [= ->]]. apply String.eqb_refl.
Qed.

Lemma serverId_eq_false col v :
  serverId_eq col v = false -> col = as_text v -> col = None.
Proof.
  intros Hf He. destruct col as [c|]; [|reflexivity].
  assert (Ht : serverId_eq (Some c) v = true)
    by (apply serverId_eq_true; split; [discriminate | exact He]).
  congruence.
Qed.

Lemma id_eq_same k k' v : id_eq k v = true -> id_eq k' v = true -> k = k'.
Proof.
  unfold id_eq. destruct (as_int v) as [n|]; [|discriminate].
  rewrite !Z.eqb_eq. congruence.
Qed.

Section Keyed.

Context {R : Type} (key : R -> Z) (sidc : R -> option string).

(** The rows of a table determine each other by their key. *)
Lemma same_key_same_row (l : list R) (r r' : R) :
  NoDup (map key l) -> In r l -> In r' l -> key r = key r' -> r = r'.
Proof.
  induction l as [|x l IH]; intros Hnd Hr Hr' Hk; [destruct Hr|].
  simpl in Hnd. inversion Hnd as [|? ? Hnotin Hnd']; subst.
  destruct Hr as [<- | Hr], Hr' as [<- | Hr'].
  - reflexivity.
  - exfalso. apply Hnotin. rewrite Hk. apply in_map. exact Hr'.
  - exfalso. apply Hnotin. rewrite <- Hk. apply in_map. exact Hr.
  - apply IH; assumption.
Qed.

(** Uniqueness read off pairs of rows. *)
Lemma unique_serverIds_pairs (l : list R) :
  unique_serverIds (map sidc l) ->
  forall r r', In r l -> In r' l -> sidc r = sidc r' -> sidc r <> None -> r = r'.
Proof.
  intros Hu r r' Hr Hr' He Hn.
  destruct (sidc r) as [c|] eqn:Hc; [|congruence]. clear Hn.
  specialize (Hu c). rewrite <- (map_id (filter _ _)) in Hu.
  assert (Hf : forall x, In x l -> sidc x = Some c ->
                 In x (filter (fun y => carries c (sidc y)) l)).
  { intros x Hx Hsx. apply filter_In. split; [exact Hx|]. apply carries_true. exact Hsx. }
  assert (Hlen : (List.length (filter (fun y => carries c (sidc y)) l) <= 1)%nat).
  { clear -Hu. revert Hu. rewrite map_id.
    induction l as [|x l IH]; simpl; [lia|].
    destruct (carries c (sidc x)); simpl; intros; [|apply IH; exact Hu].
    assert (List.length (filter (carries c) (map sidc l))
            = List.length (filter (fun y => carries c (sidc y)) l)).
    { clear. induction l as [|y l IH]; simpl; [reflexivity|].
      destruct (carries c (sidc y)); simpl; congruence. }
    lia. }
  pose proof (Hf r Hr Hc) as H1. pose proof (Hf r' Hr' (eq_sym He)) as H2.
  destruct (filter (fun y => carries c (sidc y)) l) as [|a [|b tl]]; simpl in *.
  - destruct H1.
  - destruct H1 as [<-|[]], H2 as [<-|[]]. reflexivity.
  - lia.
Qed.

(** Uniqueness obtained from pairs of rows, given the primary key. *)
Lemma unique_serverIds_of_pairs (l : list R) :
  NoDup (map key l) ->
  (forall r r', In r l -> In r' l -> sidc r = sidc r' -> sidc r <> None ->
                key r = key r') ->
  unique_serverIds (map sidc l).
Proof.
  intros Hnd Hp sid. induction l as [|x l IH]; simpl; [lia|].
  simpl in Hnd. inversion Hnd as [|? ? Hnotin Hnd']; subst.
  assert (IH' : (List.length (filter (carries sid) (map sidc l)) <= 1)%nat).
  { apply IH; [exact Hnd'|]. intros r r' Hr Hr'. apply Hp; right; assumption. }
  destruct (carries sid (sidc x)) eqn:Hx; [|exact IH'].
  apply carries_true in Hx. simpl.
  assert (Hnone : filter (carries sid) (map sidc l) = []).
  { destruct (filter (carries sid) (map sidc l)) as [|c tl] eqn:Hf; [reflexivity|].
    exfalso.
    assert (Hc : In c (filter (carries sid) (map sidc l))) by (rewrite Hf; left; reflexivity).
    apply filter_In in Hc as [Hc1 Hc2]. apply carries_true in Hc2. subst c.
    apply in_map_iff in Hc1 as (y & Hy & Hyl).
    apply Hnotin.
    rewrite (Hp x y (or_introl eq_refl) (or_intror Hyl)); [apply in_map; exact Hyl | congruence | congruence]. }
  rewrite Hnone. simpl. lia.
Qed.

End Keyed.

(** ** Pull: what one product record does to the store *)

Lemma update_product_ok_inv sp t sid k s s' :
  Sql.update_product sp t sid k s = Ok s' ->
  exists n c sl q l vs,
    ServerProduct.name sp = Val n
    /\ ServerProduct.costPrice sp = Val c
    /\ ServerProduct.sellingPrice sp = Val sl
    /\ ServerProduct.quantity sp = Val q
    /\ ServerProduct.lowStockLevel sp = Val l
    /\ bindValue sid = Ok vs
    /\ s' = mkStore
              (update_where (fun r => ProductRow.id r =? k)
                 (fun r => ProductRow.mk (ProductRow.id r) n c sl q l
                             (ProductRow.createdAt r) (Some t) (as_text vs))
                 (products s))
              (invoices s) (invoice_items s).
Proof.
  unfold Sql.update_product, result_bind, not_null, bindField.
  destruct (ServerProduct.name sp) as [| |n], (ServerProduct.costPrice sp) as [| |c],
    (ServerProduct.sellingPrice sp) as [| |sl], (ServerProduct.quantity sp) as [| |q],
    (ServerProduct.lowStockLevel sp) as [| |l], (bindValue sid) as [vs|];
    try discriminate.
  intros H; inversion H. exists n, c, sl, q, l, vs. repeat split.
Qed.

Lemma insert_product_ok_inv sp cr t sid s s' :
  Sql.insert_product sp cr t sid s = Ok s' ->
  exists n c sl q l vs,
    ServerProduct.name sp = Val n
    /\ ServerProduct.costPrice sp = Val c
    /\ ServerProduct.sellingPrice sp = Val sl
    /\ ServerProduct.quantity sp = Val q
    /\ ServerProduct.lowStockLevel sp = Val l
    /\ bindValue sid = Ok vs
    /\ s' = mkStore
              (insert_row ProductRow.id
                 (fun k => ProductRow.mk k n c sl q l cr (Some t) (as_text vs))
                 (products s))
              (invoices s) (invoice_items s).
Proof.
  unfold Sql.insert_product, result_bind, not_null, bindField.
  destruct (ServerProduct.name sp) as [| |n], (ServerProduct.costPrice sp) as [| |c],
    (ServerProduct.sellingPrice sp) as [| |sl], (ServerProduct.quantity sp) as [| |q],
    (ServerProduct.lowStockLevel sp) as [| |l], (bindValue sid) as [vs|];
    try discriminate.
  intros H; inversion H. exists n, c, sl, q, l, vs. repeat split.
Qed.

(** A product record is applied by an upsert of the products table; the
    other two tables are left alone. *)
Lemma pull_product_ok_inv clk sp w w' :
  pull_product clk sp w = (Ok tt, w') ->
  exists vs vb n c sl q l cr t,
    bindValue (js_or (ServerProduct._id sp) (ServerProduct.id sp)) = Ok vs
    /\ bindValue (ServerProduct.id sp) = Ok vb
    /\ ServerProduct.name sp = Val n
    /\ ServerProduct.costPrice sp = Val c
    /\ ServerProduct.sellingPrice sp = Val sl
    /\ ServerProduct.quantity sp = Val q
    /\ ServerProduct.lowStockLevel sp = Val l
    /\ invoices (mem w') = invoices (mem w)
    /\ invoice_items (mem w') = invoice_items (mem w)
    /\ upserted ProductRow.id ProductRow.serverId vs vb
         (fun r => ProductRow.mk (ProductRow.id r) n c sl q l
                     (ProductRow.createdAt r)
                     (Some (toISOString (clk (ticks w)))) (as_text vs))
         (fun k => ProductRow.mk k n c sl q l cr (Some t) (as_text vs))
         (products (mem w)) (products (mem w')).
Proof.
  unfold pull_product. intros H.
  apply bind_ok_inv in H as (existing & w1 & Hq & H).
  rewrite querySql_run in Hq. inversion Hq as [[Hex Hw1]]. subst w1. clear Hq.
  unfold Sql.products_by_serverId_or_id, result_bind in Hex.
  destruct (bindValue (js_or (ServerProduct._id sp) (ServerProduct.id sp))) as [vs|] eqn:Hvs;
    [|discriminate].
  destruct (bindValue (ServerProduct.id sp)) as [vb|] eqn:Hvb; [|discriminate].
  inversion Hex as [Hsel]. clear Hex.
  destruct existing as [|r0 tl].
  - apply bind_ok_inv in H as (cr & w3 & Hc & H).
    destruct (or_now_run clk (ServerProduct.createdAt sp) w) as (cr' & w3' & Hc' & Hm & _).
    rewrite Hc' in Hc. inversion Hc; subst cr' w3'. clear Hc.
    apply bind_ok_inv in H as (t & w4 & Ht & H).
    rewrite now_iso_run in Ht. inversion Ht; subst t w4. clear Ht.
    apply runAsync_ok_inv in H as (s' & Hs & ->). simpl in Hs.
    apply insert_product_ok_inv in Hs
      as (n & c & sl & q & l & vs' & Hn & Hcp & Hsp & Hqt & Hl & Hb & ->).
    rewrite Hvs in Hb. inversion Hb; subst vs'.
    exists vs, vb, n, c, sl, q, l, cr, (toISOString (clk (ticks w3))). simpl. rewrite Hm.
    repeat (split; [first [assumption | reflexivity]|]).
    apply upserted_insert; [exact Hsel | reflexivity].
  - apply bind_ok_inv in H as (t & w4 & Ht & H).
    rewrite now_iso_run in Ht. inversion Ht; subst t w4. clear Ht.
    apply runAsync_ok_inv in H as (s' & Hs & ->). simpl in Hs.
    apply update_product_ok_inv in Hs
      as (n & c & sl & q & l & vs' & Hn & Hcp & Hsp & Hqt & Hl & Hb & ->).
    rewrite Hvs in Hb. inversion Hb; subst vs'.
    exists vs, vb, n, c, sl, q, l, EmptyString, EmptyString. simpl.
    repeat (split; [first [assumption | reflexivity]|]).
    apply (upserted_update _ _ _ _ _ _ _ _ r0 tl); [exact Hsel | reflexivity].
Qed.

(** ** Tables: fresh row ids, updates by key *)

Section Tables.

Context {R : Type} (key : R -> Z).

Lemma fold_max_ge_init (a : Z) (l : list Z) : a <= fold_right Z.max a l.
Proof. induction l as [|x l IH]; simpl; lia. Qed.

Lemma fold_max_ge_elem (a : Z) (l : list Z) (x : Z) :
  In x l -> x <= fold_right Z.max a l.
Proof.
  induction l as [|y l IH]; intros Hx; [destruct Hx|].
  destruct Hx as [<- | Hx]; simpl; [lia|]. specialize (IH Hx). lia.
Qed.

Lemma next_rowid_above (t : Table R) (r : R) :
  In r (rows t) -> key r < next_rowid key t.
Proof.
  intros Hr. unfold next_rowid.
  pose proof (fold_max_ge_elem (seq t) (map key (rows t)) (key r) (in_map key _ _ Hr)).
  lia.
Qed.

Lemma next_rowid_above_seq (t : Table R) : seq t < next_rowid key t.
Proof. unfold next_rowid. pose proof (fold_max_ge_init (seq t) (map key (rows t))). lia. Qed.

Lemma update_where_keys (cond : R -> bool) (f : R -> R) (t : Table R) :
  (forall r, key (f r) = key r) ->
  map key (rows (update_where cond f t)) = map key (rows t).
Proof.
  intros Hf. unfold update_where; simpl. rewrite map_map.
  apply map_ext. intros r. destruct (cond r); [apply Hf | reflexivity].
Qed.

Lemma insert_row_keys (fresh : Z -> R) (t : Table R) :
  (forall k, key (fresh k) = k) ->
  map key (rows (insert_row key fresh t)) = map key (rows t) ++ [next_rowid key t].
Proof.
  intros Hf. unfold insert_row; simpl. rewrite map_app. simpl. rewrite Hf. reflexivity.
Qed.

Lemma insert_row_distinct (fresh : Z -> R) (t : Table R) :
  (forall k, key (fresh k) = k) ->
  distinct_ids key t -> distinct_ids key (insert_row key fresh t).
Proof.
  intros Hf Hd. unfold distinct_ids in *. rewrite insert_row_keys by exact Hf.
  apply NoDup_app; [exact Hd | constructor; [intros [] | constructor] |].
  intros k Hk [<- | []].
  apply in_map_iff in Hk as (r & Hr & Hin).
  pose proof (next_rowid_above t r Hin). lia.
Qed.

(** Under the primary key an update by key rewrites the one row it names. *)
Lemma update_by_key_rows (f : R -> R) (t : Table R) (r0 : R) :
  distinct_ids key t -> In r0 (rows t) ->
  forall r, In r (rows t) -> (key r =? key r0) = true -> r = r0.
Proof.
  intros Hd H0 r Hr Hk. apply Z.eqb_eq in Hk.
  exact (same_key_same_row key (rows t) r r0 Hd Hr H0 Hk).
Qed.

End Tables.

(** ** Lists: the first row a filter returns, and rows found again *)

Lemma filter_head_split {A} (P : A -> bool) (l : list A) (x : A) (tl : list A) :
  filter P l = x :: tl ->
  exists b a, l = b ++ x :: a /\ (forall y, In y b -> P y = false) /\ P x = true
              /\ filter P a = tl.
Proof.
  induction l as [|y l IH]; simpl; [discriminate|].
  destruct (P y) eqn:E.
  - intros H. inversion H; subst. exists [], l. simpl.
    split; [reflexivity|]. split; [intros ? []|]. split; [exact E | reflexivity].
  - intros H. destruct (IH H) as (b & a & -> & Hb & Hx & Ha).
    exists (y :: b), a. split; [reflexivity|]. split; [|split; assumption].
    intros z [<- | Hz]; [exact E | exact (Hb z Hz)].
Qed.

Lemma snoc_split {A} (l : list A) (x : A) (b : list A) (r : A) (a : list A) :
  l ++ [x] = b ++ r :: a ->
  (exists a', a = a' ++ [x] /\ l = b ++ r :: a') \/ (a = [] /\ r = x /\ l = b).
Proof.
  induction a as [|y a _] using rev_ind.
  - intros H. right. apply app_inj_tail in H as [-> ->]. repeat split.
  - intros H. left. exists a.
    replace (b ++ r :: a ++ [y]) with ((b ++ r :: a) ++ [y]) in H
      by (rewrite <- app_assoc; reflexivity).
    apply app_inj_tail in H as [-> ->]. split; reflexivity.
Qed.

Lemma map_split {A B} (g : A -> B) (l : list A) (b' : list B) (r' : B) (a' : list B) :
  map g l = b' ++ r' :: a' ->
  exists b r a, l = b ++ r :: a /\ map g b = b' /\ g r = r' /\ map g a = a'.
Proof.
  intros H. apply map_eq_app in H as (b & l2 & -> & Hb & H2).
  apply map_eq_cons in H2 as (r & a & -> & Hr & Ha).
  exists b, r, a. repeat split; assumption.
Qed.

(** Of two places in a list, one comes first. *)
Lemma two_splits {A} (b0 : list A) (r0 : A) (a0 b : list A) (x : A) (a : list A) :
  b0 ++ r0 :: a0 = b ++ x :: a ->
  In r0 b \/ (b0 = b /\ r0 = x /\ a0 = a) \/ In x b0.
Proof.
  revert b. induction b0 as [|z b0 IH]; intros [|y b]; simpl; intros H;
    inversion H; subst.
  - right. left. repeat split.
  - left. left. reflexivity.
  - right. right. left. reflexivity.
  - destruct (IH b H2) as [Hin | [(-> & -> & ->) | Hin]].
    + left. right. exact Hin.
    + right. left. repeat split.
    + right. right. right. exact Hin.
Qed.

(** ** The upsert of pull *)

Section Upsert.

Context {R : Type} (key : R -> Z) (sidc : R -> option string).
Variables (vs vb : SqlVal) (write : R -> R) (fresh : Z -> R).
Hypothesis write_key : forall r, key (write r) = key r.
Hypothesis write_sid : forall r, sidc (write r) = as_text vs.
Hypothesis fresh_key : forall k, key (fresh k) = k.
Hypothesis fresh_sid : forall k, sidc (fresh k) = as_text vs.

Variables t t' : Table R.
Hypothesis Hd : distinct_ids key t.
Hypothesis Hup : upserted key sidc vs vb write fresh t t'.

(** The first row of the lookup is rewritten in place, or the lookup is
    empty and a row with a fresh id is appended. *)
Lemma upserted_rows :
  (exists r0 tl,
     lookup_rows key sidc vs vb t = r0 :: tl
     /\ rows t' = map (fun r => if key r =? key r0 then write r else r) (rows t)
     /\ seq t' = seq t)
  \/ (lookup_rows key sidc vs vb t = []
      /\ rows t' = rows t ++ [fresh (next_rowid key t)]
      /\ seq t' = next_rowid key t).
Proof using Hup.
  destruct Hup as [r0 tl Hl ->| Hl ->].
  - left. exists r0, tl. repeat split. exact Hl.
  - right. repeat split. exact Hl.
Qed.

Lemma upserted_distinct : distinct_ids key t'.
Proof using All.
  destruct Hup as [r0 tl Hl ->| Hl ->].
  - unfold distinct_ids. rewrite (update_where_keys key) by exact write_key. exact Hd.
  - apply insert_row_distinct; assumption.
Qed.

Lemma upserted_autoincrement :
  autoincrement_ids key t -> autoincrement_ids key t'.
Proof using All.
  intros (_ & Hpos & Hseq). split; [|split].
  - exact upserted_distinct.
  - destruct Hup as [r0 tl Hl ->| Hl ->]; simpl.
    + apply Forall_forall. intros r Hr. apply in_map_iff in Hr as (x & <- & Hx).
      rewrite Forall_forall in Hpos. specialize (Hpos x Hx).
      destruct (key x =? key r0); [rewrite write_key|]; exact Hpos.
    + apply Forall_app. split; [exact Hpos|]. constructor; [|constructor].
      rewrite fresh_key. pose proof (next_rowid_above_seq key t). lia.
  - destruct Hup as [r0 tl Hl ->| Hl ->]; simpl; [exact Hseq|].
    pose proof (next_rowid_above_seq key t). lia.
Qed.

Lemma upserted_ids : incl (map key (rows t)) (map key (rows t')).
Proof using All.
  destruct Hup as [r0 tl Hl ->| Hl ->].
  - rewrite (update_where_keys key) by exact write_key. apply incl_refl.
  - rewrite insert_row_keys by exact fresh_key. apply incl_appl, incl_refl.
Qed.

(** A row of [t'] that does not hold the server id just written is a row
    of [t]: it stands at the same place, behind rows with the same ids,
    and it is not the row the upsert wrote. *)
Lemma upserted_split (before : list R) (r : R) (after : list R) :
  rows t' = before ++ r :: after -> sidc r <> as_text vs ->
  exists before0 after0,
    rows t = before0 ++ r :: after0
    /\ map key before0 = map key before
    /\ forall r0 tl, lookup_rows key sidc vs vb t = r0 :: tl -> key r <> key r0.
Proof using All.
  intros Hsplit Hsid.
  destruct upserted_rows as [(r0 & tl & Hl & Hrows & _) | (Hl & Hrows & _)].
  - rewrite Hrows in Hsplit. apply map_split in Hsplit as (b & x & a & Ht & Hb & Hx & _).
    destruct (key x =? key r0) eqn:E.
    + exfalso. apply Hsid. rewrite <- Hx. apply write_sid.
    + subst r. exists b, a. split; [exact Ht|]. split.
      * rewrite <- Hb, map_map. apply map_ext. intros y.
        destruct (key y =? key r0); [symmetry; apply write_key | reflexivity].
      * intros r1 tl1 Hl1. rewrite Hl in Hl1. inversion Hl1; subst r1.
        apply Z.eqb_neq. exact E.
  - rewrite Hrows in Hsplit. apply snoc_split in Hsplit as [(a' & -> & Ht) | (-> & Hr & Ht)].
    + exists before, a'. split; [exact Ht|]. split; [reflexivity|].
      intros r0 tl Hl0. rewrite Hl in Hl0. discriminate.
    + exfalso. apply Hsid. rewrite Hr. apply fresh_sid.
Qed.

(** The rows that hold another server id are as few as they were. *)
Lemma upserted_single_other (sid : option string) :
  sid <> as_text vs ->
  single_holder sidc sid (rows t) -> single_holder sidc sid (rows t').
Proof using All.
  intros Hne Hs r r' Hr Hr' Er Er'.
  apply in_split in Hr as (b1 & a1 & H1). apply in_split in Hr' as (b2 & a2 & H2).
  destruct (upserted_split b1 r a1 H1) as (b1' & a1' & E1 & _); [congruence|].
  destruct (upserted_split b2 r' a2 H2) as (b2' & a2' & E2 & _); [congruence|].
  apply Hs; try assumption.
  - rewrite E1. apply in_or_app. right. left. reflexivity.
  - rewrite E2. apply in_or_app. right. left. reflexivity.
Qed.

(** What was known of the holders of another server id is still known,
    for a property that the rows not written keep. *)
Lemma upserted_traced_other (sid : option string) (vb0 : SqlVal) (P P' : R -> Prop) :
  sid <> as_text vs ->
  (forall r, In r (rows t) ->
             (forall r0 tl, lookup_rows key sidc vs vb t = r0 :: tl -> key r <> key r0) ->
             P r -> P' r) ->
  traced key sidc sid vb0 P (rows t) -> traced key sidc sid vb0 P' (rows t').
Proof using All.
  intros Hne Hstable Ht before r after Hsplit Hs.
  destruct (upserted_split before r after Hsplit) as (b0 & a0 & E & Hk & Hnot);
    [congruence|].
  destruct (Ht b0 r a0 E Hs) as [HP | (k & Hin & Hid)].
  - left. apply Hstable; [|exact Hnot | exact HP].
    rewrite E. apply in_or_app. right. left. reflexivity.
  - right. exists k. rewrite <- Hk. split; assumption.
Qed.

(** The holders of the server id just written: the row written, which has
    the property [P], or a row that stands behind a row the record names
    by its id. *)
Lemma upserted_traced (P : R -> Prop) :
  as_text vs <> None ->
  single_holder sidc (as_text vs) (rows t) ->
  (forall r0 tl, lookup_rows key sidc vs vb t = r0 :: tl -> P (write r0)) ->
  (lookup_rows key sidc vs vb t = [] -> P (fresh (next_rowid key t))) ->
  traced key sidc (as_text vs) vb P (rows t').
Proof using All.
  intros Hn Hsingle HPw HPf before r after Hsplit Hs.
  destruct upserted_rows as [(r0 & tl & Hl & Hrows & _) | (Hl & Hrows & _)].
  - rewrite Hrows in Hsplit. apply map_split in Hsplit as (b & x & a & Ht & Hb & Hx & _).
    destruct (key x =? key r0) eqn:E.
    + left. subst r. apply Z.eqb_eq in E.
      assert (Hx0 : x = r0).
      { pose proof (filter_head_split _ _ _ _ Hl) as (b0 & a0 & Ht0 & _).
        apply (same_key_same_row key (rows t)); [exact Hd | | | exact E].
        - rewrite Ht. apply in_or_app. right. left. reflexivity.
        - unfold rows in *. rewrite Ht0. apply in_or_app. right. left. reflexivity. }
      subst x. exact (HPw r0 tl Hl).
    + right. subst r.
      pose proof (filter_head_split _ _ _ _ Hl) as (b0 & a0 & Ht0 & Hb0 & H0 & _).
      assert (Hcx : serverId_eq (sidc x) vs = true)
        by (apply serverId_eq_true; split; [congruence | exact Hs]).
      assert (Hsplit2 : b0 ++ r0 :: a0 = b ++ x :: a) by (rewrite <- Ht0; exact Ht).
      destruct (two_splits _ _ _ _ _ _ Hsplit2) as [Hin | [(_ & E0 & _) | Hin]].
      * exists (key r0). split.
        -- rewrite <- Hb, map_map. apply in_map_iff. exists r0. split; [|exact Hin].
           destruct (key r0 =? key r0); [apply write_key | reflexivity].
        -- cbv beta in H0. apply orb_true_iff in H0 as [H0 | H0]; [|exact H0].
           exfalso. apply serverId_eq_true in H0 as [_ H0].
           assert (r0 = x).
           { apply Hsingle; try assumption.
             - rewrite Ht0. apply in_or_app. right. left. reflexivity.
             - rewrite Ht. apply in_or_app. right. left. reflexivity. }
           subst x. rewrite Z.eqb_refl in E. discriminate.
      * subst x. rewrite Z.eqb_refl in E. discriminate.
      * specialize (Hb0 x Hin). cbv beta in Hb0. rewrite Hcx in Hb0. discriminate.
  - rewrite Hrows in Hsplit. apply snoc_split in Hsplit as [(a' & -> & Ht) | (-> & Hr & Ht)].
    + exfalso.
      assert (Hm : In r (lookup_rows key sidc vs vb t)).
      { apply filter_In. split.
        - rewrite Ht. apply in_or_app. right. left. reflexivity.
        - apply orb_true_iff. left. apply serverId_eq_true. split; congruence. }
      rewrite Hl in Hm. destruct Hm.
    + left. subst r. exact (HPf Hl).
Qed.

Section Unique.

Hypothesis Hu : unique_serverIds (map sidc (rows t)).
Hypothesis Hfirst :
  forall before r after,
    rows t = before ++ r :: after ->
    as_text vs <> None -> sidc r = as_text vs ->
    forall x, In x before -> id_eq (key x) vb = false.

(** When the lookup returns rows, every holder of the server id is the
    first of them. *)
Lemma holder_is_first (r0 : R) (tl : list R) (r : R) :
  lookup_rows key sidc vs vb t = r0 :: tl ->
  In r (rows t) -> sidc r = as_text vs -> as_text vs <> None -> r = r0.
Proof using All.
  intros Hl Hr Hs Hn.
  apply filter_head_split in Hl as (b & a & Ht & Hb & H0 & _).
  assert (Hc : serverId_eq (sidc r) vs = true).
  { apply serverId_eq_true. split; [congruence | exact Hs]. }
  rewrite Ht in Hr. apply in_app_or in Hr as [Hr | [Hr | Hr]].
  - specialize (Hb r Hr). cbv beta in Hb. rewrite Hc in Hb. discriminate.
  - symmetry; exact Hr.
  - apply in_split in Hr as (a1 & a2 & ->).
    assert (Hid : id_eq (key r0) vb = false).
    { apply (Hfirst (b ++ r0 :: a1) r a2).
      - rewrite Ht, <- app_assoc. reflexivity.
      - exact Hn.
      - exact Hs.
      - apply in_or_app. right. left. reflexivity. }
    cbv beta in H0. rewrite Hid, orb_false_r in H0.
    apply serverId_eq_true in H0 as [Hn0 Hs0].
    assert (Hin0 : In r0 (rows t)) by (rewrite Ht; apply in_or_app; right; left; reflexivity).
    assert (Hinr : In r (rows t))
      by (rewrite Ht; apply in_or_app; right; right; apply in_or_app; right; left;
          reflexivity).
    symmetry. apply (unique_serverIds_pairs sidc _ Hu r0 r Hin0 Hinr); congruence.
Qed.

Lemma upserted_unique : unique_serverIds (map sidc (rows t')).
Proof using All.
  destruct upserted_rows as [(r0 & tl & Hl & Hrows & _) | (Hl & Hrows & _)].
  - apply (unique_serverIds_of_pairs key); [exact upserted_distinct|].
    intros r1' r2' H1 H2 He Hn.
    rewrite Hrows in H1, H2.
    apply in_map_iff in H1 as (r1 & E1 & H1). apply in_map_iff in H2 as (r2 & E2 & H2).
    assert (K1 : key r1' = key r1)
      by (subst r1'; destruct (key r1 =? key r0); [apply write_key | reflexivity]).
    assert (K2 : key r2' = key r2)
      by (subst r2'; destruct (key r2 =? key r0); [apply write_key | reflexivity]).
    rewrite K1, K2.
    destruct (key r1 =? key r0) eqn:T1, (key r2 =? key r0) eqn:T2.
    + apply Z.eqb_eq in T1, T2. congruence.
    + subst r1' r2'. rewrite write_sid in He, Hn.
      rewrite (holder_is_first r0 tl r2 Hl H2 (eq_sym He) Hn) in T2.
      rewrite Z.eqb_refl in T2. discriminate.
    + subst r1' r2'. rewrite write_sid in He.
      assert (Hn2 : as_text vs <> None) by (rewrite <- He; exact Hn).
      rewrite (holder_is_first r0 tl r1 Hl H1 He Hn2) in T1.
      rewrite Z.eqb_refl in T1. discriminate.
    + subst r1' r2'. f_equal.
      apply (unique_serverIds_pairs sidc _ Hu r1 r2 H1 H2 He Hn).
  - rewrite Hrows, map_app. simpl. rewrite fresh_sid.
    intros sid. rewrite filter_app, length_app. simpl.
    destruct (carries sid (as_text vs)) eqn:E; simpl; [|specialize (Hu sid); lia].
    apply carries_true in E.
    assert (Hempty : filter (carries sid) (map sidc (rows t)) = []).
    { destruct (filter (carries sid) (map sidc (rows t))) as [|c tl] eqn:Hf; [reflexivity|].
      exfalso.
      assert (Hc : In c (filter (carries sid) (map sidc (rows t))))
        by (rewrite Hf; left; reflexivity).
      apply filter_In in Hc as [Hc1 Hc2]. apply carries_true in Hc2. subst c.
      apply in_map_iff in Hc1 as (r & Hr & Hin).
      assert (Hm : In r (lookup_rows key sidc vs vb t)).
      { apply filter_In. split; [exact Hin|].
        apply orb_true_iff. left. apply serverId_eq_true.
        split; congruence. }
      rewrite Hl in Hm. destruct Hm. }
    rewrite Hempty. simpl. lia.
Qed.

End Unique.

End Upsert.

(** The facts of the section, for the upsert a hypothesis describes. *)
Ltac upsert_fact L Hd Hup :=
  match type of Hup with
  | upserted ?key ?sidc ?vs ?vb ?wr ?fr ?t ?t' =>
      constr:(L _ key sidc vs vb wr fr
                (fun r => eq_refl) (fun r => eq_refl) (fun k => eq_refl) (fun k => eq_refl)
                t t' Hd Hup)
  end.

(** The first row of a lookup that finds the holder first is a holder, and
    it has the property traced to the holders. *)
Lemma traced_first_match {R} (key : R -> Z) (sidc : R -> option string)
    (vs vb : SqlVal) (P : R -> Prop) (t : Table R) :
  as_text vs <> None ->
  traced key sidc (as_text vs) vb P (rows t) ->
  (exists r, In r (rows t) /\ sidc r = as_text vs) ->
  (forall before r after,
     rows t = before ++ r :: after -> sidc r = as_text vs ->
     forall x, In x before -> id_eq (key x) vb = false) ->
  exists r tl,
    lookup_rows key sidc vs vb t = r :: tl /\ sidc r = as_text vs /\ P r.
Proof.
  intros Hn Ht (h & Hh & Hhs) Hfirst.
  assert (Hch : serverId_eq (sidc h) vs = true)
    by (apply serverId_eq_true; split; [congruence | exact Hhs]).
  destruct (lookup_rows key sidc vs vb t) as [|r tl] eqn:Hl.
  { exfalso. assert (Hm : In h (lookup_rows key sidc vs vb t)).
    { apply filter_In. split; [exact Hh|]. apply orb_true_iff. left. exact Hch. }
    rewrite Hl in Hm. destruct Hm. }
  exists r, tl. split; [reflexivity|].
  pose proof (filter_head_split _ _ _ _ Hl) as (b & a & Hrows & Hb & Hr & _).
  assert (Hnot : forall x, In x b -> id_eq (key x) vb = false).
  { intros x Hx. specialize (Hb x Hx). cbv beta in Hb.
    apply orb_false_iff in Hb as [_ Hb]. exact Hb. }
  assert (Hsid : sidc r = as_text vs).
  { destruct (serverId_eq (sidc r) vs) eqn:E;
      [apply serverId_eq_true in E as [_ E]; exact E|].
    exfalso. cbv beta in Hr. rewrite ?E in Hr. simpl in Hr.
    rewrite Hrows in Hh. apply in_app_or in Hh as [Hh | [Hh | Hh]].
    - specialize (Hb h Hh). cbv beta in Hb. rewrite Hch in Hb. discriminate.
    - subst h. congruence.
    - apply in_split in Hh as (a1 & a2 & ->).
      assert (Hf : id_eq (key r) vb = false).
      { apply (Hfirst (b ++ r :: a1) h a2).
        - rewrite Hrows, <- app_assoc. reflexivity.
        - exact Hhs.
        - apply in_or_app. right. left. reflexivity. }
      congruence. }
  split; [exact Hsid|].
  destruct (Ht b r a Hrows Hsid) as [HP | (k & Hk & Hid)]; [exact HP|].
  exfalso. apply in_map_iff in Hk as (x & <- & Hx).
  rewrite (Hnot x Hx) in Hid. discriminate.
Qed.

(** ** Uniqueness of server ids across pull *)

Lemma pull_product_ids clk sp w w' :
  pull_product clk sp w = (Ok tt, w') ->
  incl (map ProductRow.id (rows (products (mem w))))
       (map ProductRow.id (rows (products (mem w')))).
Proof.
  intros H.
  apply pull_product_ok_inv in H
    as (vs & vb & n & c & sl & q & l & cr & t & _ & _ & _ & _ & _ & _ & _ & _ & _ & Hup).
  unfold incl. intros k Hk.
  apply in_map_iff in Hk as (r & <- & Hr).
  destruct (upserted_rows _ _ _ _ _ _ _ _ Hup) as [(r0 & tl & _ & -> & _) | (_ & -> & _)].
  - rewrite map_map. apply in_map_iff. exists r. split; [|exact Hr].
    destruct (ProductRow.id r =? ProductRow.id r0); reflexivity.
  - rewrite map_app. apply in_or_app. left. apply in_map. exact Hr.
Qed.

Lemma server_id_text_bound _id id vs :
  bindValue (js_or _id id) = Ok vs -> server_id_text _id id = as_text vs.
Proof. unfold server_id_text. intros ->. reflexivity. Qed.

(** A record that finds its holder first keeps the server ids unique, and
    the records after it still find theirs first. *)
Lemma pull_product_keeps_unique clk sp ps w w' :
  pull_product clk sp w = (Ok tt, w') ->
  distinct_ids ProductRow.id (products (mem w)) ->
  unique_product_serverIds (mem w) ->
  ~ In (product_sid sp) (map product_sid ps) ->
  product_holders_first (sp :: ps) (mem w) ->
  distinct_ids ProductRow.id (products (mem w'))
  /\ unique_product_serverIds (mem w')
  /\ product_holders_first ps (mem w').
Proof.
  intros H Hd Hu Hnew Hf.
  apply pull_product_ok_inv in H
    as (vs & vb & n & c & sl & q & l & cr & t & Hvs & Hvb & _ & _ & _ & _ & _ & _ & _ & Hup).
  pose proof (server_id_text_bound _ _ _ Hvs) as Hst. fold (product_sid sp) in Hst.
  split; [|split].
  - let F := upsert_fact (@upserted_distinct) Hd Hup in exact F.
  - let F := upsert_fact (@upserted_unique) Hd Hup in apply (F Hu).
    intros before r after Hsplit Hn Hs x Hx.
    apply (Hf sp (or_introl eq_refl) before r after Hsplit); try congruence.
    apply in_map. exact Hx.
  - intros p Hp before r after Hsplit Hn Hs.
    assert (Hne : ProductRow.serverId r <> as_text vs).
    { rewrite Hs, <- Hst. intros E. apply Hnew. rewrite <- E. apply in_map. exact Hp. }
    let F := upsert_fact (@upserted_split) Hd Hup in
    destruct (F before r after Hsplit Hne) as (before0 & after0 & Hsplit0 & Hkeys & _).
    rewrite <- Hkeys.
    exact (Hf p (or_intror Hp) before0 r after0 Hsplit0 Hn Hs).
Qed.

Lemma pull_product_loop_keeps_unique clk ps :
  forall w w',
    for_of ps (pull_product clk) w = (Ok tt, w') ->
    distinct_ids ProductRow.id (products (mem w)) ->
    unique_product_serverIds (mem w) ->
    NoDup (map product_sid ps) ->
    product_holders_first ps (mem w) ->
    distinct_ids ProductRow.id (products (mem w'))
    /\ unique_product_serverIds (mem w').
Proof.
  induction ps as [|p ps IH]; intros w w' Hrun Hd Hu Hnd Hf.
  - simpl in Hrun. inversion Hrun; subst. split; assumption.
  - simpl in Hrun. apply bind_ok_inv in Hrun as ([] & w1 & Hp & Hrest).
    simpl in Hnd. inversion Hnd as [|? ? Hnew Hnd']; subst.
    destruct (pull_product_keeps_unique _ _ _ _ _ Hp Hd Hu Hnew Hf) as (Hd1 & Hu1 & Hf1).
    exact (IH w1 w' Hrest Hd1 Hu1 Hnd' Hf1).
Qed.

Lemma pullFromServer_ok_inv clk snap w d w' :
  pullFromServer clk (Ok snap) w = (Ok d, w') ->
  d = snap
  /\ exists w1, pull_transaction clk snap w = (Ok tt, w1) /\ w' = saveDb w1.
Proof.
  unfold pullFromServer, try_catch, bind, lift, withTransactionAsync, ret, throw.
  destruct (pull_transaction clk snap w) as [[[]|e] w1]; intros H; [|discriminate].
  inversion H; subst. split; [reflexivity|]. exists w1. split; reflexivity.
Qed.

Lemma pull_transaction_keeps_unique clk snap w w' :
  pull_transaction clk snap w = (Ok tt, w') ->
  distinct_ids ProductRow.id (products (mem w)) ->
  unique_product_serverIds (mem w) ->
  NoDup (map product_sid (snap_products snap)) ->
  product_holders_first (snap_products snap) (mem w) ->
  distinct_ids ProductRow.id (products (mem w'))
  /\ unique_product_serverIds (mem w').
Proof.
  unfold pull_transaction. intros H Hd Hu Hnd Hf.
  apply bind_ok_inv in H as ([] & w1 & Hp & Hv).
  apply pull_invoice_loop_products in Hv.
  unfold unique_product_serverIds in *. rewrite Hv.
  exact (pull_product_loop_keeps_unique clk _ _ _ Hp Hd Hu Hnd Hf).
Qed.

(** ** Uniqueness of server ids across push *)

(** After the product loop of the write-back every row has kept its id, and
    its server id is the old one or that of a record that names the row. *)
Lemma stamp_products_loop_sids clk qs :
  forall w w',
    for_of qs (stamp_pushed_product clk) w = (Ok tt, w') ->
    Forall2
      (fun r r' =>
         ProductRow.id r' = ProductRow.id r
         /\ (ProductRow.serverId r' = ProductRow.serverId r
             \/ exists q, In q qs /\ names_product [q] (ProductRow.id r)
                          /\ ProductRow.serverId r' = product_sid q))
      (rows (products (mem w))) (rows (products (mem w'))).
Proof.
  induction qs as [|q qs IH]; intros w w' Hrun.
  - simpl in Hrun. inversion Hrun; subst w'.
    apply Forall2_refl_on. intros r. split; [reflexivity | left; reflexivity].
  - simpl in Hrun. apply bind_ok_inv in Hrun as ([] & w1 & Hq & Hrest).
    apply stamp_pushed_product_inv in Hq as (vs & vk & Hs & Hk & _ & Hmem).
    specialize (IH w1 w' Hrest). rewrite Hmem in IH. simpl in IH.
    apply Forall2_map_l_inv in IH.
    revert IH. apply Forall2_impl_on. intros r r' [Hid Hsid].
    destruct (id_eq (ProductRow.id r) vk) eqn:E.
    + simpl in Hid, Hsid. split; [exact Hid|]. right.
      destruct Hsid as [Hsame | (q' & Hq' & Hn & Hs')].
      * exists q. split; [left; reflexivity|]. split.
        -- exists q, vk. split; [left; reflexivity | split; assumption].
        -- rewrite Hsame. unfold product_sid.
           symmetry. apply server_id_text_bound. exact Hs.
      * exists q'. split; [right; exact Hq'|]. split; assumption.
    + split; [exact Hid|].
      destruct Hsid as [Hsame | (q' & Hq' & Hn & Hs')]; [left; exact Hsame|].
      right. exists q'. split; [right; exact Hq'|]. split; assumption.
Qed.

Lemma Forall2_same_keys {A} (key : A -> Z) (P : A -> A -> Prop) (l l' : list A) :
  (forall x y, P x y -> key y = key x) ->
  Forall2 P l l' -> map key l' = map key l.
Proof.
  intros Hk F. induction F as [|x y l l' Hxy F IH]; simpl; [reflexivity|].
  rewrite (Hk x y Hxy), IH. reflexivity.
Qed.

Lemma NoDup_map_injective_on {A B} (f : A -> B) (l : list A) (a b : A) :
  NoDup (map f l) -> In a l -> In b l -> f a = f b -> a = b.
Proof.
  induction l as [|x l IH]; intros Hnd Ha Hb He; [destruct Ha|].
  simpl in Hnd. inversion Hnd as [|? ? Hnotin Hnd']; subst.
  destruct Ha as [<- | Ha], Hb as [<- | Hb].
  - reflexivity.
  - exfalso. apply Hnotin. rewrite He. apply in_map. exact Hb.
  - exfalso. apply Hnotin. rewrite <- He. apply in_map. exact Ha.
  - apply IH; assumption.
Qed.

Lemma names_one_same_id q k k' :
  names_product [q] k -> names_product [q] k' -> k = k'.
Proof.
  intros (q1 & v1 & [<- | []] & Hb1 & He1) (q2 & v2 & [<- | []] & Hb2 & He2).
  rewrite Hb1 in Hb2. inversion Hb2; subst v2.
  exact (id_eq_same _ _ _ He1 He2).
Qed.

Lemma push_transaction_keeps_unique clk result w w' :
  push_transaction clk result w = (Ok tt, w') ->
  distinct_ids ProductRow.id (products (mem w)) ->
  unique_product_serverIds (mem w) ->
  NoDup (map product_sid (snap_products result)) ->
  answers_own_rows result (mem w) ->
  distinct_ids ProductRow.id (products (mem w'))
  /\ unique_product_serverIds (mem w').
Proof.
  unfold push_transaction. intros H Hd Hu Hnd Hown.
  apply bind_ok_inv in H as ([] & w1 & Hp & Hv).
  apply (stamp_invoices_loop clk 0) in Hv as (_ & Hprod & _); [|lia].
  unfold unique_product_serverIds, distinct_ids. rewrite Hprod.
  apply stamp_products_loop_sids in Hp.
  assert (Hkeys : map ProductRow.id (rows (products (mem w1)))
                  = map ProductRow.id (rows (products (mem w)))).
  { revert Hp. apply Forall2_same_keys. intros x y [Hid _]. exact Hid. }
  assert (Hd1 : NoDup (map ProductRow.id (rows (products (mem w1)))))
    by (rewrite Hkeys; exact Hd).
  split; [exact Hd1|].
  apply (unique_serverIds_of_pairs ProductRow.id); [exact Hd1|].
  intros r1' r2' H1' H2' He Hn.
  destruct (Forall2_In_r _ _ _ _ Hp H1') as (r1 & H1 & Hid1 & Hs1).
  destruct (Forall2_In_r _ _ _ _ Hp H2') as (r2 & H2 & Hid2 & Hs2).
  rewrite Hid1, Hid2.
  destruct Hs1 as [Hs1 | (q1 & Hq1 & Hn1 & Hs1)],
           Hs2 as [Hs2 | (q2 & Hq2 & Hn2 & Hs2)].
  - f_equal.
    apply (unique_serverIds_pairs ProductRow.serverId _ Hu r1 r2 H1 H2); congruence.
  - apply (names_one_same_id q2); [|exact Hn2].
    apply (Hown q2 r1 Hq2 H1); congruence.
  - symmetry. apply (names_one_same_id q1); [|exact Hn1].
    apply (Hown q1 r2 Hq1 H2); congruence.
  - assert (q1 = q2).
    { apply (NoDup_map_injective_on product_sid (snap_products result));
        try assumption. congruence. }
    subst q2. exact (names_one_same_id q1 _ _ Hn1 Hn2).
Qed.

(** C3 (as amended). Uniqueness of server ids among the product rows is
    kept by a successful pull and by a successful push whose records carry
    pairwise distinct server ids, provided no record takes a row from the
    holder of a server id: in a pull, a record whose server id a local row
    holds names by its [id] no row that comes before that row (it may
    name that row itself, a row behind it, or none, and a record whose
    server id no row holds may name any row); in a push, a server id of
    the response that a local row already holds is held by the row the
    record names. *)
Theorem serverId_uniqueness_preserved clk op w w' :
  distinct_ids ProductRow.id (products (mem w)) ->
  unique_product_serverIds (mem w) ->
  run_op clk op w = (Ok tt, w') ->
  keeps_identities clk op w ->
  unique_product_serverIds (mem w').
Proof.
  intros Hd Hu Hrun Hkeep. destruct op as [snapshot | deviceId server]; simpl in *.
  - apply bind_ok_inv in Hrun as (d & w1 & Hpull & Hret).
    inversion Hret; subst w1. clear Hret.
    apply pullFromServer_ok_inv in Hpull as (_ & w1 & Htx & ->).
    destruct Hkeep as [Hnd Hfirst].
    exact (proj2 (pull_transaction_keeps_unique _ _ _ _ Htx Hd Hu Hnd Hfirst)).
  - apply pushToServer_ok_inv in Hrun as (body & result & w2 & Hb & Hs & Htx & ->).
    destruct (Hkeep body result) as [Hnd Hown];
      [rewrite Hb; reflexivity | exact Hs |].
    exact (proj2 (push_transaction_keeps_unique _ _ _ _ Htx Hd Hu Hnd Hown)).
Qed.

Lemma unique_two (a b : option string) :
  (a = b -> a = None) -> unique_serverIds [a; b].
Proof.
  intros H sid. simpl.
  destruct (carries sid a) eqn:Ea, (carries sid b) eqn:Eb; simpl; try lia.
  apply carries_true in Ea, Eb. subst. specialize (H eq_refl). discriminate.
Qed.

(** The invariant is not kept for every response, nor for every snapshot.
    A server that answers a new product with the id abc, which row 2
    already holds, leaves two rows with abc after push; and the snapshot
    record {_id: abc, id: 1} lands on row 1 while row 2 holds abc. *)
Lemma serverId_uniqueness_broken :
  (unique_product_serverIds (mem (fresh_world store_beans_fresh_oil))
   /\ (exists body result,
         fst (push_payload ticking "device_1" (fresh_world store_beans_fresh_oil))
         = Ok body
         /\ merging body = Ok result
         /\ NoDup (map product_sid (snap_products result)))
   /\ fst (pushToServer ticking "device_1" merging
             (fresh_world store_beans_fresh_oil)) = Ok tt
   /\ ~ unique_product_serverIds
          (mem (snd (pushToServer ticking "device_1" merging
                       (fresh_world store_beans_fresh_oil)))))
  /\ (unique_product_serverIds (mem (fresh_world store_beans_oil))
      /\ NoDup (map product_sid [oil_new])
      /\ fst (pullFromServer ticking (Ok (mkSnapshot [oil_new] []))
                (fresh_world store_beans_oil))
         = Ok (mkSnapshot [oil_new] [])
      /\ ~ unique_product_serverIds
             (mem (snd (pullFromServer ticking (Ok (mkSnapshot [oil_new] []))
                          (fresh_world store_beans_oil))))).
Proof.
  split; [split; [|split; [|split]] | split; [|split; [|split]]].
  - apply unique_two. discriminate.
  - eexists _, _. split; [reflexivity|]. split; [reflexivity|].
    vm_compute. constructor; [intros [] | constructor].
  - reflexivity.
  - intros H. specialize (H "abc"). vm_compute in H. lia.
  - apply unique_two. discriminate.
  - vm_compute. constructor; [intros [] | constructor].
  - reflexivity.
  - intros H. specialize (H "abc"). vm_compute in H. lia.
Qed.

(** On a table given row by row: the rows before a holder are few. *)
Ltac holder_first_by_rows :=
  let before := fresh "before" in
  let Hsplit := fresh "Hsplit" in
  let Hs := fresh "Hs" in
  let Hb := fresh "Hb" in
  let Hk := fresh "Hk" in
  intros before ? ? Hsplit _ Hs ? ? Hb Hk;
  vm_compute in Hs; vm_compute in Hb; inversion Hb; subst; clear Hb;
  simpl in Hsplit;
  repeat (destruct before as [|? before];
          [ simpl in Hsplit; inversion Hsplit; subst; clear Hsplit;
            try discriminate Hs;
            simpl in Hk; repeat (destruct Hk as [<- | Hk]; [reflexivity|]);
            destruct Hk
          | simpl in Hsplit;
            first [discriminate Hsplit
                  | injection Hsplit as ? Hsplit; subst] ]);
  try (destruct before; discriminate Hsplit).

Lemma serverId_uniqueness_preserved_witness :
  unique_product_serverIds
    (mem (snd (run_op ticking
                 (OpPull (mkSnapshot [beans_on_server; oil_own; salt] []))
                 (fresh_world store_beans_oil))))
  /\ unique_product_serverIds
       (mem (snd (run_op ticking (OpPush "device_1" accepting)
                    (fresh_world store_with_sale)))).
Proof.
  split.
  - apply (serverId_uniqueness_preserved ticking
             (OpPull (mkSnapshot [beans_on_server; oil_own; salt] []))
             (fresh_world store_beans_oil)).
    + vm_compute. constructor; [intros [H | []]; discriminate|].
      constructor; [intros [] | constructor].
    + apply unique_two. discriminate.
    + reflexivity.
    + split.
      * vm_compute. repeat constructor; simpl; intuition discriminate.
      * intros p [<- | [<- | [<- | []]]]; holder_first_by_rows.
  - apply (serverId_uniqueness_preserved ticking (OpPush "device_1" accepting)
             (fresh_world store_with_sale)).
    + vm_compute. constructor; [intros [H | []]; discriminate|].
      constructor; [intros [] | constructor].
    + apply unique_two. discriminate.
    + reflexivity.
    + intros body result Hb Hs. vm_compute in Hb. inversion Hb; subst body. clear Hb.
      vm_compute in Hs. inversion Hs; subst result. clear Hs. split.
      * vm_compute. constructor; [intros [H | []]; discriminate|].
        constructor; [intros [] | constructor].
      * intros q r Hq Hr Hn He. simpl in Hq, Hr.
        destruct Hq as [<- | [<- | []]], Hr as [<- | [<- | []]];
          vm_compute in He; try discriminate; try (exfalso; apply Hn; reflexivity).
        eexists _, (SInt 2). split; [left; reflexivity|]. split; reflexivity.
Defined.

(** ** Pull: what one invoice record does to the store *)

(** The item loop appends, for each item that resolves, one row of the
    local invoice. *)
Lemma pull_item_loop_rows k its :
  forall w w',
    for_of its (pull_item k) w = (Ok tt, w') ->
    items_go_through (mem w) its
    /\ exists new,
      rows (invoice_items (mem w')) = rows (invoice_items (mem w)) ++ new
      /\ map item_data new = resolvable_items (mem w) k its.
Proof.
  induction its as [|it its IH]; intros w w' Hrun.
  - simpl in Hrun. inversion Hrun; subst. split; [constructor|].
    exists []. split; [symmetry; apply app_nil_r | reflexivity].
  - simpl in Hrun. apply bind_ok_inv in Hrun as ([] & w1 & Hit & Hrest).
    destruct (IH w1 w' Hrest) as (Hgo & new & Hrows & Hdata).
    pose proof (pull_item_products _ _ _ _ Hit) as [Hprod _].
    assert (Hres : resolvable_items (mem w1) k its = resolvable_items (mem w) k its).
    { unfold resolvable_items, resolved_product, Sql.product_ids_by_serverId_or_id,
        Sql.products_by_serverId_or_id. rewrite Hprod. reflexivity. }
    assert (Hgo' : items_go_through (mem w) its).
    { revert Hgo. unfold items_go_through, Sql.product_ids_by_serverId_or_id,
        Sql.products_by_serverId_or_id. rewrite Hprod. exact (fun H => H). }
    rewrite Hres in Hdata. clear Hres IH Hrest Hgo.
    unfold pull_item in Hit.
    apply bind_ok_inv in Hit as (found & w2 & Hq & Hit).
    rewrite querySql_run in Hq. inversion Hq as [[Hfound Hw2]]. subst w2. clear Hq.
    simpl resolvable_items. unfold resolved_product at 1. rewrite Hfound.
    destruct found as [|pid tl].
    + inversion Hit; subst w1. split.
      * constructor; [|exact Hgo']. exists []. split; [exact Hfound | congruence].
      * exists new. split; [exact Hrows | exact Hdata].
    + apply runAsync_ok_inv in Hit as (s' & Hs & ->).
      unfold Sql.insert_item, result_bind, not_null, bindField in Hs.
      destruct (ServerItem.quantity it) as [| |q] eqn:Hq,
               (ServerItem.price it) as [| |p] eqn:Hp; try discriminate Hs.
      inversion Hs; subst s'. clear Hs. simpl in Hrows. split.
      * constructor; [|exact Hgo']. exists (pid :: tl). split; [exact Hfound|].
        intros _. rewrite Hq, Hp. split; eexists; reflexivity.
      * eexists (_ :: new). split.
        -- rewrite Hrows, <- app_assoc. reflexivity.
        -- simpl. rewrite Hdata. reflexivity.
Qed.

Lemma resolvable_items_invoice s k its x :
  In x (resolvable_items s k its) -> fst (fst (fst x)) = k.
Proof.
  unfold resolvable_items. intros H. apply in_flat_map in H as (it & _ & H).
  destruct (resolved_product s it), (ServerItem.quantity it), (ServerItem.price it);
    simpl in H; try destruct H as [<- | []]; try contradiction; reflexivity.
Qed.

(** The items block leaves the store alone, or replaces the item rows of
    one local invoice by the items that resolve. The local invoice is the
    first row the lookup of the upsert returned or, when that was empty,
    the first row now filed under the server id. *)
Lemma pull_items_ok_inv si existing sid w w' :
  pull_items si existing sid w = (Ok tt, w') ->
  products (mem w') = products (mem w)
  /\ invoices (mem w') = invoices (mem w)
  /\ (ServerInvoice.items si = None ->
      invoice_items (mem w') = invoice_items (mem w))
  /\ (forall its, ServerInvoice.items si = Some its ->
      exists L,
        match existing with
        | e0 :: _ => L = Some (InvoiceRow.id e0)
        | [] => exists ids, Sql.invoice_ids_by_serverId sid (mem w) = Ok ids
                            /\ L = hd_error ids
        end
        /\ match L with
           | Some k =>
               if k =? 0 then invoice_items (mem w') = invoice_items (mem w)
               else items_go_through (mem w) its
                    /\ exists new,
                   rows (invoice_items (mem w'))
                   = filter (fun r => negb (InvoiceItemRow.invoiceId r =? k))
                       (rows (invoice_items (mem w))) ++ new
                   /\ map item_data new = resolvable_items (mem w) k its
           | None => invoice_items (mem w') = invoice_items (mem w)
           end).
Proof.
  intros H. pose proof (pull_items_products _ _ _ _ _ H) as [Hp Hi].
  split; [exact Hp|]. split; [exact Hi|].
  unfold pull_items in H. destruct (ServerInvoice.items si) as [items|];
    [|split; [intros _; inversion H; subst; reflexivity | intros its [=]]].
  split; [intros [=]|]. intros its [= <-].
  apply bind_ok_inv in H as (L & w1 & HL & H).
  assert (HL' : w1 = w /\ match existing with
                          | e0 :: _ => L = Some (InvoiceRow.id e0)
                          | [] => exists ids, Sql.invoice_ids_by_serverId sid (mem w) = Ok ids
                                              /\ L = hd_error ids
                          end).
  { destruct existing as [|e0 tl].
    - apply bind_ok_inv in HL as (ids & w2 & Hq & HL).
      rewrite querySql_run in Hq. inversion Hq as [[Hids Hw2]]. subst w2.
      inversion HL; subst. split; [reflexivity|]. exists ids.
      split; [exact Hids | reflexivity].
    - inversion HL; subst. split; reflexivity. }
  destruct HL' as [-> HL']. clear HL. exists L. split; [exact HL'|].
  destruct L as [k|]; [|inversion H; subst; reflexivity].
  destruct (k =? 0) eqn:Ek; [inversion H; subst; reflexivity|].
  apply bind_ok_inv in H as ([] & w2 & Hd & H).
  apply runAsync_ok_inv in Hd as (s' & Hs & ->).
  unfold Sql.delete_items in Hs. inversion Hs; subst s'. clear Hs.
  apply pull_item_loop_rows in H as (Hgo & new & Hrows & Hdata).
  split; [exact Hgo|].
  exists new. split; [exact Hrows|].
  rewrite Hdata. unfold resolvable_items, resolved_product,
    Sql.product_ids_by_serverId_or_id, Sql.products_by_serverId_or_id.
  reflexivity.
Qed.

Lemma update_invoice_ok_inv si t sid k s s' :
  Sql.update_invoice si t sid k s = Ok s' ->
  exists a n c vs,
    ServerInvoice.totalAmount si = Val a
    /\ ServerInvoice.totalItems si = Val n
    /\ ServerInvoice.createdAt si = Val c
    /\ bindValue sid = Ok vs
    /\ s' = mkStore (products s)
              (update_where (fun r => InvoiceRow.id r =? k)
                 (fun r => InvoiceRow.mk (InvoiceRow.id r) a n c (Some t) (as_text vs))
                 (invoices s))
              (invoice_items s).
Proof.
  unfold Sql.update_invoice, result_bind, not_null, bindField.
  destruct (ServerInvoice.totalAmount si) as [| |a], (ServerInvoice.totalItems si) as [| |n],
    (ServerInvoice.createdAt si) as [| |c], (bindValue sid) as [vs|]; try discriminate.
  intros H; inversion H. exists a, n, c, vs. repeat split.
Qed.

Lemma insert_invoice_ok_inv si cr t sid s s' :
  Sql.insert_invoice si cr t sid s = Ok s' ->
  exists a n vs,
    ServerInvoice.totalAmount si = Val a
    /\ ServerInvoice.totalItems si = Val n
    /\ bindValue sid = Ok vs
    /\ s' = mkStore (products s)
              (insert_row InvoiceRow.id
                 (fun k => InvoiceRow.mk k a n cr (Some t) (as_text vs))
                 (invoices s))
              (invoice_items s).
Proof.
  unfold Sql.insert_invoice, result_bind, not_null, bindField.
  destruct (ServerInvoice.totalAmount si) as [| |a], (ServerInvoice.totalItems si) as [| |n],
    (bindValue sid) as [vs|]; try discriminate.
  intros H; inversion H. exists a, n, vs. repeat split.
Qed.

(** An invoice record is applied by an upsert of the invoices table,
    followed by the items block run on the rows the lookup returned. *)
Lemma pull_invoice_ok_inv clk si w w' :
  pull_invoice clk si w = (Ok tt, w') ->
  exists vs vb a n c cr t w1,
    bindValue (js_or (ServerInvoice._id si) (ServerInvoice.id si)) = Ok vs
    /\ bindValue (ServerInvoice.id si) = Ok vb
    /\ ServerInvoice.totalAmount si = Val a
    /\ ServerInvoice.totalItems si = Val n
    /\ products (mem w1) = products (mem w)
    /\ invoice_items (mem w1) = invoice_items (mem w)
    /\ upserted InvoiceRow.id InvoiceRow.serverId vs vb
         (fun r => InvoiceRow.mk (InvoiceRow.id r) a n c
                     (Some (toISOString (clk (ticks w)))) (as_text vs))
         (fun k => InvoiceRow.mk k a n cr (Some t) (as_text vs))
         (invoices (mem w)) (invoices (mem w1))
    /\ (lookup_rows InvoiceRow.id InvoiceRow.serverId vs vb (invoices (mem w)) <> [] ->
        ServerInvoice.createdAt si = Val c)
    /\ (lookup_rows InvoiceRow.id InvoiceRow.serverId vs vb (invoices (mem w)) = [] ->
        str_truthy (present (ServerInvoice.createdAt si)) = true ->
        ServerInvoice.createdAt si = Val cr)
    /\ pull_items si
         (lookup_rows InvoiceRow.id InvoiceRow.serverId vs vb (invoices (mem w)))
         (js_or (ServerInvoice._id si) (ServerInvoice.id si)) w1
       = (Ok tt, w').
Proof.
  unfold pull_invoice. intros H.
  apply bind_ok_inv in H as (existing & w0 & Hq & H).
  rewrite querySql_run in Hq. inversion Hq as [[Hex Hw0]]. subst w0. clear Hq.
  unfold Sql.invoices_by_serverId_or_id, result_bind in Hex.
  destruct (bindValue (js_or (ServerInvoice._id si) (ServerInvoice.id si))) as [vs|] eqn:Hvs;
    [|discriminate].
  destruct (bindValue (ServerInvoice.id si)) as [vb|] eqn:Hvb; [|discriminate].
  inversion Hex as [Hsel]. clear Hex.
  apply bind_ok_inv in H as ([] & w1 & Hup & Hit).
  destruct existing as [|r0 tl].
  - apply bind_ok_inv in Hup as (cr & w3 & Hc & Hup).
    destruct (or_now_run clk (ServerInvoice.createdAt si) w) as (cr' & w3' & Hc' & Hm & _).
    rewrite Hc' in Hc. inversion Hc; subst cr' w3'. clear Hc.
    apply bind_ok_inv in Hup as (t & w4 & Ht & Hup).
    rewrite now_iso_run in Ht. inversion Ht; subst t w4. clear Ht.
    apply runAsync_ok_inv in Hup as (s' & Hs & Hw1). simpl in Hs.
    apply insert_invoice_ok_inv in Hs as (a & n & vs' & Ha & Hn & Hb & ->).
    rewrite Hvs in Hb. inversion Hb; subst vs'.
    exists vs, vb, a, n, cr, cr, (toISOString (clk (ticks w3))), w1.
    unfold lookup_rows. rewrite Hsel.
    repeat (split; [first [assumption | reflexivity]|]).
    pose proof (f_equal mem Hw1) as Hmem1. simpl in Hmem1. clear Hw1.
    rewrite Hmem1. simpl. rewrite Hm.
    repeat (split; [reflexivity|]).
    split; [apply upserted_insert; [exact Hsel | reflexivity]|].
    split; [intros Hne; congruence|].
    split; [intros _ Htr; exact (or_now_truthy _ _ _ _ _ Htr Hc') | exact Hit].
  - apply bind_ok_inv in Hup as (t & w4 & Ht & Hup).
    rewrite now_iso_run in Ht. inversion Ht; subst t w4. clear Ht.
    apply runAsync_ok_inv in Hup as (s' & Hs & Hw1). simpl in Hs.
    apply update_invoice_ok_inv in Hs as (a & n & c & vs' & Ha & Hn & Hc & Hb & ->).
    rewrite Hvs in Hb. inversion Hb; subst vs'.
    exists vs, vb, a, n, c, EmptyString, EmptyString, w1.
    unfold lookup_rows. rewrite Hsel.
    repeat (split; [first [assumption | reflexivity]|]).
    pose proof (f_equal mem Hw1) as Hmem1. simpl in Hmem1. clear Hw1.
    rewrite Hmem1. simpl.
    repeat (split; [reflexivity|]).
    split; [apply (upserted_update _ _ _ _ _ _ _ _ r0 tl); [exact Hsel | reflexivity]|].
    split; [intros _; exact Hc|].
    split; [intros [=] | exact Hit].
Qed.

(** ** Pull: what every record of a snapshot leaves behind *)

Lemma single_holder_of_unique {R} (sidc : R -> option string) (l : list R)
    (sid : option string) :
  unique_serverIds (map sidc l) -> sid <> None -> single_holder sidc sid l.
Proof.
  intros Hu Hn r r' Hr Hr' E E'.
  apply (unique_serverIds_pairs sidc l Hu r r' Hr Hr'); congruence.
Qed.

Lemma server_id_text_some _id id :
  server_id_text _id id <> None -> exists vs, bindValue (js_or _id id) = Ok vs.
Proof.
  unfold server_id_text. destruct (bindValue (js_or _id id)) as [vs|].
  - intros _. exists vs. reflexivity.
  - intros H. congruence.
Qed.

(** The holders of a product record's server id after the record has been
    applied. *)
Lemma pull_product_traced clk sp w w' :
  pull_product clk sp w = (Ok tt, w') ->
  distinct_ids ProductRow.id (products (mem w)) ->
  product_sid sp <> None ->
  single_holder ProductRow.serverId (product_sid sp) (rows (products (mem w))) ->
  exists vb,
    bindValue (ServerProduct.id sp) = Ok vb
    /\ traced ProductRow.id ProductRow.serverId (product_sid sp) vb
         (product_carries sp) (rows (products (mem w'))).
Proof.
  intros H Hd Hsid Hsingle.
  apply pull_product_ok_inv in H
    as (vs & vb & n & c & sl & q & l & cr & t & Hvs & Hvb & Hn & Hc & Hsl & Hq & Hl
        & _ & _ & Hup).
  pose proof (server_id_text_bound _ _ _ Hvs) as Hst. fold (product_sid sp) in Hst.
  exists vb. split; [exact Hvb|]. rewrite Hst in *.
  let F := upsert_fact (@upserted_traced) Hd Hup in
  apply (F (product_carries sp) Hsid Hsingle).
  - intros r0 tl _. repeat split; assumption.
  - intros _. repeat split; assumption.
Qed.

(** What a product record does to the holders of another server id. *)
Lemma pull_product_keeps_traced clk sp w w' sid vb0 (P : ProductRow.t -> Prop) :
  pull_product clk sp w = (Ok tt, w') ->
  distinct_ids ProductRow.id (products (mem w)) ->
  sid <> product_sid sp ->
  distinct_ids ProductRow.id (products (mem w'))
  /\ (single_holder ProductRow.serverId sid (rows (products (mem w))) ->
      single_holder ProductRow.serverId sid (rows (products (mem w'))))
  /\ (traced ProductRow.id ProductRow.serverId sid vb0 P (rows (products (mem w))) ->
      traced ProductRow.id ProductRow.serverId sid vb0 P (rows (products (mem w')))).
Proof.
  intros H Hd Hne.
  apply pull_product_ok_inv in H
    as (vs & vb & n & c & sl & q & l & cr & t & Hvs & _ & _ & _ & _ & _ & _ & _ & _ & Hup).
  pose proof (server_id_text_bound _ _ _ Hvs) as Hst. fold (product_sid sp) in Hst.
  rewrite Hst in Hne.
  split; [|split].
  - let F := upsert_fact (@upserted_distinct) Hd Hup in exact F.
  - let F := upsert_fact (@upserted_single_other) Hd Hup in exact (F sid Hne).
  - let F := upsert_fact (@upserted_traced_other) Hd Hup in
    apply (F sid vb0 P P Hne). intros r _ _ HP. exact HP.
Qed.

Lemma pull_product_loop_keeps_traced clk ps sid vb0 (P : ProductRow.t -> Prop) :
  forall w w',
    for_of ps (pull_product clk) w = (Ok tt, w') ->
    distinct_ids ProductRow.id (products (mem w)) ->
    ~ In sid (map product_sid ps) ->
    traced ProductRow.id ProductRow.serverId sid vb0 P (rows (products (mem w))) ->
    traced ProductRow.id ProductRow.serverId sid vb0 P (rows (products (mem w'))).
Proof.
  induction ps as [|p ps IH]; intros w w' Hrun Hd Hnot Ht.
  - simpl in Hrun. inversion Hrun; subst. exact Ht.
  - simpl in Hrun. apply bind_ok_inv in Hrun as ([] & w1 & Hp & Hrest).
    destruct (pull_product_keeps_traced clk p w w1 sid vb0 P Hp Hd) as (Hd1 & _ & Ht1).
    { intros E. apply Hnot. left. symmetry. exact E. }
    apply (IH w1 w' Hrest Hd1); [|exact (Ht1 Ht)].
    intros Hin. apply Hnot. right. exact Hin.
Qed.

(** After the product loop, every holder of a record's server id carries
    the record's values, or stands behind a row the record names. *)
Lemma pull_product_loop_traced clk ps :
  forall w w',
    for_of ps (pull_product clk) w = (Ok tt, w') ->
    distinct_ids ProductRow.id (products (mem w)) ->
    NoDup (map product_sid ps) ->
    (forall p, In p ps -> product_sid p <> None) ->
    (forall p, In p ps ->
       single_holder ProductRow.serverId (product_sid p) (rows (products (mem w)))) ->
    distinct_ids ProductRow.id (products (mem w'))
    /\ forall p, In p ps ->
         exists vb,
           bindValue (ServerProduct.id p) = Ok vb
           /\ traced ProductRow.id ProductRow.serverId (product_sid p) vb
                (product_carries p) (rows (products (mem w'))).
Proof.
  induction ps as [|p ps IH]; intros w w' Hrun Hd Hnd Hsome Hsingle.
  - simpl in Hrun. inversion Hrun; subst. split; [exact Hd | intros p []].
  - simpl in Hrun. apply bind_ok_inv in Hrun as ([] & w1 & Hp & Hrest).
    simpl in Hnd. inversion Hnd as [|? ? Hnew Hnd']; subst.
    destruct (pull_product_traced clk p w w1 Hp Hd (Hsome p (or_introl eq_refl))
                (Hsingle p (or_introl eq_refl))) as (vb & Hvb & Ht).
    assert (Hd1 : distinct_ids ProductRow.id (products (mem w1))).
    { apply pull_product_ok_inv in Hp
        as (? & ? & ? & ? & ? & ? & ? & ? & ? & _ & _ & _ & _ & _ & _ & _ & _ & _ & Hup).
      let F := upsert_fact (@upserted_distinct) Hd Hup in exact F. }
    destruct (IH w1 w' Hrest Hd1 Hnd') as (Hd' & Hrest').
    { intros q Hq. apply Hsome. right. exact Hq. }
    { intros q Hq.
      destruct (pull_product_keeps_traced clk p w w1 (product_sid q) vb
                  (fun _ => True) Hp Hd) as (_ & Hs & _).
      - intros E. apply Hnew. rewrite <- E. apply in_map. exact Hq.
      - apply Hs. apply Hsingle. right. exact Hq. }
    split; [exact Hd'|].
    intros q [<- | Hq]; [|exact (Hrest' q Hq)].
    exists vb. split; [exact Hvb|].
    exact (pull_product_loop_keeps_traced clk ps _ vb _ w1 w' Hrest Hd1 Hnew Ht).
Qed.

(** ** Pull: the items of one invoice *)

Lemma items_replaced_same k (new l : list InvoiceItemRow.t) :
  Forall (fun x => InvoiceItemRow.invoiceId x = k) new ->
  filter (fun r => InvoiceItemRow.invoiceId r =? k)
    (filter (fun r => negb (InvoiceItemRow.invoiceId r =? k)) l ++ new)
  = new.
Proof.
  intros Hnew. rewrite filter_app.
  assert (H1 : filter (fun r => InvoiceItemRow.invoiceId r =? k)
                 (filter (fun r => negb (InvoiceItemRow.invoiceId r =? k)) l) = []).
  { induction l as [|x l IH]; simpl; [reflexivity|].
    destruct (InvoiceItemRow.invoiceId x =? k) eqn:E; simpl; [exact IH|].
    rewrite E. exact IH. }
  rewrite H1. simpl.
  induction Hnew as [|x new Hx Hnew IH]; simpl; [reflexivity|].
  rewrite Hx, Z.eqb_refl, IH. reflexivity.
Qed.

Lemma items_replaced_other k k' (new l : list InvoiceItemRow.t) :
  k' <> k ->
  Forall (fun x => InvoiceItemRow.invoiceId x = k) new ->
  filter (fun r => InvoiceItemRow.invoiceId r =? k')
    (filter (fun r => negb (InvoiceItemRow.invoiceId r =? k)) l ++ new)
  = filter (fun r => InvoiceItemRow.invoiceId r =? k') l.
Proof.
  intros Hne Hnew. rewrite filter_app.
  assert (H2 : filter (fun r => InvoiceItemRow.invoiceId r =? k') new = []).
  { induction Hnew as [|x new Hx Hnew IH]; simpl; [reflexivity|].
    rewrite Hx. destruct (k =? k') eqn:E; [apply Z.eqb_eq in E; congruence | exact IH]. }
  rewrite H2, app_nil_r.
  induction l as [|x l IH]; simpl; [reflexivity|].
  destruct (InvoiceItemRow.invoiceId x =? k) eqn:E; simpl.
  - apply Z.eqb_eq in E. rewrite E.
    destruct (k =? k') eqn:E'; [apply Z.eqb_eq in E'; congruence | exact IH].
  - destruct (InvoiceItemRow.invoiceId x =? k'); [rewrite IH; reflexivity | exact IH].
Qed.

Lemma new_items_invoice s k its (new : list InvoiceItemRow.t) :
  map item_data new = resolvable_items s k its ->
  Forall (fun x => InvoiceItemRow.invoiceId x = k) new.
Proof.
  intros H. apply Forall_forall. intros x Hx.
  assert (Hin : In (item_data x) (resolvable_items s k its))
    by (rewrite <- H; apply in_map; exact Hx).
  apply resolvable_items_invoice in Hin. exact Hin.
Qed.

Lemma resolvable_items_products s s' k its :
  products s' = products s ->
  resolvable_items s' k its = resolvable_items s k its.
Proof.
  intros Hp. unfold resolvable_items, resolved_product,
    Sql.product_ids_by_serverId_or_id, Sql.products_by_serverId_or_id.
  rewrite Hp. reflexivity.
Qed.

Lemma items_go_through_products s s' its :
  products s' = products s -> items_go_through s its -> items_go_through s' its.
Proof.
  intros Hp. unfold items_go_through, Sql.product_ids_by_serverId_or_id,
    Sql.products_by_serverId_or_id. rewrite Hp. exact (fun H => H).
Qed.

(** A row keeps what it carries while the products and its own items stay. *)
Lemma invoice_carries_frame s s' si r :
  products s' = products s ->
  items_of (InvoiceRow.id r) s' = items_of (InvoiceRow.id r) s ->
  invoice_carries s si r -> invoice_carries s' si r.
Proof.
  intros Hp Hi (Ha & Hn & Hc & Hits).
  split; [exact Ha|]. split; [exact Hn|]. split; [exact Hc|].
  intros its Hsome. destruct (Hits its Hsome) as [Hgo Hdata]. split.
  - exact (items_go_through_products _ _ _ Hp Hgo).
  - rewrite Hi, Hdata. symmetry. apply resolvable_items_products. exact Hp.
Qed.

Lemma filter_nil_all {A} (P : A -> bool) (l : list A) :
  filter P l = [] -> forall x, In x l -> P x = false.
Proof.
  intros H x Hx. destruct (P x) eqn:E; [|reflexivity].
  assert (Hin : In x (filter P l)) by (apply filter_In; split; assumption).
  rewrite H in Hin. destruct Hin.
Qed.

(** One invoice record: an upsert of the invoices table, after which the
    row written carries the record's values and items, and the items of
    every other invoice are as they were. *)
Lemma pull_invoice_effect clk si w w' :
  pull_invoice clk si w = (Ok tt, w') ->
  autoincrement_ids InvoiceRow.id (invoices (mem w)) ->
  invoice_sid si <> None ->
  exists vs vb a n c cr t,
    bindValue (js_or (ServerInvoice._id si) (ServerInvoice.id si)) = Ok vs
    /\ bindValue (ServerInvoice.id si) = Ok vb
    /\ products (mem w') = products (mem w)
    /\ upserted InvoiceRow.id InvoiceRow.serverId vs vb
         (fun r => InvoiceRow.mk (InvoiceRow.id r) a n c
                     (Some (toISOString (clk (ticks w)))) (as_text vs))
         (fun k => InvoiceRow.mk k a n cr (Some t) (as_text vs))
         (invoices (mem w)) (invoices (mem w'))
    /\ (forall r0 tl,
          lookup_rows InvoiceRow.id InvoiceRow.serverId vs vb (invoices (mem w))
          = r0 :: tl ->
          invoice_carries (mem w') si
            (InvoiceRow.mk (InvoiceRow.id r0) a n c
               (Some (toISOString (clk (ticks w)))) (as_text vs)))
    /\ (lookup_rows InvoiceRow.id InvoiceRow.serverId vs vb (invoices (mem w)) = [] ->
        invoice_carries (mem w') si
          (InvoiceRow.mk (next_rowid InvoiceRow.id (invoices (mem w))) a n cr
             (Some t) (as_text vs)))
    /\ (forall r,
          In r (rows (invoices (mem w))) ->
          (forall r0 tl,
             lookup_rows InvoiceRow.id InvoiceRow.serverId vs vb (invoices (mem w))
             = r0 :: tl -> InvoiceRow.id r <> InvoiceRow.id r0) ->
          items_of (InvoiceRow.id r) (mem w') = items_of (InvoiceRow.id r) (mem w)).
Proof.
  intros H Hauto Hsid.
  apply pull_invoice_ok_inv in H
    as (vs & vb & a & n & c & cr & t & w1 & Hvs & Hvb & Ha & Hn & Hprod1 & Hitems1
        & Hup & Hc & Hcr & Hpi).
  pose proof (server_id_text_bound _ _ _ Hvs) as Hst.
  fold (invoice_sid si) in Hst. rewrite Hst in Hsid.
  pose proof Hauto as (Hd & Hpos & Hseq).
  apply pull_items_ok_inv in Hpi as (Hprod & Hinv & Hnone & Hsome).
  rewrite <- Hinv in Hup.
  exists vs, vb, a, n, c, cr, t.
  split; [exact Hvs|]. split; [exact Hvb|]. split; [congruence|]. split; [exact Hup|].
  (* the local invoice the items block works on *)
  set (target := match lookup_rows InvoiceRow.id InvoiceRow.serverId vs vb
                         (invoices (mem w)) with
                 | r0 :: _ => InvoiceRow.id r0
                 | [] => next_rowid InvoiceRow.id (invoices (mem w))
                 end).
  assert (Htarget : 0 < target).
  { unfold target.
    destruct (lookup_rows InvoiceRow.id InvoiceRow.serverId vs vb (invoices (mem w)))
      as [|r0 tl] eqn:Hl.
    - pose proof (next_rowid_above_seq InvoiceRow.id (invoices (mem w))). lia.
    - rewrite Forall_forall in Hpos. apply Hpos.
      assert (Hin : In r0 (lookup_rows InvoiceRow.id InvoiceRow.serverId vs vb
                             (invoices (mem w)))) by (rewrite Hl; left; reflexivity).
      apply filter_In in Hin as [Hin _]. exact Hin. }
  assert (HL : forall its, ServerInvoice.items si = Some its ->
            items_go_through (mem w1) its /\ exists new,
              rows (invoice_items (mem w'))
              = filter (fun r => negb (InvoiceItemRow.invoiceId r =? target))
                  (rows (invoice_items (mem w1))) ++ new
              /\ map item_data new = resolvable_items (mem w1) target its).
  { intros its Hits. destruct (Hsome its Hits) as (L & HLdef & HLres).
    assert (HLeq : L = Some target).
    { unfold target.
      destruct (lookup_rows InvoiceRow.id InvoiceRow.serverId vs vb (invoices (mem w)))
        as [|r0 tl] eqn:Hl.
      - destruct HLdef as (ids & Hids & ->).
        unfold Sql.invoice_ids_by_serverId, result_bind in Hids.
        rewrite Hvs in Hids. unfold select_where in Hids.
        rewrite <- Hinv in Hids.
        destruct (upserted_rows _ _ _ _ _ _ _ _ Hup)
          as [(r0 & tl & Hl' & _) | (_ & Hrows & _)];
          [rewrite Hl in Hl'; discriminate|].
        rewrite Hrows, filter_app in Hids.
        assert (Hold : filter (fun r => serverId_eq (InvoiceRow.serverId r) vs)
                         (rows (invoices (mem w))) = []).
        { destruct (filter (fun r => serverId_eq (InvoiceRow.serverId r) vs)
                      (rows (invoices (mem w)))) as [|x xs] eqn:Hf; [reflexivity|].
          exfalso.
          assert (Hx : In x (filter (fun r => serverId_eq (InvoiceRow.serverId r) vs)
                               (rows (invoices (mem w)))))
            by (rewrite Hf; left; reflexivity).
          apply filter_In in Hx as [Hx Hcx].
          pose proof (filter_nil_all _ _ Hl x Hx) as Hno. cbv beta in Hno.
          rewrite Hcx in Hno. discriminate. }
        rewrite Hold in Hids. simpl in Hids.
        assert (Ht : serverId_eq (as_text vs) vs = true)
          by (apply serverId_eq_true; split; [exact Hsid | reflexivity]).
        rewrite Ht in Hids. inversion Hids. reflexivity.
      - subst L. reflexivity. }
    subst L. destruct (target =? 0) eqn:E; [apply Z.eqb_eq in E; lia|].
    exact HLres. }
  assert (Hown : forall r,
            InvoiceRow.id r = target ->
            ServerInvoice.totalAmount si = Val (InvoiceRow.totalAmount r) ->
            ServerInvoice.totalItems si = Val (InvoiceRow.totalItems r) ->
            (str_truthy (present (ServerInvoice.createdAt si)) = true ->
             ServerInvoice.createdAt si = Val (InvoiceRow.createdAt r)) ->
            invoice_carries (mem w') si r).
  { intros r Hid H1 H2 H3. split; [exact H1|]. split; [exact H2|]. split; [exact H3|].
    intros its Hits. destruct (HL its Hits) as (Hgo & new & Hrows & Hdata). split.
    - exact (items_go_through_products _ _ _ Hprod Hgo).
    - unfold items_of, select_where. rewrite Hrows, Hid.
      rewrite (items_replaced_same _ _ _ (new_items_invoice _ _ _ _ Hdata)).
      rewrite Hdata. symmetry. apply resolvable_items_products. exact Hprod. }
  split; [|split].
  - intros r0 tl Hl. apply Hown; simpl.
    + unfold target. rewrite Hl. reflexivity.
    + exact Ha.
    + exact Hn.
    + intros _. apply Hc. rewrite Hl. discriminate.
  - intros Hl. apply Hown; simpl.
    + unfold target. rewrite Hl. reflexivity.
    + exact Ha.
    + exact Hn.
    + intros Htr. exact (Hcr Hl Htr).
  - intros r Hr Hnot.
    assert (Hne : InvoiceRow.id r <> target).
    { unfold target.
      destruct (lookup_rows InvoiceRow.id InvoiceRow.serverId vs vb (invoices (mem w)))
        as [|r0 tl] eqn:Hl.
      - pose proof (next_rowid_above InvoiceRow.id (invoices (mem w)) r Hr). lia.
      - exact (Hnot r0 tl eq_refl). }
    unfold items_of, select_where.
    destruct (ServerInvoice.items si) as [its|] eqn:Hits.
    + destruct (HL its eq_refl) as (_ & new & Hrows & Hdata).
      rewrite Hrows, Hitems1.
      apply items_replaced_other; [exact Hne|].
      exact (new_items_invoice _ _ _ _ Hdata).
    + rewrite (Hnone eq_refl), Hitems1. reflexivity.
Qed.

(** ** Pull: the invoice loop *)

Lemma pull_invoice_traced clk si w w' :
  pull_invoice clk si w = (Ok tt, w') ->
  autoincrement_ids InvoiceRow.id (invoices (mem w)) ->
  invoice_sid si <> None ->
  single_holder InvoiceRow.serverId (invoice_sid si) (rows (invoices (mem w))) ->
  exists vb,
    bindValue (ServerInvoice.id si) = Ok vb
    /\ traced InvoiceRow.id InvoiceRow.serverId (invoice_sid si) vb
         (invoice_carries (mem w') si) (rows (invoices (mem w'))).
Proof.
  intros H Hauto Hsid Hsingle.
  destruct (pull_invoice_effect clk si w w' H Hauto Hsid)
    as (vs & vb & a & n & c & cr & t & Hvs & Hvb & _ & Hup & Hw & Hf & _).
  pose proof (server_id_text_bound _ _ _ Hvs) as Hst. fold (invoice_sid si) in Hst.
  exists vb. split; [exact Hvb|]. rewrite Hst in *.
  pose proof Hauto as (Hd & _).
  let F := upsert_fact (@upserted_traced) Hd Hup in
  exact (F (invoice_carries (mem w') si) Hsid Hsingle Hw Hf).
Qed.

Lemma pull_invoice_keeps_traced clk si w w' sj sid vb0 :
  pull_invoice clk si w = (Ok tt, w') ->
  autoincrement_ids InvoiceRow.id (invoices (mem w)) ->
  invoice_sid si <> None ->
  sid <> invoice_sid si ->
  autoincrement_ids InvoiceRow.id (invoices (mem w'))
  /\ products (mem w') = products (mem w)
  /\ (single_holder InvoiceRow.serverId sid (rows (invoices (mem w))) ->
      single_holder InvoiceRow.serverId sid (rows (invoices (mem w'))))
  /\ (traced InvoiceRow.id InvoiceRow.serverId sid vb0
        (invoice_carries (mem w) sj) (rows (invoices (mem w))) ->
      traced InvoiceRow.id InvoiceRow.serverId sid vb0
        (invoice_carries (mem w') sj) (rows (invoices (mem w')))).
Proof.
  intros H Hauto Hsid Hne.
  destruct (pull_invoice_effect clk si w w' H Hauto Hsid)
    as (vs & vb & a & n & c & cr & t & Hvs & Hvb & Hprod & Hup & _ & _ & Hframe).
  pose proof (server_id_text_bound _ _ _ Hvs) as Hst. fold (invoice_sid si) in Hst.
  rewrite Hst in Hne.
  pose proof Hauto as (Hd & _).
  split; [|split; [exact Hprod|split]].
  - let F := upsert_fact (@upserted_autoincrement) Hd Hup in exact (F Hauto).
  - let F := upsert_fact (@upserted_single_other) Hd Hup in exact (F sid Hne).
  - let F := upsert_fact (@upserted_traced_other) Hd Hup in
    apply (F sid vb0 (invoice_carries (mem w) sj) (invoice_carries (mem w') sj) Hne).
    intros r Hr Hnot HP.
    exact (invoice_carries_frame _ _ sj r Hprod (Hframe r Hr Hnot) HP).
Qed.

Lemma pull_invoice_loop_keeps_traced clk invs sj sid vb0 :
  forall w w',
    for_of invs (pull_invoice clk) w = (Ok tt, w') ->
    autoincrement_ids InvoiceRow.id (invoices (mem w)) ->
    (forall q, In q invs -> invoice_sid q <> None) ->
    ~ In sid (map invoice_sid invs) ->
    traced InvoiceRow.id InvoiceRow.serverId sid vb0
      (invoice_carries (mem w) sj) (rows (invoices (mem w))) ->
    traced InvoiceRow.id InvoiceRow.serverId sid vb0
      (invoice_carries (mem w') sj) (rows (invoices (mem w'))).
Proof.
  induction invs as [|p ps IH]; intros w w' Hrun Hauto Hsome Hnot Ht.
  - simpl in Hrun. inversion Hrun; subst. exact Ht.
  - simpl in Hrun. apply bind_ok_inv in Hrun as ([] & w1 & Hp & Hrest).
    destruct (pull_invoice_keeps_traced clk p w w1 sj sid vb0 Hp Hauto
                (Hsome p (or_introl eq_refl)))
      as (Hauto1 & _ & _ & Ht1).
    { intros E. apply Hnot. left. symmetry. exact E. }
    apply (IH w1 w' Hrest Hauto1); [| |exact (Ht1 Ht)].
    + intros q Hq. apply Hsome. right. exact Hq.
    + intros Hin. apply Hnot. right. exact Hin.
Qed.

(** After the invoice loop, every holder of a record's server id carries
    the record's values and items, or stands behind a row the record
    names. *)
Lemma pull_invoice_loop_traced clk invs :
  forall w w',
    for_of invs (pull_invoice clk) w = (Ok tt, w') ->
    autoincrement_ids InvoiceRow.id (invoices (mem w)) ->
    NoDup (map invoice_sid invs) ->
    (forall q, In q invs -> invoice_sid q <> None) ->
    (forall q, In q invs ->
       single_holder InvoiceRow.serverId (invoice_sid q) (rows (invoices (mem w)))) ->
    autoincrement_ids InvoiceRow.id (invoices (mem w'))
    /\ forall q, In q invs ->
         exists vb,
           bindValue (ServerInvoice.id q) = Ok vb
           /\ traced InvoiceRow.id InvoiceRow.serverId (invoice_sid q) vb
                (invoice_carries (mem w') q) (rows (invoices (mem w'))).
Proof.
  induction invs as [|p ps IH]; intros w w' Hrun Hauto Hnd Hsome Hsingle.
  - simpl in Hrun. inversion Hrun; subst. split; [exact Hauto | intros q []].
  - simpl in Hrun. apply bind_ok_inv in Hrun as ([] & w1 & Hp & Hrest).
    simpl in Hnd. inversion Hnd as [|? ? Hnew Hnd']; subst.
    pose proof (Hsome p (or_introl eq_refl)) as Hsid.
    destruct (pull_invoice_traced clk p w w1 Hp Hauto Hsid
                (Hsingle p (or_introl eq_refl))) as (vb & Hvb & Ht).
    assert (Hauto1 : autoincrement_ids InvoiceRow.id (invoices (mem w1))).
    { destruct (pull_invoice_effect clk p w w1 Hp Hauto Hsid)
        as (vs & vb' & a & n & c & cr & t & _ & _ & _ & Hup & _).
      pose proof Hauto as (Hd & _).
      let F := upsert_fact (@upserted_autoincrement) Hd Hup in exact (F Hauto). }
    destruct (IH w1 w' Hrest Hauto1 Hnd') as (Hauto' & Hrest').
    { intros q Hq. apply Hsome. right. exact Hq. }
    { intros q Hq.
      destruct (pull_invoice_keeps_traced clk p w w1 q (invoice_sid q) vb Hp Hauto Hsid)
        as (_ & _ & Hs & _).
      - intros E. apply Hnew. rewrite <- E. apply in_map. exact Hq.
      - apply Hs. apply Hsingle. right. exact Hq. }
    split; [exact Hauto'|].
    intros q [<- | Hq]; [|exact (Hrest' q Hq)].
    exists vb. split; [exact Hvb|].
    apply (pull_invoice_loop_keeps_traced clk ps p _ vb w1 w' Hrest Hauto1);
      [|exact Hnew | exact Ht].
    intros q Hq. apply Hsome. right. exact Hq.
Qed.

(** ** The store after a pull whose records are at home *)

Lemma pull_product_loop_invoices_kept clk ps w w' :
  for_of ps (pull_product clk) w = (Ok tt, w') ->
  invoices (mem w') = invoices (mem w).
Proof.
  revert w w'. apply (for_of_preorder (fun a b => invoices (mem b) = invoices (mem a))).
  - reflexivity.
  - intros; congruence.
  - intros sp a b _ Hs. apply pull_product_ok_inv in Hs
      as (? & ? & ? & ? & ? & ? & ? & ? & ? & _ & _ & _ & _ & _ & _ & _ & Hi & _).
    exact Hi.
Qed.

Lemma pull_transaction_settles clk snap w w1 :
  store_keys_ok (mem w) ->
  snapshot_ids_ok snap ->
  pull_transaction clk snap w = (Ok tt, w1) ->
  records_at_home snap (mem w1) ->
  settled snap (mem w1).
Proof.
  intros (Hd & Hu & Hauto & Hui) (Hndp & Hsomep & Hndi & Hsomei) Htx
         (Hhp & Hfp & Hhi & Hfi).
  unfold pull_transaction in Htx.
  apply bind_ok_inv in Htx as ([] & wp & Hp & Hv).
  pose proof (pull_invoice_loop_products _ _ _ _ Hv) as Hprod.
  pose proof (pull_product_loop_invoices_kept _ _ _ _ Hp) as Hinv.
  destruct (pull_product_loop_traced clk _ _ _ Hp Hd Hndp Hsomep) as (Hd' & Htp).
  { intros p Hin. apply (single_holder_of_unique _ _ _ Hu). exact (Hsomep p Hin). }
  unfold unique_invoice_serverIds in Hui. rewrite <- Hinv in Hauto, Hui.
  destruct (pull_invoice_loop_traced clk _ _ _ Hv Hauto Hndi
              (fun q Hq => proj1 (Hsomei q Hq))) as (Hauto' & Hti).
  { intros q Hin. apply (single_holder_of_unique _ _ _ Hui).
    exact (proj1 (Hsomei q Hin)). }
  split; [unfold distinct_ids; rewrite Hprod; exact Hd'|].
  split; [exact Hauto'|]. split.
  - apply Forall_forall. intros p Hin.
    destruct (Htp p Hin) as (vb & Hvb & Ht).
    destruct (server_id_text_some _ _ (Hsomep p Hin)) as (vs & Hvs).
    pose proof (server_id_text_bound _ _ _ Hvs) as Hst. fold (product_sid p) in Hst.
    pose proof (Hsomep p Hin) as Hn. rewrite Hst in Hn, Ht.
    rewrite <- Hprod in Ht.
    destruct (traced_first_match ProductRow.id ProductRow.serverId vs vb
                (product_carries p) (products (mem w1)) Hn Ht)
      as (r & tl & Hl & Hs & Hc).
    + destruct (Hhp p Hin) as (r & Hr & Hs). exists r. split; [exact Hr | congruence].
    + intros before r after Hsplit Hs x Hx.
      apply (Hfp p Hin before r after Hsplit); try congruence.
      apply in_map. exact Hx.
    + exists vs, vb, r, tl. split; [exact Hvs|]. split; [exact Hvb|].
      split; [exact Hl|]. split; [exact Hs | exact Hc].
  - apply Forall_forall. intros q Hin.
    destruct (Hti q Hin) as (vb & Hvb & Ht).
    destruct (Hsomei q Hin) as [Hsid _].
    destruct (server_id_text_some _ _ Hsid) as (vs & Hvs).
    pose proof (server_id_text_bound _ _ _ Hvs) as Hst. fold (invoice_sid q) in Hst.
    rewrite Hst in Hsid, Ht.
    destruct (traced_first_match InvoiceRow.id InvoiceRow.serverId vs vb
                (invoice_carries (mem w1) q) (invoices (mem w1)) Hsid Ht)
      as (r & tl & Hl & Hs & Hc).
    + destruct (Hhi q Hin) as (r & Hr & Hs). exists r. split; [exact Hr | congruence].
    + intros before r after Hsplit Hs x Hx.
      apply (Hfi q Hin before r after Hsplit); try congruence.
      apply in_map. exact Hx.
    + exists vs, vb, r, tl. split; [exact Hvs|]. split; [exact Hvb|].
      split; [exact Hl|]. split; [exact Hs | exact Hc].
Qed.

(** ** Stores that differ in stamps and item ids only *)

Lemma filter_through_map {A B} (f : A -> B) (P : A -> bool) (Q : B -> bool)
    (l : list A) :
  (forall x, P x = Q (f x)) -> map f (filter P l) = filter Q (map f l).
Proof.
  intros H. induction l as [|x l IH]; simpl; [reflexivity|].
  rewrite <- H. destruct (P x); simpl; congruence.
Qed.

Lemma map_through {A B C} (f : A -> B) (g : A -> C) (h : B -> C) (l l' : list A) :
  (forall x, g x = h (f x)) -> map f l' = map f l -> map g l' = map g l.
Proof.
  intros H E.
  rewrite (map_ext g (fun x => h (f x)) H l'), (map_ext g (fun x => h (f x)) H l).
  rewrite <- (map_map f h l'), <- (map_map f h l), E. reflexivity.
Qed.

Lemma same_up_to_stamps_refl s : same_up_to_stamps s s.
Proof. unfold same_up_to_stamps. repeat split; reflexivity. Qed.

Lemma same_up_to_stamps_trans s1 s2 s3 :
  same_up_to_stamps s1 s2 -> same_up_to_stamps s2 s3 -> same_up_to_stamps s1 s3.
Proof.
  intros (A1 & B1 & C1 & D1 & E1) (A2 & B2 & C2 & D2 & E2).
  unfold same_up_to_stamps.
  do 4 (split; [congruence|]).
  intros k. rewrite E2, E1. reflexivity.
Qed.

(** A lookup returns the same rows, stamps apart, in two tables whose rows
    differ in stamps only. *)
Lemma lookup_through {R} (key : R -> Z) (sidc : R -> option string) (f : R -> R)
    (vs vb : SqlVal) (t t' : Table R) (r : R) (tl : list R) :
  (forall x, key (f x) = key x) -> (forall x, sidc (f x) = sidc x) ->
  map f (rows t') = map f (rows t) ->
  lookup_rows key sidc vs vb t = r :: tl ->
  exists r' tl', lookup_rows key sidc vs vb t' = r' :: tl' /\ f r' = f r.
Proof.
  intros Hk Hs E Hl. unfold lookup_rows, select_where in *.
  assert (H : map f (filter (fun r => serverId_eq (sidc r) vs || id_eq (key r) vb) (rows t'))
              = map f (filter (fun r => serverId_eq (sidc r) vs || id_eq (key r) vb)
                         (rows t))).
  { rewrite !(filter_through_map f _
                (fun r => serverId_eq (sidc r) vs || id_eq (key r) vb))
      by (intros x; rewrite Hk, Hs; reflexivity).
    rewrite E. reflexivity. }
  rewrite Hl in H.
  destruct (filter _ (rows t')) as [|r' tl']; simpl in H; [discriminate|].
  injection H as H1 H2. exists r', tl'. split; [reflexivity | exact H1].
Qed.

(** The lookup of products by server id or local id returns the same ids
    in two stores whose products differ in stamps only. *)
Lemma product_lookup_up_to_stamps a b s s' :
  map forget_product_stamp (rows (products s'))
  = map forget_product_stamp (rows (products s)) ->
  Sql.product_ids_by_serverId_or_id a b s' = Sql.product_ids_by_serverId_or_id a b s.
Proof.
  intros E. unfold Sql.product_ids_by_serverId_or_id, Sql.products_by_serverId_or_id,
    result_bind, select_where.
  destruct (bindValue a) as [va|]; [|reflexivity].
  destruct (bindValue b) as [vb|]; [|reflexivity].
  f_equal.
  apply (map_through forget_product_stamp ProductRow.id ProductRow.id);
    [reflexivity|].
  rewrite !(filter_through_map forget_product_stamp _
              (fun r => serverId_eq (ProductRow.serverId r) va
                        || id_eq (ProductRow.id r) vb)) by reflexivity.
  rewrite E. reflexivity.
Qed.

Lemma resolvable_items_up_to_stamps s s' k its :
  map forget_product_stamp (rows (products s'))
  = map forget_product_stamp (rows (products s)) ->
  resolvable_items s' k its = resolvable_items s k its.
Proof.
  intros E. unfold resolvable_items, resolved_product.
  apply flat_map_ext. intros it.
  destruct (item_product_param it) as [v|]; simpl; [|reflexivity].
  rewrite (product_lookup_up_to_stamps v v s s' E). reflexivity.
Qed.

Lemma items_go_through_up_to_stamps s s' its :
  map forget_product_stamp (rows (products s'))
  = map forget_product_stamp (rows (products s)) ->
  items_go_through s its -> items_go_through s' its.
Proof.
  intros E. unfold items_go_through. apply Forall_impl. intros it (found & Hq & Hf).
  exists found. split; [|exact Hf].
  destruct (item_product_param it) as [v|]; simpl in *; [|exact Hq].
  rewrite (product_lookup_up_to_stamps v v s s' E). exact Hq.
Qed.

Lemma product_applied_up_to_stamps s s' sp :
  same_up_to_stamps s s' -> product_applied s sp -> product_applied s' sp.
Proof.
  intros (E & _) (vs & vb & r & tl & Hvs & Hvb & Hl & Hs & Hc).
  destruct (lookup_through ProductRow.id ProductRow.serverId forget_product_stamp
              vs vb (products s) (products s') r tl
              (fun _ => eq_refl) (fun _ => eq_refl) E Hl) as (r' & tl' & Hl' & Hf).
  exists vs, vb, r', tl'. split; [exact Hvs|]. split; [exact Hvb|]. split; [exact Hl'|].
  unfold forget_product_stamp in Hf. inversion Hf as [[H1 H2 H3 H4 H5 H6 H7 H8]].
  split; [congruence|]. unfold product_carries. rewrite H2, H3, H4, H5, H6. exact Hc.
Qed.

Lemma invoice_applied_up_to_stamps s s' si :
  same_up_to_stamps s s' -> invoice_applied s si -> invoice_applied s' si.
Proof.
  intros (Ep & _ & E & _ & Ei) (vs & vb & r & tl & Hvs & Hvb & Hl & Hs & Ha & Hn & Hc & Hits).
  destruct (lookup_through InvoiceRow.id InvoiceRow.serverId forget_invoice_stamp
              vs vb (invoices s) (invoices s') r tl
              (fun _ => eq_refl) (fun _ => eq_refl) E Hl) as (r' & tl' & Hl' & Hf).
  exists vs, vb, r', tl'. split; [exact Hvs|]. split; [exact Hvb|]. split; [exact Hl'|].
  unfold forget_invoice_stamp in Hf. inversion Hf as [[H1 H2 H3 H4 H5]].
  split; [congruence|]. unfold invoice_carries. rewrite H1, H2, H3, H4.
  split; [exact Ha|]. split; [exact Hn|]. split; [exact Hc|].
  intros its Hi. destruct (Hits its Hi) as [Hgo Hdata]. split.
  - exact (items_go_through_up_to_stamps _ _ _ Ep Hgo).
  - rewrite Ei, Hdata. symmetry. apply resolvable_items_up_to_stamps. exact Ep.
Qed.

Lemma settled_up_to_stamps snap s s' :
  same_up_to_stamps s s' -> settled snap s -> settled snap s'.
Proof.
  intros Hs (Hd & (Hdi & Hpos & Hseq) & Hp & Hi).
  pose proof Hs as (Ep & _ & Ei & Si & _).
  assert (Kp : map ProductRow.id (rows (products s')) = map ProductRow.id (rows (products s)))
    by (apply (map_through forget_product_stamp _ ProductRow.id); [reflexivity | exact Ep]).
  assert (Ki : map InvoiceRow.id (rows (invoices s')) = map InvoiceRow.id (rows (invoices s)))
    by (apply (map_through forget_invoice_stamp _ InvoiceRow.id); [reflexivity | exact Ei]).
  split; [|split; [|split]].
  - unfold distinct_ids. rewrite Kp. exact Hd.
  - unfold autoincrement_ids, distinct_ids in *. rewrite Ki, Si.
    split; [exact Hdi|]. split; [|exact Hseq].
    rewrite Forall_forall in *. intros r' Hr'.
    assert (H : In (InvoiceRow.id r') (map InvoiceRow.id (rows (invoices s))))
      by (rewrite <- Ki; apply in_map; exact Hr').
    apply in_map_iff in H as (r & <- & Hr). exact (Hpos r Hr).
  - revert Hp. apply Forall_impl. intros sp. apply product_applied_up_to_stamps. exact Hs.
  - revert Hi. apply Forall_impl. intros si. apply invoice_applied_up_to_stamps. exact Hs.
Qed.

(** ** Pull again: the product loop *)

Lemma lookup_head_in {R} (key : R -> Z) (sidc : R -> option string)
    (vs vb : SqlVal) (t : Table R) (r : R) (tl : list R) :
  lookup_rows key sidc vs vb t = r :: tl -> In r (rows t).
Proof.
  intros Hl.
  assert (Hin : In r (lookup_rows key sidc vs vb t)) by (rewrite Hl; left; reflexivity).
  apply filter_In in Hin as [Hin _]. exact Hin.
Qed.

Lemma pull_product_succeeds clk sp w vs vb n c sl q l :
  bindValue (js_or (ServerProduct._id sp) (ServerProduct.id sp)) = Ok vs ->
  bindValue (ServerProduct.id sp) = Ok vb ->
  ServerProduct.name sp = Val n ->
  ServerProduct.costPrice sp = Val c ->
  ServerProduct.sellingPrice sp = Val sl ->
  ServerProduct.quantity sp = Val q ->
  ServerProduct.lowStockLevel sp = Val l ->
  exists w', pull_product clk sp w = (Ok tt, w').
Proof.
  intros Hvs Hvb Hn Hc Hsl Hq Hl.
  unfold pull_product, bind. rewrite querySql_run.
  unfold Sql.products_by_serverId_or_id, result_bind. rewrite Hvs, Hvb.
  destruct (select_where _ (products (mem w))) as [|r0 tl].
  - destruct (or_now_run clk (ServerProduct.createdAt sp) w) as (cr & w3 & -> & _).
    rewrite now_iso_run.
    unfold runAsync, Sql.insert_product, result_bind, not_null, bindField.
    simpl. rewrite Hn, Hc, Hsl, Hq, Hl, Hvs. eexists; reflexivity.
  - rewrite now_iso_run.
    unfold runAsync, Sql.update_product, result_bind, not_null, bindField.
    simpl. rewrite Hn, Hc, Hsl, Hq, Hl, Hvs. eexists; reflexivity.
Qed.

(** A record that is in the store is applied again onto the row it is on,
    and only the stamp of that row changes. *)
Lemma pull_product_again clk sp w :
  distinct_ids ProductRow.id (products (mem w)) ->
  product_applied (mem w) sp ->
  exists w', pull_product clk sp w = (Ok tt, w')
             /\ same_up_to_stamps (mem w) (mem w').
Proof.
  intros Hd (vs & vb & r & tl & Hvs & Hvb & Hl & Hrsid & Hn & Hc & Hsl & Hq & Hlow).
  destruct (pull_product_succeeds clk sp w _ _ _ _ _ _ _ Hvs Hvb Hn Hc Hsl Hq Hlow)
    as (w' & Hrun).
  exists w'. split; [exact Hrun|].
  apply pull_product_ok_inv in Hrun
    as (vs' & vb' & n & c & sl & q & l & cr & t & Hvs' & Hvb' & Hn' & Hc' & Hsl' & Hq' & Hl'
        & Hinv & Hitems & Hup).
  rewrite Hvs in Hvs'. inversion Hvs'; subst vs'. clear Hvs'.
  rewrite Hvb in Hvb'. inversion Hvb'; subst vb'. clear Hvb'.
  destruct (upserted_rows _ _ _ _ _ _ _ _ Hup)
    as [(r0 & tl0 & Hl0 & Hrows & Hseq) | (Hl0 & _)];
    [|rewrite Hl in Hl0; discriminate].
  rewrite Hl in Hl0. inversion Hl0; subst r0 tl0. clear Hl0.
  pose proof (lookup_head_in _ _ _ _ _ _ _ Hl) as Hr.
  unfold same_up_to_stamps. rewrite Hinv.
  split; [|split; [exact Hseq|]; split; [reflexivity|]; split; [reflexivity|];
           intros k; unfold items_of; rewrite Hitems; reflexivity].
  rewrite Hrows, map_map. apply map_ext_in. intros x Hx.
  destruct (ProductRow.id x =? ProductRow.id r) eqn:E; [|reflexivity].
  apply Z.eqb_eq in E.
  rewrite (same_key_same_row ProductRow.id _ x r Hd Hx Hr E).
  unfold forget_product_stamp; simpl.
  rewrite Hn in Hn'. rewrite Hc in Hc'. rewrite Hsl in Hsl'. rewrite Hq in Hq'.
  rewrite Hlow in Hl'. inversion Hn'. inversion Hc'. inversion Hsl'. inversion Hq'.
  inversion Hl'. rewrite Hrsid. reflexivity.
Qed.

(** ** Pull again: the invoice loop *)

Lemma pull_item_loop_succeeds k its :
  forall w, items_go_through (mem w) its ->
            exists w', for_of its (pull_item k) w = (Ok tt, w').
Proof.
  induction its as [|it its IH]; intros w Hgo.
  - exists w. reflexivity.
  - inversion Hgo as [|? ? (found & Hq & Hf) Hgo']; subst.
    assert (Hstep : exists w1, pull_item k it w = (Ok tt, w1)).
    { unfold pull_item, bind. rewrite querySql_run, Hq.
      destruct found as [|pid tl]; [exists w; reflexivity|].
      destruct Hf as [(q & Hqt) (p & Hpr)]; [discriminate|].
      unfold runAsync, Sql.insert_item, result_bind, not_null, bindField.
      rewrite Hqt, Hpr. eexists; reflexivity. }
    destruct Hstep as (w1 & Hstep).
    pose proof (pull_item_products _ _ _ _ Hstep) as [Hp _].
    destruct (IH w1 (items_go_through_products _ _ _ Hp Hgo')) as (w' & Hrest).
    exists w'. simpl. rewrite (bind_run _ _ _ _ _ Hstep). exact Hrest.
Qed.

Lemma pull_items_succeeds si existing sid vs w :
  bindValue sid = Ok vs ->
  (forall its, ServerInvoice.items si = Some its -> items_go_through (mem w) its) ->
  exists w', pull_items si existing sid w = (Ok tt, w').
Proof.
  intros Hvs Hgo. unfold pull_items.
  destruct (ServerInvoice.items si) as [its|]; [|exists w; reflexivity].
  specialize (Hgo its eq_refl).
  assert (HL : exists L, match existing with
                         | existing0 :: _ => ret (Some (InvoiceRow.id existing0))
                         | [] => bind (querySql (Sql.invoice_ids_by_serverId sid))
                                   (fun ids => ret (hd_error ids))
                         end w = (Ok L, w)).
  { destruct existing as [|e0 tl]; [|eexists; reflexivity].
    unfold bind. rewrite querySql_run.
    unfold Sql.invoice_ids_by_serverId, result_bind. rewrite Hvs.
    eexists; reflexivity. }
  destruct HL as (L & HL). rewrite (bind_run _ _ _ _ _ HL).
  destruct L as [k|]; [|exists w; reflexivity].
  destruct (k =? 0); [exists w; reflexivity|].
  unfold bind at 1. unfold runAsync, Sql.delete_items. simpl.
  apply pull_item_loop_succeeds. simpl.
  exact (items_go_through_products (mem w) _ its eq_refl Hgo).
Qed.

Lemma pull_invoice_succeeds clk si w vs vb a n c :
  bindValue (js_or (ServerInvoice._id si) (ServerInvoice.id si)) = Ok vs ->
  bindValue (ServerInvoice.id si) = Ok vb ->
  ServerInvoice.totalAmount si = Val a ->
  ServerInvoice.totalItems si = Val n ->
  ServerInvoice.createdAt si = Val c ->
  (forall its, ServerInvoice.items si = Some its -> items_go_through (mem w) its) ->
  exists w', pull_invoice clk si w = (Ok tt, w').
Proof.
  intros Hvs Hvb Ha Hn Hc Hgo.
  unfold pull_invoice. unfold bind at 1. rewrite querySql_run.
  unfold Sql.invoices_by_serverId_or_id, result_bind. rewrite Hvs, Hvb.
  set (existing := select_where _ (invoices (mem w))).
  assert (Hup : exists w1,
            match existing with
            | [] =>
                bind (or_now clk (ServerInvoice.createdAt si)) (fun createdAt =>
                bind (now_iso clk) (fun syncedAt =>
                runAsync (Sql.insert_invoice si createdAt syncedAt
                            (js_or (ServerInvoice._id si) (ServerInvoice.id si)))))
            | existing0 :: _ =>
                bind (now_iso clk) (fun syncedAt =>
                runAsync (Sql.update_invoice si syncedAt
                            (js_or (ServerInvoice._id si) (ServerInvoice.id si))
                            (InvoiceRow.id existing0)))
            end w = (Ok tt, w1)
            /\ products (mem w1) = products (mem w)).
  { destruct existing as [|r0 tl].
    - unfold bind. destruct (or_now_run clk (ServerInvoice.createdAt si) w)
        as (cr & w3 & -> & Hm & _).
      rewrite now_iso_run.
      unfold runAsync, Sql.insert_invoice, result_bind, not_null, bindField.
      simpl. rewrite Ha, Hn, Hvs. eexists. split; [reflexivity|]. simpl.
      rewrite Hm. reflexivity.
    - unfold bind. rewrite now_iso_run.
      unfold runAsync, Sql.update_invoice, result_bind, not_null, bindField.
      simpl. rewrite Ha, Hn, Hc, Hvs. eexists. split; reflexivity. }
  destruct Hup as (w1 & Hup & Hp).
  rewrite (bind_run _ _ _ _ _ Hup).
  apply (pull_items_succeeds si existing _ vs w1 Hvs).
  intros its Hi. exact (items_go_through_products _ _ _ Hp (Hgo its Hi)).
Qed.

(** A record that is in the store is applied again onto the row it is on;
    the stamp of that row changes, and its items are deleted and written
    anew under fresh row ids. *)
Lemma pull_invoice_again clk si w :
  autoincrement_ids InvoiceRow.id (invoices (mem w)) ->
  str_truthy (present (ServerInvoice.createdAt si)) = true ->
  invoice_applied (mem w) si ->
  exists w', pull_invoice clk si w = (Ok tt, w')
             /\ same_up_to_stamps (mem w) (mem w').
Proof.
  intros Hauto Htr (vs & vb & r & tl & Hvs & Hvb & Hl & Hrsid & Ha & Hn & Hc & Hits).
  specialize (Hc Htr).
  destruct (pull_invoice_succeeds clk si w _ _ _ _ _ Hvs Hvb Ha Hn Hc
              (fun its Hi => proj1 (Hits its Hi)))
    as (w' & Hrun).
  exists w'. split; [exact Hrun|].
  apply pull_invoice_ok_inv in Hrun
    as (vs' & vb' & a & n & c & cr & t & w1 & Hvs' & Hvb' & Ha' & Hn' & Hprod1 & Hitems1
        & Hup & Hc' & _ & Hpi).
  rewrite Hvs in Hvs'. inversion Hvs'; subst vs'. clear Hvs'.
  rewrite Hvb in Hvb'. inversion Hvb'; subst vb'. clear Hvb'.
  pose proof Hauto as (Hd & Hpos & _).
  destruct (upserted_rows _ _ _ _ _ _ _ _ Hup)
    as [(r0 & tl0 & Hl0 & Hrows & Hseq) | (Hl0 & _)];
    [|rewrite Hl in Hl0; discriminate].
  rewrite Hl in Hl0. inversion Hl0; subst r0 tl0. clear Hl0.
  pose proof (lookup_head_in _ _ _ _ _ _ _ Hl) as Hr.
  assert (Hc2 : ServerInvoice.createdAt si = Val c)
    by (apply Hc'; rewrite Hl; discriminate).
  apply pull_items_ok_inv in Hpi as (Hprod & Hinv & Hnone & Hsome).
  rewrite Hl in Hsome.
  unfold same_up_to_stamps.
  rewrite Hprod, Hprod1, Hinv.
  split; [reflexivity|]. split; [reflexivity|]. split; [|split; [exact Hseq|]].
  - rewrite Hrows, map_map. apply map_ext_in. intros x Hx.
    destruct (InvoiceRow.id x =? InvoiceRow.id r) eqn:E; [|reflexivity].
    apply Z.eqb_eq in E.
    rewrite (same_key_same_row InvoiceRow.id _ x r Hd Hx Hr E).
    unfold forget_invoice_stamp; simpl.
    rewrite Ha in Ha'. rewrite Hn in Hn'. rewrite Hc in Hc2.
    inversion Ha'. inversion Hn'. inversion Hc2.
    rewrite Hrsid. reflexivity.
  - intros k. unfold items_of, select_where.
    destruct (ServerInvoice.items si) as [its|] eqn:Hi.
    + destruct (Hsome its eq_refl) as (L & -> & Hres).
      assert (Hne : InvoiceRow.id r <> 0).
      { rewrite Forall_forall in Hpos. specialize (Hpos r Hr). lia. }
      destruct (InvoiceRow.id r =? 0) eqn:E0; [apply Z.eqb_eq in E0; congruence|].
      destruct Hres as (_ & new & Hnew & Hdata).
      rewrite Hnew, Hitems1.
      destruct (Z.eq_dec k (InvoiceRow.id r)) as [-> | Hk].
      * rewrite (items_replaced_same _ _ _ (new_items_invoice _ _ _ _ Hdata)).
        rewrite Hdata. destruct (Hits its eq_refl) as [_ Hold].
        unfold items_of, select_where in Hold. rewrite Hold.
        apply resolvable_items_products. exact Hprod1.
      * rewrite (items_replaced_other _ _ _ _ Hk (new_items_invoice _ _ _ _ Hdata)).
        reflexivity.
    + rewrite (Hnone eq_refl), Hitems1. reflexivity.
Qed.

(** ** Pull again: the whole transaction *)

Lemma pull_products_again clk snap ps :
  incl ps (snap_products snap) ->
  forall w, settled snap (mem w) ->
            exists w', for_of ps (pull_product clk) w = (Ok tt, w')
                       /\ same_up_to_stamps (mem w) (mem w').
Proof.
  intros Hincl. induction ps as [|sp ps IH]; intros w Hset.
  - exists w. split; [reflexivity | apply same_up_to_stamps_refl].
  - assert (Hin : In sp (snap_products snap)) by (apply Hincl; left; reflexivity).
    pose proof Hset as (Hd & _ & Hp & _).
    rewrite Forall_forall in Hp.
    destruct (pull_product_again clk sp w Hd (Hp sp Hin)) as (w1 & Hstep & Hs1).
    destruct (IH (fun x Hx => Hincl x (or_intror Hx)) w1
                 (settled_up_to_stamps _ _ _ Hs1 Hset)) as (w' & Hrest & Hs').
    exists w'. split.
    + simpl. rewrite (bind_run _ _ _ _ _ Hstep). exact Hrest.
    + exact (same_up_to_stamps_trans _ _ _ Hs1 Hs').
Qed.

Lemma pull_invoices_again clk snap invs :
  incl invs (snap_invoices snap) ->
  snapshot_ids_ok snap ->
  forall w, settled snap (mem w) ->
            exists w', for_of invs (pull_invoice clk) w = (Ok tt, w')
                       /\ same_up_to_stamps (mem w) (mem w').
Proof.
  intros Hincl (_ & _ & _ & Hsome). induction invs as [|si invs IH]; intros w Hset.
  - exists w. split; [reflexivity | apply same_up_to_stamps_refl].
  - assert (Hin : In si (snap_invoices snap)) by (apply Hincl; left; reflexivity).
    pose proof Hset as (_ & Hauto & _ & Hp).
    rewrite Forall_forall in Hp. destruct (Hsome si Hin) as [_ Htr].
    destruct (pull_invoice_again clk si w Hauto Htr (Hp si Hin)) as (w1 & Hstep & Hs1).
    destruct (IH (fun x Hx => Hincl x (or_intror Hx)) w1
                 (settled_up_to_stamps _ _ _ Hs1 Hset)) as (w' & Hrest & Hs').
    exists w'. split.
    + simpl. rewrite (bind_run _ _ _ _ _ Hstep). exact Hrest.
    + exact (same_up_to_stamps_trans _ _ _ Hs1 Hs').
Qed.


(** ** Pull again: the theorem *)

(** C2 (as amended). Pulling the same snapshot a second time succeeds and
    gives the store of the first pull again, up to the [syncedAt] stamps,
    which the second run sets anew, and the row ids of the items, which
    are deleted and inserted again. This holds when the first pull started
    from a store with sound keys and server ids, the records of the
    snapshot carry pairwise distinct server ids and the invoices their
    creation time, and the first pull has left every record at home: a
    row holds its server id, and no row before that row has the id the
    record names. A record may name its own row, as on the device that
    created it or after its server id was attached to the local row of
    that id; what is left out is a record whose row a later record took,
    or that names a row before its own. *)
Theorem pull_twice_same_up_to_stamps clk1 clk2 snap w w1 :
  store_keys_ok (mem w) ->
  snapshot_ids_ok snap ->
  pullFromServer clk1 (Ok snap) w = (Ok snap, w1) ->
  records_at_home snap (mem w1) ->
  exists w2,
    pullFromServer clk2 (Ok snap) w1 = (Ok snap, w2)
    /\ same_up_to_stamps (mem w1) (mem w2).
Proof.
  intros Hk Hs Hpull Hhome.
  apply pullFromServer_ok_inv in Hpull as (_ & wz & Htx & ->).
  change (mem (saveDb wz)) with (mem wz) in *.
  pose proof (pull_transaction_settles _ _ _ _ Hk Hs Htx Hhome) as Hset.
  destruct (pull_products_again clk2 snap (snap_products snap) (incl_refl _)
              (saveDb wz) Hset) as (wp & Hp & Hsp).
  destruct (pull_invoices_again clk2 snap (snap_invoices snap) (incl_refl _) Hs
              wp (settled_up_to_stamps _ _ _ Hsp Hset)) as (wv & Hv & Hsv).
  exists (saveDb wv). split.
  - apply pullFromServer_ok_iff. exists wv. split; [|reflexivity].
    unfold pull_transaction. rewrite (bind_run _ _ _ _ _ Hp). exact Hv.
  - exact (same_up_to_stamps_trans _ _ _ Hsp Hsv).
Qed.

(** Among rows given one by one: the row that holds a server id. *)
Ltac holder_among l :=
  match l with
  | ?x :: ?tl =>
      first [ exists x; split;
              [ simpl; repeat (first [left; reflexivity | right])
              | vm_compute; reflexivity ]
            | holder_among tl ]
  end.

Ltac holder_by_rows :=
  match goal with
  | |- exists r, In r (rows ?t) /\ _ =>
      let l := eval vm_compute in (rows t) in holder_among l
  end.

Lemma pull_twice_same_up_to_stamps_witness :
  let snap := mkSnapshot [beans_on_server; oil_own; salt; pepper]
                [sale_without_items; with_items sale_a [item_salt; item_ghost]] in
  let w := fresh_world store_beans_oil in
  let w1 := snd (pullFromServer ticking (Ok snap) w) in
  exists w2,
    pullFromServer ticking (Ok snap) w1 = (Ok snap, w2)
    /\ same_up_to_stamps (mem w1) (mem w2).
Proof.
  intros snap w w1.
  apply (pull_twice_same_up_to_stamps ticking ticking snap w w1).
  - split; [|split; [|split]].
    + vm_compute. constructor; [intros [H | []]; discriminate|].
      constructor; [intros [] | constructor].
    + apply unique_two. discriminate.
    + split; [constructor|]. split; [constructor | simpl; lia].
    + intros sid; simpl; lia.
  - split; [|split; [|split]].
    + vm_compute. repeat constructor; simpl; intuition discriminate.
    + intros p [<- | [<- | [<- | [<- | []]]]]; vm_compute; discriminate.
    + vm_compute. repeat constructor; simpl; intuition discriminate.
    + intros q [<- | [<- | []]]; (split; [vm_compute; discriminate | reflexivity]).
  - vm_compute. reflexivity.
  - let s := eval vm_compute in (mem w1) in
    assert (E : mem w1 = s) by (vm_compute; reflexivity).
    rewrite E. clear E.
    split; [|split; [|split]].
    + intros p [<- | [<- | [<- | [<- | []]]]]; holder_by_rows.
    + intros p [<- | [<- | [<- | [<- | []]]]]; holder_first_by_rows.
    + intros q [<- | [<- | []]]; holder_by_rows.
    + intros q [<- | [<- | []]]; holder_first_by_rows.
Defined.

(** Pull twice is not pull once. With a running clock the stamps of the
    second run are later; with a stopped clock the item rows still get new
    ids; and when a record names in [id] the row another record holds, the
    second pull finds the records on other rows than the first and leaves
    a different set of products. *)
Lemma pull_twice_differs :
  mem (snd (pullFromServer ticking (Ok snapshot_salt_sale)
              (snd (pullFromServer ticking (Ok snapshot_salt_sale)
                      (fresh_world empty_store)))))
  <> mem (snd (pullFromServer ticking (Ok snapshot_salt_sale)
                 (fresh_world empty_store)))
  /\ invoice_items
       (mem (snd (pullFromServer frozen (Ok snapshot_salt_sale)
                    (snd (pullFromServer frozen (Ok snapshot_salt_sale)
                            (fresh_world empty_store))))))
     <> invoice_items
          (mem (snd (pullFromServer frozen (Ok snapshot_salt_sale)
                       (fresh_world empty_store))))
  /\ (fst (pullFromServer frozen (Ok (mkSnapshot [product_a; product_b] []))
             (fresh_world empty_store))
      = Ok (mkSnapshot [product_a; product_b] [])
      /\ ~ same_up_to_stamps
             (mem (snd (pullFromServer frozen (Ok (mkSnapshot [product_a; product_b] []))
                          (fresh_world empty_store))))
             (mem (snd (pullFromServer frozen (Ok (mkSnapshot [product_a; product_b] []))
                          (snd (pullFromServer frozen
                                  (Ok (mkSnapshot [product_a; product_b] []))
                                  (fresh_world empty_store))))))).
Proof.
  split; [|split; [|split]].
  - vm_compute. discriminate.
  - vm_compute. discriminate.
  - reflexivity.
  - intros (H & _). vm_compute in H. discriminate.
Qed.

(** An invoice record without a creation time can be pulled once only: the
    INSERT of the first pull writes the current time, the UPDATE of the
    second writes the record's own value into a NOT NULL column. *)
Example second_pull_refuses_undated_invoice :
  fst (pullFromServer ticking (Ok (mkSnapshot [] [sale_undated]))
         (fresh_world empty_store))
  = Ok (mkSnapshot [] [sale_undated])
  /\ fst (pullFromServer ticking (Ok (mkSnapshot [] [sale_undated]))
            (snd (pullFromServer ticking (Ok (mkSnapshot [] [sale_undated]))
                    (fresh_world empty_store))))
     = Throw "Failed to pull from server: NOT NULL constraint failed: invoices.createdAt".
Proof. split; reflexivity. Qed.


(* ===================================================================== *)
(** * Further properties of the adapter and of the sync functions *)
(* ===================================================================== *)

(** ** The export follows every statement *)

Lemma keeps_export_ret {A} (a : A) : keeps_export (ret a).
Proof. intros w r w' Hw H. inversion H; subst. exact Hw. Qed.

Lemma keeps_export_bind {A B} (c : M A) (k : A -> M B) :
  keeps_export c -> (forall a, keeps_export (k a)) -> keeps_export (bind c k).
Proof.
  intros Hc Hk w r w' Hw H. unfold bind in H.
  destruct (c w) as [[a|e] w1] eqn:E.
  - exact (Hk a w1 r w' (Hc w _ w1 Hw E) H).
  - inversion H; subst. exact (Hc w _ w' Hw E).
Qed.

Lemma keeps_export_querySql {A} (q : Store -> Result A) : keeps_export (querySql q).
Proof. intros w r w' Hw H. inversion H; subst. exact Hw. Qed.

Lemma keeps_export_runAsync (stmt : Store -> Result Store) : keeps_export (runAsync stmt).
Proof.
  intros w r w' Hw H. unfold runAsync in H. destruct (stmt (mem w)) as [s'|e].
  - inversion H; subst. intros s Hs. simpl in *. congruence.
  - inversion H; subst. exact Hw.
Qed.

Lemma keeps_export_Date_now clk : keeps_export (Date_now clk).
Proof. intros w r w' Hw H. inversion H; subst. exact Hw. Qed.

Lemma keeps_export_now_iso clk : keeps_export (now_iso clk).
Proof.
  apply keeps_export_bind; [apply keeps_export_Date_now | intros; apply keeps_export_ret].
Qed.

Lemma keeps_export_or_now clk field : keeps_export (or_now clk field).
Proof.
  unfold or_now. destruct field as [| |s]; [| |destruct (String.eqb s EmptyString)];
    first [apply keeps_export_now_iso | apply keeps_export_ret].
Qed.

Lemma keeps_export_for_of {A} (body : A -> M unit) (xs : list A) :
  (forall x, keeps_export (body x)) -> keeps_export (for_of xs body).
Proof.
  intros Hb. induction xs as [|x xs IH]; simpl.
  - apply keeps_export_ret.
  - apply keeps_export_bind; [apply Hb | intros _; exact IH].
Qed.

Lemma keeps_export_pull_product clk sp : keeps_export (pull_product clk sp).
Proof.
  unfold pull_product. apply keeps_export_bind; [apply keeps_export_querySql|].
  intros [|r0 tl].
  - apply keeps_export_bind; [apply keeps_export_or_now|]. intros cr.
    apply keeps_export_bind; [apply keeps_export_now_iso|]. intros t.
    apply keeps_export_runAsync.
  - apply keeps_export_bind; [apply keeps_export_now_iso|]. intros t.
    apply keeps_export_runAsync.
Qed.

Lemma keeps_export_pull_item k it : keeps_export (pull_item k it).
Proof.
  unfold pull_item. apply keeps_export_bind; [apply keeps_export_querySql|].
  intros [|p tl]; [apply keeps_export_ret | apply keeps_export_runAsync].
Qed.

Lemma keeps_export_pull_items si existing sid : keeps_export (pull_items si existing sid).
Proof.
  unfold pull_items. destruct (ServerInvoice.items si) as [items|];
    [|apply keeps_export_ret].
  apply keeps_export_bind.
  - destruct existing as [|e0 tl]; [|apply keeps_export_ret].
    apply keeps_export_bind; [apply keeps_export_querySql | intros; apply keeps_export_ret].
  - intros [k|]; [|apply keeps_export_ret].
    destruct (k =? 0); [apply keeps_export_ret|].
    apply keeps_export_bind; [apply keeps_export_runAsync|]. intros _.
    apply keeps_export_for_of. intros it. apply keeps_export_pull_item.
Qed.

Lemma keeps_export_pull_invoice clk si : keeps_export (pull_invoice clk si).
Proof.
  unfold pull_invoice. apply keeps_export_bind; [apply keeps_export_querySql|].
  intros existing. apply keeps_export_bind; [|intros _; apply keeps_export_pull_items].
  destruct existing as [|r0 tl].
  - apply keeps_export_bind; [apply keeps_export_or_now|]. intros cr.
    apply keeps_export_bind; [apply keeps_export_now_iso|]. intros t.
    apply keeps_export_runAsync.
  - apply keeps_export_bind; [apply keeps_export_now_iso|]. intros t.
    apply keeps_export_runAsync.
Qed.

Lemma keeps_export_pull_transaction clk snap : keeps_export (pull_transaction clk snap).
Proof.
  unfold pull_transaction. apply keeps_export_bind.
  - apply keeps_export_for_of. intros sp. apply keeps_export_pull_product.
  - intros _. apply keeps_export_for_of. intros si. apply keeps_export_pull_invoice.
Qed.

Lemma keeps_export_push_transaction clk result : keeps_export (push_transaction clk result).
Proof.
  unfold push_transaction. apply keeps_export_bind.
  - apply keeps_export_for_of. intros q. unfold stamp_pushed_product.
    apply keeps_export_bind; [apply keeps_export_now_iso | intros; apply keeps_export_runAsync].
  - intros _. apply keeps_export_for_of. intros q. unfold stamp_pushed_invoice.
    apply keeps_export_bind; [apply keeps_export_now_iso | intros; apply keeps_export_runAsync].
Qed.

(** The catch branch of [withTransactionAsync] reloads the export; with the
    export in step that is the database the callback left, so a callback
    that throws keeps every write it made before the throw. *)
Lemma withTransactionAsync_throw (c : M unit) w e w1 :
  keeps_export c -> export_in_step w ->
  c w = (Throw e, w1) ->
  withTransactionAsync c w = (Throw e, w1).
Proof.
  intros Hc Hw H. unfold withTransactionAsync. rewrite H. f_equal.
  pose proof (Hc w _ w1 Hw H) as H1. unfold reloadDb.
  destruct (idb w1) as [s|] eqn:E; [|reflexivity].
  rewrite (H1 s E). destruct w1; simpl in *. rewrite E, (H1 s E). reflexivity.
Qed.

(** A statement that throws has written nothing. *)
Lemma runAsync_throw_inv (stmt : Store -> Result Store) w e w' :
  runAsync stmt w = (Throw e, w') -> w' = w.
Proof.
  unfold runAsync. destruct (stmt (mem w)); intros H; inversion H; reflexivity.
Qed.

Lemma or_now_world clk field w :
  exists c n, or_now clk field w = (Ok c, mkWorld (mem w) (idb w) n).
Proof.
  unfold or_now. destruct field as [| |s]; [| |destruct (String.eqb s EmptyString)];
    try (rewrite now_iso_run; eexists _, _; reflexivity).
  exists s, (ticks w). destruct w; reflexivity.
Qed.

Lemma pull_product_throw_inv clk sp w e w' :
  pull_product clk sp w = (Throw e, w') -> mem w' = mem w /\ idb w' = idb w.
Proof.
  unfold pull_product. unfold bind at 1. rewrite querySql_run.
  destruct (Sql.products_by_serverId_or_id _ _ (mem w)) as [[|r0 tl]|e0].
  - unfold bind at 1.
    destruct (or_now_world clk (ServerProduct.createdAt sp) w) as (c & n & ->).
    unfold bind at 1. rewrite now_iso_run. intros H.
    apply runAsync_throw_inv in H. subst w'. split; reflexivity.
  - unfold bind at 1. rewrite now_iso_run. intros H.
    apply runAsync_throw_inv in H. subst w'. split; reflexivity.
  - intros H; inversion H; subst; split; reflexivity.
Qed.

Lemma stamp_pushed_product_throw_inv clk q w e w' :
  stamp_pushed_product clk q w = (Throw e, w') -> mem w' = mem w /\ idb w' = idb w.
Proof.
  unfold stamp_pushed_product. unfold bind at 1. rewrite now_iso_run. intros H.
  apply runAsync_throw_inv in H. subst w'. split; reflexivity.
Qed.

Lemma pullFromServer_throw clk snap w e w1 :
  export_in_step w ->
  pull_transaction clk snap w = (Throw e, w1) ->
  pullFromServer clk (Ok snap) w
  = (Throw ("Failed to pull from server: " ++ caught_message e), w1).
Proof.
  intros Hw H. unfold pullFromServer, try_catch. unfold bind at 1. unfold lift.
  unfold bind at 1.
  rewrite (withTransactionAsync_throw _ w e w1
             (keeps_export_pull_transaction clk snap) Hw H).
  reflexivity.
Qed.

(** X1. A pull that fails at a product record rolls nothing back: the
    records before the failing one stay applied.  When the export is in
    step with the memory at the start, the store after the failed pull is
    the store the loop had reached when the record was refused. The error
    carries, behind the pull context, the message of the statement that
    failed, or [Unknown error] when it was a value that sql.js refused to
    bind. *)
Theorem failed_pull_keeps_earlier_products clk ps1 bad ps2 invs w w1 e w2 :
  export_in_step w ->
  for_of ps1 (pull_product clk) w = (Ok tt, w1) ->
  pull_product clk bad w1 = (Throw e, w2) ->
  pullFromServer clk (Ok (mkSnapshot (ps1 ++ bad :: ps2) invs)) w
  = (Throw ("Failed to pull from server: " ++ caught_message e), w2)
  /\ mem w2 = mem w1.
Proof.
  intros Hw H1 Hbad. split.
  - apply pullFromServer_throw; [exact Hw|].
    unfold pull_transaction; simpl. unfold bind at 1. rewrite for_of_app.
    rewrite (bind_run _ _ _ _ _ H1). simpl. unfold bind at 1. rewrite Hbad.
    reflexivity.
  - apply (pull_product_throw_inv clk bad w1 e w2 Hbad).
Qed.

Lemma failed_pull_keeps_earlier_products_witness :
  pullFromServer ticking (Ok (mkSnapshot ([salt] ++ nameless :: [oil_new]) []))
    (fresh_world store_beans_oil)
  = (Throw ("Failed to pull from server: "
            ++ "NOT NULL constraint failed: products.name"),
     snd (pull_product ticking nameless
            (snd (for_of [salt] (pull_product ticking) (fresh_world store_beans_oil)))))
  /\ mem (snd (pull_product ticking nameless
            (snd (for_of [salt] (pull_product ticking) (fresh_world store_beans_oil)))))
     = mem (snd (for_of [salt] (pull_product ticking) (fresh_world store_beans_oil))).
Proof.
  apply (failed_pull_keeps_earlier_products ticking [salt] nameless [oil_new] []
           (fresh_world store_beans_oil) _
           (ErrorObject "NOT NULL constraint failed: products.name")).
  - intros s Hs. vm_compute in Hs. inversion Hs. reflexivity.
  - vm_compute. reflexivity.
  - vm_compute. reflexivity.
Defined.

Lemma pushToServer_throw clk deviceId server w body w0 result e w1 :
  export_in_step w ->
  push_payload clk deviceId w = (Ok body, w0) ->
  server body = Ok result ->
  push_transaction clk result w0 = (Throw e, w1) ->
  pushToServer clk deviceId server w
  = (Throw ("Failed to push to server: " ++ caught_message e), w1).
Proof.
  intros Hw Hbody Hs H. unfold pushToServer, try_catch.
  rewrite (bind_run _ _ _ _ _ Hbody). unfold bind at 1. unfold lift. rewrite Hs.
  assert (Hw0 : export_in_step w0).
  { destruct (push_payload_total clk deviceId w) as [body' Hb'].
    rewrite Hb' in Hbody. inversion Hbody; subst. exact Hw. }
  rewrite (withTransactionAsync_throw _ w0 e w1
             (keeps_export_push_transaction clk result) Hw0 H).
  reflexivity.
Qed.

(** X2. A write-back that fails at a response record rolls nothing back:
    the rows stamped for the records before it stay stamped, although push
    as a whole throws.  The store after the failed push is the store the
    loop had reached when the record was refused, and the error carries
    what the catch of [pushToServer] makes of the failure: [Unknown error]
    for a value that sql.js refused to bind. *)
Theorem failed_write_back_keeps_earlier_stamps
    clk deviceId server w body w0 qs1 bad qs2 invs w1 e w2 :
  export_in_step w ->
  push_payload clk deviceId w = (Ok body, w0) ->
  server body = Ok (mkSnapshot (qs1 ++ bad :: qs2) invs) ->
  for_of qs1 (stamp_pushed_product clk) w0 = (Ok tt, w1) ->
  stamp_pushed_product clk bad w1 = (Throw e, w2) ->
  pushToServer clk deviceId server w
  = (Throw ("Failed to push to server: " ++ caught_message e), w2)
  /\ mem w2 = mem w1.
Proof.
  intros Hw Hbody Hs H1 Hbad. split.
  - apply (pushToServer_throw clk deviceId server w body w0 _ e w2 Hw Hbody Hs).
    unfold push_transaction; simpl. unfold bind at 1. rewrite for_of_app.
    rewrite (bind_run _ _ _ _ _ H1). simpl. unfold bind at 1. rewrite Hbad.
    reflexivity.
  - apply (stamp_pushed_product_throw_inv clk bad w1 e w2 Hbad).
Qed.

Lemma failed_write_back_keeps_earlier_stamps_witness :
  let w := fresh_world store_beans_oil in
  let w0 := snd (push_payload ticking "device_1" w) in
  let w1 := snd (for_of [canonical_product (product_for_api beans_local)]
                   (stamp_pushed_product ticking) w0) in
  let w2 := snd (stamp_pushed_product ticking anonymous_record w1) in
  pushToServer ticking "device_1" half_answering w
  = (Throw "Failed to push to server: Unknown error", w2)
  /\ mem w2 = mem w1.
Proof.
  intros w w0 w1 w2.
  apply (failed_write_back_keeps_earlier_stamps ticking "device_1" half_answering w
           (mkPushPayload [product_for_api beans_local; product_for_api oil_old] []
              "device_1")
           w0 [canonical_product (product_for_api beans_local)] anonymous_record [] []
           w1
           (NotAnError
              "Wrong API use : tried to bind a value of an unknown type (undefined).")).
  - intros s Hs. vm_compute in Hs. inversion Hs. reflexivity.
  - vm_compute. reflexivity.
  - vm_compute. reflexivity.
  - vm_compute. reflexivity.
  - vm_compute. reflexivity.
Defined.

(** ** What one record of a pull writes *)

Lemma or_now_value clk field w c w1 :
  or_now clk field w = (Ok c, w1) ->
  (str_truthy (present field) = true /\ field = Val c /\ w1 = w)
  \/ (str_truthy (present field) = false /\ c = toISOString (clk (ticks w))
      /\ w1 = mkWorld (mem w) (idb w) (S (ticks w))).
Proof.
  unfold or_now, str_truthy. destruct field as [| |s]; simpl.
  - rewrite now_iso_run. intros H; inversion H. right. repeat split.
  - rewrite now_iso_run. intros H; inversion H. right. repeat split.
  - destruct (String.eqb s EmptyString).
    + rewrite now_iso_run. intros H; inversion H. right. repeat split.
    + intros H; inversion H. left. repeat split.
Qed.

(** The product loop body either rewrites the first row of the lookup in
    place or appends one row; both carry a stamp read from the clock. *)
Lemma pull_product_shape clk sp w w' :
  pull_product clk sp w = (Ok tt, w') ->
  exists vs vb n c sl q l,
    bindValue (js_or (ServerProduct._id sp) (ServerProduct.id sp)) = Ok vs
    /\ bindValue (ServerProduct.id sp) = Ok vb
    /\ ServerProduct.name sp = Val n
    /\ ServerProduct.costPrice sp = Val c
    /\ ServerProduct.sellingPrice sp = Val sl
    /\ ServerProduct.quantity sp = Val q
    /\ ServerProduct.lowStockLevel sp = Val l
    /\ invoices (mem w') = invoices (mem w)
    /\ invoice_items (mem w') = invoice_items (mem w)
    /\ (ticks w < ticks w')%nat
    /\ ((exists r0 tl,
          lookup_rows ProductRow.id ProductRow.serverId vs vb (products (mem w))
          = r0 :: tl
          /\ products (mem w')
             = update_where (fun r => ProductRow.id r =? ProductRow.id r0)
                 (fun r => ProductRow.mk (ProductRow.id r) n c sl q l
                             (ProductRow.createdAt r)
                             (Some (toISOString (clk (ticks w)))) (as_text vs))
                 (products (mem w)))
        \/ (lookup_rows ProductRow.id ProductRow.serverId vs vb (products (mem w)) = []
            /\ exists cr k,
                 (ticks w <= k < ticks w')%nat
                 /\ (str_truthy (present (ServerProduct.createdAt sp)) = true
                  -> ServerProduct.createdAt sp = Val cr)
                 /\ (str_truthy (present (ServerProduct.createdAt sp)) = false
                     -> cr = toISOString (clk (ticks w)))
                 /\ products (mem w')
                    = insert_row ProductRow.id
                        (fun j => ProductRow.mk j n c sl q l cr
                                    (Some (toISOString (clk k))) (as_text vs))
                        (products (mem w)))).
Proof.
  unfold pull_product. intros H.
  apply bind_ok_inv in H as (existing & w1 & Hq & H).
  rewrite querySql_run in Hq. inversion Hq as [[Hex Hw1]]. subst w1. clear Hq.
  unfold Sql.products_by_serverId_or_id, result_bind in Hex.
  destruct (bindValue (js_or (ServerProduct._id sp) (ServerProduct.id sp))) as [vs|] eqn:Hvs;
    [|discriminate].
  destruct (bindValue (ServerProduct.id sp)) as [vb|] eqn:Hvb; [|discriminate].
  inversion Hex as [Hsel]. clear Hex.
  destruct existing as [|r0 tl].
  - apply bind_ok_inv in H as (cr & w3 & Hc & H).
    apply or_now_value in Hc.
    apply bind_ok_inv in H as (t & w4 & Ht & H).
    rewrite now_iso_run in Ht. inversion Ht; subst t w4. clear Ht.
    apply runAsync_ok_inv in H as (s' & Hs & ->). simpl in Hs.
    apply insert_product_ok_inv in Hs
      as (n & c & sl & q & l & vs' & Hn & Hcp & Hsp & Hqt & Hl & Hb & ->).
    rewrite Hvs in Hb. inversion Hb; subst vs'.
    exists vs, vb, n, c, sl, q, l. simpl.
    assert (Hm : mem w3 = mem w).
    { destruct Hc as [(_ & _ & ->) | (_ & _ & ->)]; reflexivity. }
    assert (Htk : (ticks w <= ticks w3)%nat).
    { destruct Hc as [(_ & _ & ->) | (_ & _ & ->)]; simpl; lia. }
    rewrite Hm.
    repeat (split; [first [assumption | reflexivity | lia]|]).
    right. split; [exact Hsel|]. exists cr, (ticks w3).
    split; [lia|]. split; [|split; [|reflexivity]].
    + intros Ht. destruct Hc as [(_ & Hc & _) | (Hf & _)]; [exact Hc | congruence].
    + intros Hf. destruct Hc as [(Ht & _) | (_ & Hc & _)]; [congruence | exact Hc].
  - apply bind_ok_inv in H as (t & w4 & Ht & H).
    rewrite now_iso_run in Ht. inversion Ht; subst t w4. clear Ht.
    apply runAsync_ok_inv in H as (s' & Hs & ->). simpl in Hs.
    apply update_product_ok_inv in Hs
      as (n & c & sl & q & l & vs' & Hn & Hcp & Hsp & Hqt & Hl & Hb & ->).
    rewrite Hvs in Hb. inversion Hb; subst vs'.
    exists vs, vb, n, c, sl, q, l. simpl.
    repeat (split; [first [assumption | reflexivity | lia]|]).
    left. exists r0, tl. split; [exact Hsel | reflexivity].
Qed.

(** The upsert of the invoice loop body, before its items are handled. *)
Lemma pull_invoice_shape clk si w w' :
  pull_invoice clk si w = (Ok tt, w') ->
  exists vs vb a n w1,
    bindValue (js_or (ServerInvoice._id si) (ServerInvoice.id si)) = Ok vs
    /\ bindValue (ServerInvoice.id si) = Ok vb
    /\ ServerInvoice.totalAmount si = Val a
    /\ ServerInvoice.totalItems si = Val n
    /\ products (mem w1) = products (mem w)
    /\ invoice_items (mem w1) = invoice_items (mem w)
    /\ (ticks w < ticks w1)%nat
    /\ pull_items si
         (lookup_rows InvoiceRow.id InvoiceRow.serverId vs vb (invoices (mem w)))
         (js_or (ServerInvoice._id si) (ServerInvoice.id si)) w1
       = (Ok tt, w')
    /\ ((exists r0 tl c,
          lookup_rows InvoiceRow.id InvoiceRow.serverId vs vb (invoices (mem w))
          = r0 :: tl
          /\ ServerInvoice.createdAt si = Val c
          /\ invoices (mem w1)
             = update_where (fun r => InvoiceRow.id r =? InvoiceRow.id r0)
                 (fun r => InvoiceRow.mk (InvoiceRow.id r) a n c
                             (Some (toISOString (clk (ticks w)))) (as_text vs))
                 (invoices (mem w)))
        \/ (lookup_rows InvoiceRow.id InvoiceRow.serverId vs vb (invoices (mem w)) = []
            /\ exists cr k,
                 (ticks w <= k < ticks w1)%nat
                 /\ (str_truthy (present (ServerInvoice.createdAt si)) = true
                  -> ServerInvoice.createdAt si = Val cr)
                 /\ (str_truthy (present (ServerInvoice.createdAt si)) = false
                     -> cr = toISOString (clk (ticks w)))
                 /\ invoices (mem w1)
                    = insert_row InvoiceRow.id
                        (fun j => InvoiceRow.mk j a n cr
                                    (Some (toISOString (clk k))) (as_text vs))
                        (invoices (mem w)))).
Proof.
  unfold pull_invoice. intros H.
  apply bind_ok_inv in H as (existing & w0 & Hq & H).
  rewrite querySql_run in Hq. inversion Hq as [[Hex Hw0]]. subst w0. clear Hq.
  unfold Sql.invoices_by_serverId_or_id, result_bind in Hex.
  destruct (bindValue (js_or (ServerInvoice._id si) (ServerInvoice.id si))) as [vs|] eqn:Hvs;
    [|discriminate].
  destruct (bindValue (ServerInvoice.id si)) as [vb|] eqn:Hvb; [|discriminate].
  inversion Hex as [Hsel]. clear Hex.
  apply bind_ok_inv in H as ([] & w1 & Hup & Hit).
  destruct existing as [|r0 tl].
  - apply bind_ok_inv in Hup as (cr & w3 & Hc & Hup).
    apply or_now_value in Hc.
    apply bind_ok_inv in Hup as (t & w4 & Ht & Hup).
    rewrite now_iso_run in Ht. inversion Ht; subst t w4. clear Ht.
    apply runAsync_ok_inv in Hup as (s' & Hs & ->). simpl in Hs.
    apply insert_invoice_ok_inv in Hs as (a & n & vs' & Ha & Hn & Hb & ->).
    rewrite Hvs in Hb. inversion Hb; subst vs'.
    assert (Hm : mem w3 = mem w).
    { destruct Hc as [(_ & _ & ->) | (_ & _ & ->)]; reflexivity. }
    assert (Htk : (ticks w <= ticks w3)%nat).
    { destruct Hc as [(_ & _ & ->) | (_ & _ & ->)]; simpl; lia. }
    match type of Hit with pull_items _ _ _ ?x = _ => exists vs, vb, a, n, x end.
    simpl. unfold lookup_rows. rewrite Hsel. simpl in Hit. rewrite Hm in Hit. rewrite Hm.
    repeat (split; [first [assumption | reflexivity | exact Hit | lia]|]).
    right. split; [reflexivity|]. exists cr, (ticks w3).
    split; [lia|]. split; [|split; [|reflexivity]].
    + intros Ht. destruct Hc as [(_ & Hc & _) | (Hf & _)]; [exact Hc | congruence].
    + intros Hf. destruct Hc as [(Ht & _) | (_ & Hc & _)]; [congruence | exact Hc].
  - apply bind_ok_inv in Hup as (t & w4 & Ht & Hup).
    rewrite now_iso_run in Ht. inversion Ht; subst t w4. clear Ht.
    apply runAsync_ok_inv in Hup as (s' & Hs & ->). simpl in Hs.
    apply update_invoice_ok_inv in Hs as (a & n & c & vs' & Ha & Hn & Hc & Hb & ->).
    rewrite Hvs in Hb. inversion Hb; subst vs'.
    match type of Hit with pull_items _ _ _ ?x = _ => exists vs, vb, a, n, x end.
    simpl. unfold lookup_rows. rewrite Hsel.
    repeat (split; [first [assumption | reflexivity | exact Hit | lia]|]).
    left. exists r0, tl, c. repeat split; assumption || reflexivity.
Qed.

(** ** Rows a pull leaves alone and rows it stamps *)

Lemma update_where_old_or_written {R} (cond : R -> bool) (f : R -> R) (t : Table R) r :
  In r (rows (update_where cond f t)) ->
  In r (rows t) \/ exists r1, In r1 (rows t) /\ r = f r1.
Proof.
  unfold update_where; simpl. intros H. apply in_map_iff in H as (r1 & Hr & Hin).
  destruct (cond r1); subst.
  - right. exists r1. split; [exact Hin | reflexivity].
  - left. exact Hin.
Qed.

Lemma insert_row_old_or_fresh {R} (key : R -> Z) (fresh : Z -> R) (t : Table R) r :
  In r (rows (insert_row key fresh t)) ->
  In r (rows t) \/ r = fresh (next_rowid key t).
Proof.
  unfold insert_row; simpl. intros H. apply in_app_or in H as [H|[H|[]]].
  - left. exact H.
  - right. symmetry. exact H.
Qed.

Lemma pull_item_ticks k it w w' :
  pull_item k it w = (Ok tt, w') -> ticks w' = ticks w.
Proof.
  unfold pull_item. intros H.
  apply bind_ok_inv in H as (found & w1 & Hq & H).
  rewrite querySql_run in Hq. inversion Hq; subst w1. clear Hq.
  destruct found as [|localProduct tl].
  - inversion H; subst. reflexivity.
  - apply runAsync_ok_inv in H as (s' & _ & ->). reflexivity.
Qed.

Lemma pull_items_ticks si existing sid w w' :
  pull_items si existing sid w = (Ok tt, w') -> ticks w' = ticks w.
Proof.
  unfold pull_items. destruct (ServerInvoice.items si) as [items|];
    [|intros H; inversion H; reflexivity].
  intros H. apply bind_ok_inv in H as (L & w1 & HL & H).
  assert (Hw1 : w1 = w).
  { destruct existing as [|e0 tl].
    - apply bind_ok_inv in HL as (ids & w2 & Hq & HL).
      rewrite querySql_run in Hq. inversion Hq; subst. inversion HL; reflexivity.
    - inversion HL; reflexivity. }
  subst w1. destruct L as [k|]; [|inversion H; reflexivity].
  destruct (k =? 0); [inversion H; reflexivity|].
  apply bind_ok_inv in H as ([] & w2 & Hd & H).
  apply runAsync_ok_inv in Hd as (s' & _ & ->).
  apply (for_of_preorder (fun a b => ticks b = ticks a)) in H.
  - exact H.
  - reflexivity.
  - intros; congruence.
  - intros it wa wb _. apply pull_item_ticks.
Qed.

Lemma stamped_before_le clk n m o :
  (n <= m)%nat -> stamped_before clk n o -> stamped_before clk m o.
Proof. intros Hle (k & Hk & E). exists k. split; [lia | exact E]. Qed.

Lemma pull_product_old_or_stamped clk sp w w' :
  pull_product clk sp w = (Ok tt, w') ->
  (ticks w <= ticks w')%nat
  /\ forall r, In r (rows (products (mem w'))) ->
       In r (rows (products (mem w)))
       \/ stamped_before clk (ticks w') (ProductRow.syncedAt r).
Proof.
  intros H.
  apply pull_product_shape in H
    as (vs & vb & n & c & sl & q & l & _ & _ & _ & _ & _ & _ & _ & _ & _ & Htk & Hshape).
  split; [lia|]. intros r Hr.
  destruct Hshape as [(r0 & tl & _ & Hp) | (_ & cr & k & Hk & _ & _ & Hp)];
    rewrite Hp in Hr.
  - apply update_where_old_or_written in Hr as [Hr | (r1 & _ & ->)];
      [left; exact Hr | right; exists (ticks w); split; [lia | reflexivity]].
  - apply insert_row_old_or_fresh in Hr as [Hr | ->];
      [left; exact Hr | right; exists k; split; [lia | reflexivity]].
Qed.

Lemma pull_invoice_old_or_stamped clk si w w' :
  pull_invoice clk si w = (Ok tt, w') ->
  (ticks w <= ticks w')%nat
  /\ forall r, In r (rows (invoices (mem w'))) ->
       In r (rows (invoices (mem w)))
       \/ stamped_before clk (ticks w') (InvoiceRow.syncedAt r).
Proof.
  intros H.
  apply pull_invoice_shape in H
    as (vs & vb & a & n & w1 & _ & _ & _ & _ & _ & _ & Htk & Hit & Hshape).
  pose proof (pull_items_ticks _ _ _ _ _ Hit) as Ht.
  apply pull_items_ok_inv in Hit as (_ & Hinv & _).
  split; [lia|]. intros r Hr. rewrite Hinv in Hr. rewrite Ht.
  destruct Hshape as [(r0 & tl & c & _ & _ & Hp) | (_ & cr & k & Hk & _ & _ & Hp)];
    rewrite Hp in Hr.
  - apply update_where_old_or_written in Hr as [Hr | (r1 & _ & ->)];
      [left; exact Hr | right; exists (ticks w); split; [lia | reflexivity]].
  - apply insert_row_old_or_fresh in Hr as [Hr | ->];
      [left; exact Hr | right; exists k; split; [lia | reflexivity]].
Qed.

Lemma pull_transaction_old_or_stamped clk snap w w' :
  pull_transaction clk snap w = (Ok tt, w') ->
  (forall r, In r (rows (products (mem w'))) ->
     In r (rows (products (mem w)))
     \/ stamped_before clk (ticks w') (ProductRow.syncedAt r))
  /\ (forall r, In r (rows (invoices (mem w'))) ->
        In r (rows (invoices (mem w)))
        \/ stamped_before clk (ticks w') (InvoiceRow.syncedAt r)).
Proof.
  unfold pull_transaction. intros H.
  apply bind_ok_inv in H as ([] & w1 & Hp & Hi).
  assert (HP : (ticks w <= ticks w1)%nat
               /\ forall r, In r (rows (products (mem w1))) ->
                    In r (rows (products (mem w)))
                    \/ stamped_before clk (ticks w1) (ProductRow.syncedAt r)).
  { refine (for_of_preorder
              (fun a b => (ticks a <= ticks b)%nat
                 /\ forall r, In r (rows (products (mem b))) ->
                      In r (rows (products (mem a)))
                      \/ stamped_before clk (ticks b) (ProductRow.syncedAt r))
              _ _ _ _ _ w w1 Hp).
    - intros w0. split; [lia|]. intros r Hr. left. exact Hr.
    - intros wa wb wc [L1 H1] [L2 H2]. split; [lia|]. intros r Hr.
      destruct (H2 r Hr) as [Hr2 | Hs]; [|right; exact Hs].
      destruct (H1 r Hr2) as [Hr1 | Hs]; [left; exact Hr1|].
      right. exact (stamped_before_le _ _ _ _ L2 Hs).
    - intros sp wa wb _. apply pull_product_old_or_stamped. }
  assert (HI : (ticks w1 <= ticks w')%nat
               /\ forall r, In r (rows (invoices (mem w'))) ->
                    In r (rows (invoices (mem w1)))
                    \/ stamped_before clk (ticks w') (InvoiceRow.syncedAt r)).
  { refine (for_of_preorder
              (fun a b => (ticks a <= ticks b)%nat
                 /\ forall r, In r (rows (invoices (mem b))) ->
                      In r (rows (invoices (mem a)))
                      \/ stamped_before clk (ticks b) (InvoiceRow.syncedAt r))
              _ _ _ _ _ w1 w' Hi).
    - intros w0. split; [lia|]. intros r Hr. left. exact Hr.
    - intros wa wb wc [L1 H1] [L2 H2]. split; [lia|]. intros r Hr.
      destruct (H2 r Hr) as [Hr2 | Hs]; [|right; exact Hs].
      destruct (H1 r Hr2) as [Hr1 | Hs]; [left; exact Hr1|].
      right. exact (stamped_before_le _ _ _ _ L2 Hs).
    - intros si wa wb _. apply pull_invoice_old_or_stamped. }
  destruct HP as [L1 HP], HI as [L2 HI]. split.
  - rewrite (pull_invoice_loop_products clk _ _ _ Hi). intros r Hr.
    destruct (HP r Hr) as [Hold | Hs]; [left; exact Hold|].
    right. exact (stamped_before_le _ _ _ _ L2 Hs).
  - assert (Hinv : invoices (mem w1) = invoices (mem w)).
    { refine (for_of_preorder (fun a b => invoices (mem b) = invoices (mem a))
                _ _ _ _ _ w w1 Hp).
      - reflexivity.
      - intros; congruence.
      - intros sp wa wb _ Hsp.
        apply pull_product_shape in Hsp
          as (vs & vb & n & c & sl & q & l & _ & _ & _ & _ & _ & _ & _ & Hinv & _).
        exact Hinv. }
    rewrite <- Hinv. exact HI.
Qed.

(** ** The request of push, row by row *)

Lemma invoice_with_items_fields invoice w y w1 :
  invoice_with_items invoice w = (Ok y, w1) ->
  ApiInvoice.id y = InvoiceRow.id invoice
  /\ ApiInvoice.totalAmount y = InvoiceRow.totalAmount invoice
  /\ ApiInvoice.totalItems y = InvoiceRow.totalItems invoice
  /\ ApiInvoice.createdAt y = InvoiceRow.createdAt invoice
  /\ (ApiInvoice._id y = JUndef <-> str_truthy (InvoiceRow.serverId invoice) = false).
Proof.
  unfold invoice_with_items. intros H.
  apply bind_ok_inv in H as (items & w2 & Hq & H).
  apply bind_ok_inv in H as (ys & w3 & Hm & H).
  unfold ret in H. inversion H; subst. simpl. repeat (split; [reflexivity|]).
  destruct (InvoiceRow.serverId invoice) as [s|]; simpl.
  - destruct (String.eqb s EmptyString); simpl; split; intros; congruence.
  - split; reflexivity.
Qed.

Lemma map_all_rows {A B} (f : A -> M B) (l : list A) :
  forall w ys w1,
    map_all f l w = (Ok ys, w1) ->
    forall y, In y ys -> exists x w2 w3, In x l /\ f x w2 = (Ok y, w3).
Proof.
  induction l as [|x l IH]; intros w ys w1 H y Hy; simpl in H.
  - inversion H; subst. destruct Hy.
  - apply bind_ok_inv in H as (y0 & w2 & Hy0 & H).
    apply bind_ok_inv in H as (ys0 & w3 & Hys & H).
    unfold ret in H. inversion H; subst. destruct Hy as [<- | Hy].
    + exists x, w, w2. split; [left; reflexivity | exact Hy0].
    + destruct (IH _ _ _ Hys y Hy) as (x' & wa & wb & Hin & Hf).
      exists x', wa, wb. split; [right; exact Hin | exact Hf].
Qed.

Lemma push_payload_inv clk deviceId w body w1 :
  push_payload clk deviceId w = (Ok body, w1) ->
  push_products body
  = map product_for_api
      (select_where
         (fun r => dirty_at (one_minute_before (clk (ticks w))) (ProductRow.syncedAt r))
         (products (mem w)))
  /\ (forall y, In y (push_invoices body) ->
        exists r wa wb,
          In r (select_where
                  (fun r => dirty_at (one_minute_before (clk (S (ticks w))))
                              (InvoiceRow.syncedAt r))
                  (invoices (mem w)))
          /\ invoice_with_items r wa = (Ok y, wb))
  /\ push_deviceId body = deviceId.
Proof.
  unfold push_payload. intros H.
  apply bind_ok_inv in H as (now1 & w2 & H1 & H).
  unfold Date_now in H1. inversion H1; subst now1 w2. clear H1.
  apply bind_ok_inv in H as (ps & w2 & H1 & H).
  unfold querySql, Sql.dirty_products in H1. simpl in H1. inversion H1; subst ps w2. clear H1.
  apply bind_ok_inv in H as (now2 & w2 & H1 & H).
  unfold Date_now in H1. simpl in H1. inversion H1; subst now2 w2. clear H1.
  apply bind_ok_inv in H as (vs & w2 & H1 & H).
  unfold querySql, Sql.dirty_invoices in H1. simpl in H1. inversion H1; subst vs w2. clear H1.
  apply bind_ok_inv in H as (ys & w2 & Hm & H).
  unfold ret in H. inversion H; subst. simpl. split; [reflexivity|]. split; [|reflexivity].
  intros y Hy. exact (map_all_rows _ _ _ _ _ Hm y Hy).
Qed.

(** X4. [fullSync] does not send back what it has just received.  When the
    readings of the clock up to the second dirty query, and the instants
    one minute before them, fall on one UTC date, every product and every
    invoice of the request that follows a successful pull is a row that was
    in the store before the pull and that the pull left as it was; no row
    written by the pull is pushed. *)
Theorem fullSync_pushes_no_pulled_row clk response deviceId snap w w1 body w2 :
  one_utc_date clk (ticks w2) ->
  pullFromServer clk response w = (Ok snap, w1) ->
  push_payload clk deviceId w1 = (Ok body, w2) ->
  (forall p, In p (push_products body) ->
     exists r, In r (rows (products (mem w)))
               /\ In r (rows (products (mem w1)))
               /\ p = product_for_api r)
  /\ (forall i, In i (push_invoices body) ->
        exists r, In r (rows (invoices (mem w)))
                  /\ In r (rows (invoices (mem w1)))
                  /\ ApiInvoice.id i = InvoiceRow.id r
                  /\ ApiInvoice.totalAmount i = InvoiceRow.totalAmount r
                  /\ ApiInvoice.createdAt i = InvoiceRow.createdAt r).
Proof.
  intros Hday Hpull Hbody.
  destruct response as [snap0|e]; [|discriminate].
  apply pullFromServer_ok_inv in Hpull as (_ & w0 & Htx & ->).
  apply pull_transaction_old_or_stamped in Htx as [Hps His].
  destruct (push_payload_total clk deviceId (saveDb w0)) as [body' Hb'].
  rewrite Hb' in Hbody. inversion Hbody; subst body' w2. clear Hbody.
  apply push_payload_inv in Hb' as (Hp & Hi & _). simpl in *. split.
  - intros p Hin. rewrite Hp in Hin. apply in_map_iff in Hin as (r & <- & Hr).
    apply filter_In in Hr as [Hr Hdirty].
    exists r. split; [|split; [exact Hr | reflexivity]].
    destruct (Hps r Hr) as [Hold | (k & Hlt & Hk)]; [exact Hold|].
    rewrite Hk, (same_date_never_dirty _ _ (Hday k (ticks w0) ltac:(lia) ltac:(lia)))
      in Hdirty.
    discriminate.
  - intros i Hin. destruct (Hi i Hin) as (r & wa & wb & Hr & Hy).
    apply filter_In in Hr as [Hr Hdirty].
    apply invoice_with_items_fields in Hy as (Hid & Ha & _ & Hc & _).
    exists r. split; [|repeat split; assumption].
    destruct (His r Hr) as [Hold | (k & Hlt & Hk)]; [exact Hold|].
    rewrite Hk, (same_date_never_dirty _ _ (Hday k (S (ticks w0)) ltac:(lia) ltac:(lia)))
      in Hdirty.
    discriminate.
Qed.

Lemma fullSync_pushes_no_pulled_row_witness :
  let w := fresh_world store_beans_oil in
  let response := Ok (mkSnapshot [salt] []) in
  let w1 := snd (pullFromServer ticking response w) in
  let body := mkPushPayload [product_for_api beans_local; product_for_api oil_old]
                [] "device_1" in
  (forall p, In p (push_products body) ->
     exists r, In r (rows (products (mem w)))
               /\ In r (rows (products (mem w1)))
               /\ p = product_for_api r)
  /\ (forall i, In i (push_invoices body) ->
        exists r, In r (rows (invoices (mem w)))
                  /\ In r (rows (invoices (mem w1)))
                  /\ ApiInvoice.id i = InvoiceRow.id r
                  /\ ApiInvoice.totalAmount i = InvoiceRow.totalAmount r
                  /\ ApiInvoice.createdAt i = InvoiceRow.createdAt r).
Proof.
  intros w response w1 body.
  apply (fullSync_pushes_no_pulled_row ticking response "device_1"
           (mkSnapshot [salt] []) w w1 body
           (snd (push_payload ticking "device_1" w1))).
  - intros i j Hi Hj. vm_compute in Hi, Hj.
    do 3 (destruct i as [|i]; [do 3 (destruct j as [|j]; [vm_compute; reflexivity|]); lia|]).
    lia.
  - vm_compute. reflexivity.
  - vm_compute. reflexivity.
Defined.

(** ** Pull: what stays in place *)

Lemma update_where_map_fixed {R B} (g : R -> B) (cond : R -> bool) (f : R -> R)
    (t : Table R) :
  (forall r, g (f r) = g r) ->
  map g (rows (update_where cond f t)) = map g (rows t).
Proof.
  intros Hg. unfold update_where; simpl. rewrite map_map. apply map_ext.
  intros r. destruct (cond r); [apply Hg | reflexivity].
Qed.

Lemma pull_product_in_place clk sp w w' :
  pull_product clk sp w = (Ok tt, w') ->
  exists new,
    map (fun r => (ProductRow.id r, ProductRow.createdAt r))
        (rows (products (mem w')))
    = map (fun r => (ProductRow.id r, ProductRow.createdAt r))
          (rows (products (mem w))) ++ new.
Proof.
  intros H.
  apply pull_product_shape in H
    as (vs & vb & n & c & sl & q & l & _ & _ & _ & _ & _ & _ & _ & _ & _ & _ & Hshape).
  destruct Hshape as [(r0 & tl & _ & ->) | (_ & cr & k & _ & _ & _ & ->)].
  - exists []. rewrite app_nil_r. apply update_where_map_fixed. reflexivity.
  - eexists. unfold insert_row; simpl. rewrite map_app. reflexivity.
Qed.

Lemma pull_invoice_in_place clk si w w' :
  pull_invoice clk si w = (Ok tt, w') ->
  exists new,
    map InvoiceRow.id (rows (invoices (mem w')))
    = map InvoiceRow.id (rows (invoices (mem w))) ++ new.
Proof.
  intros H.
  apply pull_invoice_shape in H
    as (vs & vb & a & n & w1 & _ & _ & _ & _ & _ & _ & _ & Hit & Hshape).
  apply pull_items_ok_inv in Hit as (_ & -> & _).
  destruct Hshape as [(r0 & tl & c & _ & _ & ->) | (_ & cr & k & _ & _ & _ & ->)].
  - exists []. rewrite app_nil_r. apply update_where_map_fixed. reflexivity.
  - eexists. unfold insert_row; simpl. rewrite map_app. reflexivity.
Qed.

Lemma pull_product_loop_invoices clk ps w w' :
  for_of ps (pull_product clk) w = (Ok tt, w') ->
  invoices (mem w') = invoices (mem w)
  /\ invoice_items (mem w') = invoice_items (mem w).
Proof.
  refine (for_of_preorder
            (fun a b => invoices (mem b) = invoices (mem a)
                        /\ invoice_items (mem b) = invoice_items (mem a))
            _ _ _ _ _ w w').
  - split; reflexivity.
  - intros wa wb wc [H1 H2] [H3 H4]. split; congruence.
  - intros sp wa wb _ Hsp.
    apply pull_product_shape in Hsp
      as (vs & vb & n & c & sl & q & l & _ & _ & _ & _ & _ & _ & _ & Hinv & Hit & _).
    split; assumption.
Qed.

(** X5. A successful pull deletes no product and no invoice and moves none:
    the rows that were there keep their row ids and their order, products
    keep their [createdAt] as well, and whatever the pull adds comes after
    them. *)
Theorem pull_keeps_rows_in_place clk response snap w w' :
  pullFromServer clk response w = (Ok snap, w') ->
  (exists new,
     map (fun r => (ProductRow.id r, ProductRow.createdAt r))
         (rows (products (mem w')))
     = map (fun r => (ProductRow.id r, ProductRow.createdAt r))
           (rows (products (mem w))) ++ new)
  /\ (exists new,
        map InvoiceRow.id (rows (invoices (mem w')))
        = map InvoiceRow.id (rows (invoices (mem w))) ++ new).
Proof.
  intros Hpull. destruct response as [snap0|e]; [|discriminate].
  apply pullFromServer_ok_inv in Hpull as (_ & w0 & Htx & ->). simpl.
  unfold pull_transaction in Htx.
  apply bind_ok_inv in Htx as ([] & w1 & Hp & Hi). split.
  - rewrite (pull_invoice_loop_products clk _ _ _ Hi).
    refine (for_of_preorder
              (fun a b => exists new,
                 map (fun r => (ProductRow.id r, ProductRow.createdAt r))
                     (rows (products (mem b)))
                 = map (fun r => (ProductRow.id r, ProductRow.createdAt r))
                       (rows (products (mem a))) ++ new)
              _ _ _ _ _ w w1 Hp).
    + intros wa. exists []. rewrite app_nil_r. reflexivity.
    + intros wa wb wc [n1 H1] [n2 H2]. exists (n1 ++ n2).
      rewrite H2, H1, app_assoc. reflexivity.
    + intros sp wa wb _. apply pull_product_in_place.
  - destruct (pull_product_loop_invoices clk _ _ _ Hp) as [Hinv _].
    rewrite <- Hinv.
    refine (for_of_preorder
              (fun a b => exists new,
                 map InvoiceRow.id (rows (invoices (mem b)))
                 = map InvoiceRow.id (rows (invoices (mem a))) ++ new)
              _ _ _ _ _ w1 w0 Hi).
    + intros wa. exists []. rewrite app_nil_r. reflexivity.
    + intros wa wb wc [n1 H1] [n2 H2]. exists (n1 ++ n2).
      rewrite H2, H1, app_assoc. reflexivity.
    + intros si wa wb _. apply pull_invoice_in_place.
Qed.

Lemma pull_keeps_rows_in_place_witness :
  let w := fresh_world store_with_sale in
  let w' := snd (pullFromServer ticking (Ok (mkSnapshot [salt; oil_new] [])) w) in
  (exists new,
     map (fun r => (ProductRow.id r, ProductRow.createdAt r))
         (rows (products (mem w')))
     = map (fun r => (ProductRow.id r, ProductRow.createdAt r))
           (rows (products (mem w))) ++ new)
  /\ (exists new,
        map InvoiceRow.id (rows (invoices (mem w')))
        = map InvoiceRow.id (rows (invoices (mem w))) ++ new).
Proof.
  intros w w'.
  apply (pull_keeps_rows_in_place ticking (Ok (mkSnapshot [salt; oil_new] []))
           (mkSnapshot [salt; oil_new] []) w w').
  vm_compute. reflexivity.
Defined.

(** X6. Invoice records that come without an items list leave the item
    rows alone: after a successful pull of a snapshot none of whose
    invoices has one, the invoice_items table is what it was, rows and
    AUTOINCREMENT counter alike. *)
Theorem pull_without_items_keeps_item_rows clk response snap w w' :
  (forall si, In si (snap_invoices snap) -> ServerInvoice.items si = None) ->
  pullFromServer clk response w = (Ok snap, w') ->
  invoice_items (mem w') = invoice_items (mem w).
Proof.
  intros Hnone Hpull. destruct response as [snap0|e]; [|discriminate].
  apply pullFromServer_ok_inv in Hpull as (<- & w0 & Htx & ->). simpl.
  unfold pull_transaction in Htx.
  apply bind_ok_inv in Htx as ([] & w1 & Hp & Hi).
  destruct (pull_product_loop_invoices clk _ _ _ Hp) as [_ Hit].
  rewrite <- Hit.
  refine (for_of_preorder
            (fun a b => invoice_items (mem b) = invoice_items (mem a))
            _ _ _ _ _ w1 w0 Hi).
  - reflexivity.
  - intros; congruence.
  - intros si wa wb Hin Hsi.
    apply pull_invoice_shape in Hsi
      as (vs & vb & a & n & w2 & _ & _ & _ & _ & _ & Hit2 & _ & Hpi & _).
    apply pull_items_ok_inv in Hpi as (_ & _ & Hkeep & _).
    rewrite (Hkeep (Hnone si Hin)). exact Hit2.
Qed.

Lemma pull_without_items_keeps_item_rows_witness :
  let w := fresh_world store_with_sale in
  let snap := mkSnapshot [salt] [sale_without_items] in
  invoice_items (mem (snd (pullFromServer ticking (Ok snap) w)))
  = invoice_items (mem w).
Proof.
  intros w snap.
  apply (pull_without_items_keeps_item_rows ticking (Ok snap) snap w).
  - intros si [<- | []]. reflexivity.
  - vm_compute. reflexivity.
Defined.

(** ** Pull: the three outcomes of the product lookup *)

Lemma lookup_no_sid_by_id {R} (key : R -> Z) (sidc : R -> option string)
    (vs vb : SqlVal) (t : Table R) :
  (forall r, In r (rows t) -> serverId_eq (sidc r) vs = false) ->
  lookup_rows key sidc vs vb t = select_where (fun r => id_eq (key r) vb) t.
Proof.
  intros Hno. unfold lookup_rows, select_where. apply filter_ext_in.
  intros r Hr. rewrite (Hno r Hr). reflexivity.
Qed.

Lemma serverId_eq_text col s :
  serverId_eq col (SText s) = true <-> col = Some s.
Proof.
  unfold serverId_eq; simpl. destruct col as [c|]; [|split; discriminate].
  rewrite String.eqb_eq. split; congruence.
Qed.

(** X7. The first contact of a local product with the server goes by the
    local id: when no product row carries the record's server id and the
    record's [id] is the id of a local row, a successful step of the
    product loop overwrites that row with the record's values and attaches
    the server id to it; the row keeps its id and [createdAt], and no row
    is added. *)
Theorem pull_adopts_row_by_local_id clk sp w w' sid k :
  ServerProduct._id sp = JStr sid ->
  sid <> EmptyString ->
  ServerProduct.id sp = JNum k ->
  (forall r, In r (rows (products (mem w))) -> ProductRow.serverId r <> Some sid) ->
  In k (map ProductRow.id (rows (products (mem w)))) ->
  pull_product clk sp w = (Ok tt, w') ->
  exists n c sl q l,
    ServerProduct.name sp = Val n
    /\ ServerProduct.costPrice sp = Val c
    /\ ServerProduct.sellingPrice sp = Val sl
    /\ ServerProduct.quantity sp = Val q
    /\ ServerProduct.lowStockLevel sp = Val l
    /\ seq (products (mem w')) = seq (products (mem w))
    /\ rows (products (mem w'))
       = map (fun r =>
                if ProductRow.id r =? k
                then ProductRow.mk k n c sl q l (ProductRow.createdAt r)
                       (Some (toISOString (clk (ticks w)))) (Some sid)
                else r)
             (rows (products (mem w))).
Proof.
  intros H_id Hsid Hid Hno Hk H.
  apply pull_product_shape in H
    as (vs & vb & n & c & sl & q & l & Hvs & Hvb & Hn & Hc & Hsl & Hq & Hl & _ & _ & _
        & Hshape).
  rewrite H_id, Hid in Hvs. unfold js_or in Hvs. simpl in Hvs.
  apply String.eqb_neq in Hsid. rewrite Hsid in Hvs. simpl in Hvs.
  inversion Hvs; subst vs. clear Hvs.
  rewrite Hid in Hvb. simpl in Hvb. inversion Hvb; subst vb. clear Hvb.
  assert (Hlook : lookup_rows ProductRow.id ProductRow.serverId (SText sid)
                    (bound_number k) (products (mem w))
                  = select_where (fun r => ProductRow.id r =? k) (products (mem w))).
  { rewrite lookup_no_sid_by_id.
    - unfold select_where. apply filter_ext. intros r. apply id_eq_bound_number.
    - intros r Hr.
      destruct (serverId_eq (ProductRow.serverId r) (SText sid)) eqn:E; [|reflexivity].
      apply serverId_eq_text in E. destruct (Hno r Hr E). }
  exists n, c, sl, q, l. repeat (split; [assumption|]).
  destruct Hshape as [(r0 & tl & Hsel & ->) | (Hsel & _)].
  - rewrite Hlook in Hsel.
    assert (Hr0 : In r0 (select_where (fun r => ProductRow.id r =? k) (products (mem w))))
      by (rewrite Hsel; left; reflexivity).
    apply filter_In in Hr0 as [_ Hr0]. apply Z.eqb_eq in Hr0. rewrite Hr0.
    split; [reflexivity|]. unfold update_where; simpl. apply map_ext.
    intros r. destruct (ProductRow.id r =? k) eqn:E; [|reflexivity].
    apply Z.eqb_eq in E. rewrite E. reflexivity.
  - exfalso. rewrite Hlook in Hsel.
    apply in_map_iff in Hk as (r & Hr & Hin).
    assert (Hr0 : In r (select_where (fun r => ProductRow.id r =? k) (products (mem w)))).
    { apply filter_In. split; [exact Hin | apply Z.eqb_eq; exact Hr]. }
    rewrite Hsel in Hr0. destruct Hr0.
Qed.

(** X8. A record that matches no local product is appended: when no row
    carries the record's server id and none has the record's [id] as its
    row id, a successful step of the product loop adds exactly one row
    after the existing ones, under the next AUTOINCREMENT id, with the
    record's values and server id, the record's [createdAt] when it has
    one, and a stamp read from the clock; the existing rows stay as they
    are. *)
Theorem pull_appends_unknown_product clk sp w w' sid k :
  ServerProduct._id sp = JStr sid ->
  sid <> EmptyString ->
  ServerProduct.id sp = JNum k ->
  (forall r, In r (rows (products (mem w))) -> ProductRow.serverId r <> Some sid) ->
  ~ In k (map ProductRow.id (rows (products (mem w)))) ->
  pull_product clk sp w = (Ok tt, w') ->
  exists n c sl q l cr j,
    ServerProduct.name sp = Val n
    /\ ServerProduct.costPrice sp = Val c
    /\ ServerProduct.sellingPrice sp = Val sl
    /\ ServerProduct.quantity sp = Val q
    /\ ServerProduct.lowStockLevel sp = Val l
    /\ (str_truthy (present (ServerProduct.createdAt sp)) = true ->
        ServerProduct.createdAt sp = Val cr)
    /\ (str_truthy (present (ServerProduct.createdAt sp)) = false ->
        cr = toISOString (clk (ticks w)))
    /\ (ticks w <= j < ticks w')%nat
    /\ rows (products (mem w'))
       = rows (products (mem w))
         ++ [ProductRow.mk (next_rowid ProductRow.id (products (mem w)))
               n c sl q l cr (Some (toISOString (clk j))) (Some sid)]
    /\ seq (products (mem w')) = next_rowid ProductRow.id (products (mem w)).
Proof.
  intros H_id Hsid Hid Hno Hk H.
  apply pull_product_shape in H
    as (vs & vb & n & c & sl & q & l & Hvs & Hvb & Hn & Hc & Hsl & Hq & Hl & _ & _ & _
        & Hshape).
  rewrite H_id, Hid in Hvs. unfold js_or in Hvs. simpl in Hvs.
  apply String.eqb_neq in Hsid. rewrite Hsid in Hvs. simpl in Hvs.
  inversion Hvs; subst vs. clear Hvs.
  rewrite Hid in Hvb. simpl in Hvb. inversion Hvb; subst vb. clear Hvb.
  assert (Hlook : lookup_rows ProductRow.id ProductRow.serverId (SText sid)
                    (bound_number k) (products (mem w))
                  = select_where (fun r => ProductRow.id r =? k) (products (mem w))).
  { rewrite lookup_no_sid_by_id.
    - unfold select_where. apply filter_ext. intros r. apply id_eq_bound_number.
    - intros r Hr.
      destruct (serverId_eq (ProductRow.serverId r) (SText sid)) eqn:E; [|reflexivity].
      apply serverId_eq_text in E. destruct (Hno r Hr E). }
  destruct Hshape as [(r0 & tl & Hsel & _) | (_ & cr & j & Hj & Hcr1 & Hcr2 & ->)].
  - exfalso. rewrite Hlook in Hsel.
    assert (Hr0 : In r0 (select_where (fun r => ProductRow.id r =? k) (products (mem w))))
      by (rewrite Hsel; left; reflexivity).
    apply filter_In in Hr0 as [Hin Hr0]. apply Z.eqb_eq in Hr0.
    apply Hk. rewrite <- Hr0. apply in_map. exact Hin.
  - exists n, c, sl, q, l, cr, j. repeat (split; [assumption|]).
    split; reflexivity.
Qed.

Lemma pull_adopts_row_by_local_id_witness :
  let w := fresh_world store_beans_oil in
  let w' := snd (pull_product ticking beans_on_server w) in
  exists n c sl q l,
    ServerProduct.name beans_on_server = Val n
    /\ ServerProduct.costPrice beans_on_server = Val c
    /\ ServerProduct.sellingPrice beans_on_server = Val sl
    /\ ServerProduct.quantity beans_on_server = Val q
    /\ ServerProduct.lowStockLevel beans_on_server = Val l
    /\ seq (products (mem w')) = seq (products (mem w))
    /\ rows (products (mem w'))
       = map (fun r =>
                if ProductRow.id r =? 1
                then ProductRow.mk 1 n c sl q l (ProductRow.createdAt r)
                       (Some (toISOString (ticking (ticks w)))) (Some "bns")
                else r)
             (rows (products (mem w))).
Proof.
  intros w w'.
  apply (pull_adopts_row_by_local_id ticking beans_on_server w w' "bns" 1).
  - reflexivity.
  - discriminate.
  - reflexivity.
  - intros r [<- | [<- | []]]; discriminate.
  - left. reflexivity.
  - vm_compute. reflexivity.
Defined.

Lemma pull_appends_unknown_product_witness :
  let w := fresh_world store_beans_oil in
  let w' := snd (pull_product ticking salt w) in
  exists n c sl q l cr j,
    ServerProduct.name salt = Val n
    /\ ServerProduct.costPrice salt = Val c
    /\ ServerProduct.sellingPrice salt = Val sl
    /\ ServerProduct.quantity salt = Val q
    /\ ServerProduct.lowStockLevel salt = Val l
    /\ (str_truthy (present (ServerProduct.createdAt salt)) = true ->
        ServerProduct.createdAt salt = Val cr)
    /\ (str_truthy (present (ServerProduct.createdAt salt)) = false ->
        cr = toISOString (ticking (ticks w)))
    /\ (ticks w <= j < ticks w')%nat
    /\ rows (products (mem w'))
       = rows (products (mem w))
         ++ [ProductRow.mk (next_rowid ProductRow.id (products (mem w)))
               n c sl q l cr (Some (toISOString (ticking j))) (Some "slt")]
    /\ seq (products (mem w')) = next_rowid ProductRow.id (products (mem w)).
Proof.
  intros w w'.
  apply (pull_appends_unknown_product ticking salt w w' "slt" 60).
  - reflexivity.
  - discriminate.
  - reflexivity.
  - intros r [<- | [<- | []]]; discriminate.
  - intros [H | [H | []]]; discriminate.
  - vm_compute. reflexivity.
Defined.

(** ** Push: what the request carries *)

Lemma map_all_Forall2 {A B} (f : A -> M B) (l : list A) :
  (forall x w, exists y, f x w = (Ok y, w)) ->
  forall w ys w1,
    map_all f l w = (Ok ys, w1) ->
    w1 = w /\ Forall2 (fun x y => f x w = (Ok y, w)) l ys.
Proof.
  intros Hf. induction l as [|x l IH]; intros w ys w1 H; simpl in H.
  - inversion H; subst. split; [reflexivity | constructor].
  - apply bind_ok_inv in H as (y0 & w2 & Hy0 & H).
    destruct (Hf x w) as [y' Hy']. rewrite Hy' in Hy0. inversion Hy0; subst y' w2.
    apply bind_ok_inv in H as (ys0 & w3 & Hys & H).
    unfold ret in H. inversion H; subst.
    destruct (IH _ _ _ Hys) as [-> HF]. split; [reflexivity|].
    constructor; assumption.
Qed.

Lemma Forall2_In_l {A B} (P : A -> B -> Prop) (l : list A) (l' : list B) (x : A) :
  Forall2 P l l' -> In x l -> exists y, In y l' /\ P x y.
Proof.
  induction 1 as [|a b l l' Hab _ IH]; intros Hin; [destruct Hin|].
  destruct Hin as [<- | Hin].
  - exists b. split; [left; reflexivity | exact Hab].
  - destruct (IH Hin) as (y & Hy & HP). exists y. split; [right; exact Hy | exact HP].
Qed.

Lemma push_payload_invoices clk deviceId w body w1 :
  push_payload clk deviceId w = (Ok body, w1) ->
  Forall2 (fun r y => invoice_with_items r w1 = (Ok y, w1))
    (select_where
       (fun r => dirty_at (one_minute_before (clk (S (ticks w)))) (InvoiceRow.syncedAt r))
       (invoices (mem w)))
    (push_invoices body)
  /\ mem w1 = mem w.
Proof.
  unfold push_payload. intros H.
  apply bind_ok_inv in H as (now1 & w2 & H1 & H).
  unfold Date_now in H1. inversion H1; subst now1 w2. clear H1.
  apply bind_ok_inv in H as (ps & w2 & H1 & H).
  unfold querySql, Sql.dirty_products in H1. simpl in H1. inversion H1; subst ps w2. clear H1.
  apply bind_ok_inv in H as (now2 & w2 & H1 & H).
  unfold Date_now in H1. simpl in H1. inversion H1; subst now2 w2. clear H1.
  apply bind_ok_inv in H as (vs & w2 & H1 & H).
  unfold querySql, Sql.dirty_invoices in H1. simpl in H1. inversion H1; subst vs w2. clear H1.
  apply bind_ok_inv in H as (ys & w2 & Hm & H).
  apply (map_all_Forall2 _ _ (fun x w => invoice_with_items_readonly x w)) in Hm
    as [Hw2 HF]. subst w2.
  unfold ret in H. inversion H; subst. simpl. split; [exact HF | reflexivity].
Qed.

Lemma invoice_with_items_items invoice w y w1 :
  invoice_with_items invoice w = (Ok y, w1) ->
  Forall2
    (fun it a =>
       ApiItem.quantity a = InvoiceItemRow.quantity it
       /\ ApiItem.price a = InvoiceItemRow.price it
       /\ ApiItem.productId a
          = (if str_truthy (InvoiceRow.serverId invoice)
             then Some (InvoiceItemRow.productId it) else None)
       /\ ApiItem.productName a
          = match select_where
                    (fun p => ProductRow.id p =? InvoiceItemRow.productId it)
                    (products (mem w)) with
            | p :: _ => if String.eqb (ProductRow.name p) EmptyString
                        then "Unknown" else ProductRow.name p
            | [] => "Unknown"
            end)
    (items_of (InvoiceRow.id invoice) (mem w))
    (ApiInvoice.items y).
Proof.
  unfold invoice_with_items. intros H.
  apply bind_ok_inv in H as (items & w2 & Hq & H).
  rewrite querySql_run in Hq. inversion Hq; subst items w2. clear Hq.
  apply bind_ok_inv in H as (ys & w3 & Hm & H).
  apply (map_all_Forall2 _ _ (fun x w => item_with_name_readonly invoice x w)) in Hm
    as [Hw3 HF]. subst w3.
  unfold ret in H. inversion H; subst. simpl.
  unfold items_of. simpl in HF.
  revert HF. apply Forall2_impl. intros it a Ha.
  unfold item_with_name, bind, querySql, ret in Ha. simpl in Ha.
  inversion Ha; subst a. simpl. repeat (split; [reflexivity|]).
  match goal with
  | |- context [select_where ?f (products ?m)] =>
      destruct (select_where f (products m)) as [|p tl]; reflexivity
  end.
Qed.

(** X9. A row that was never synced is always sent: the request of push
    carries every product whose [syncedAt] is NULL, with the row's own
    values, and an entry for every invoice whose [syncedAt] is NULL, under
    the invoice's local id and with its totals and creation time. *)
Theorem never_synced_rows_are_pushed clk deviceId w :
  exists body w1,
    push_payload clk deviceId w = (Ok body, w1)
    /\ (forall r, In r (rows (products (mem w))) ->
          ProductRow.syncedAt r = None ->
          In (product_for_api r) (push_products body))
    /\ (forall r, In r (rows (invoices (mem w))) ->
          InvoiceRow.syncedAt r = None ->
          exists y, In y (push_invoices body)
                    /\ ApiInvoice.id y = InvoiceRow.id r
                    /\ ApiInvoice.totalAmount y = InvoiceRow.totalAmount r
                    /\ ApiInvoice.totalItems y = InvoiceRow.totalItems r
                    /\ ApiInvoice.createdAt y = InvoiceRow.createdAt r).
Proof.
  destruct (push_payload_total clk deviceId w) as [body Hbody].
  exists body, (mkWorld (mem w) (idb w) (S (S (ticks w)))).
  split; [exact Hbody|].
  destruct (push_payload_inv _ _ _ _ _ Hbody) as (Hp & _ & _).
  destruct (push_payload_invoices _ _ _ _ _ Hbody) as [HF _]. split.
  - intros r Hr Hnull. rewrite Hp. apply in_map. apply filter_In.
    split; [exact Hr|]. rewrite Hnull. reflexivity.
  - intros r Hr Hnull.
    assert (Hsel : In r (select_where
               (fun r => dirty_at (one_minute_before (clk (S (ticks w))))
                           (InvoiceRow.syncedAt r))
               (invoices (mem w)))).
    { apply filter_In. split; [exact Hr|]. rewrite Hnull. reflexivity. }
    destruct (Forall2_In_l _ _ _ _ HF Hsel) as (y & Hy & Hrun).
    apply invoice_with_items_fields in Hrun as (Hid & Ha & Hn & Hc & _).
    exists y. repeat split; assumption.
Qed.

(** X10. The items of a pushed invoice are its local item rows, one entry
    for each row and in their order, with the row's quantity and price.
    The product is named by the [name] of the local product row, or
    'Unknown' when that row is missing or its name is empty; the local
    product id is sent only for an invoice that already has a server id,
    and is null on every item of an invoice that has none. *)
Theorem pushed_invoice_items clk deviceId w body w1 y :
  push_payload clk deviceId w = (Ok body, w1) ->
  In y (push_invoices body) ->
  exists r,
    In r (rows (invoices (mem w)))
    /\ ApiInvoice.id y = InvoiceRow.id r
    /\ Forall2
         (fun it a =>
            ApiItem.quantity a = InvoiceItemRow.quantity it
            /\ ApiItem.price a = InvoiceItemRow.price it
            /\ ApiItem.productId a
               = (if str_truthy (InvoiceRow.serverId r)
                  then Some (InvoiceItemRow.productId it) else None)
            /\ ApiItem.productName a
               = match select_where
                         (fun p => ProductRow.id p =? InvoiceItemRow.productId it)
                         (products (mem w)) with
                 | p :: _ => if String.eqb (ProductRow.name p) EmptyString
                             then "Unknown" else ProductRow.name p
                 | [] => "Unknown"
                 end)
         (items_of (InvoiceRow.id r) (mem w))
         (ApiInvoice.items y).
Proof.
  intros Hbody Hy.
  destruct (push_payload_invoices _ _ _ _ _ Hbody) as [HF Hm].
  destruct (Forall2_In_r _ _ _ _ HF Hy) as (r & Hr & Hrun).
  apply filter_In in Hr as [Hr _].
  exists r. split; [exact Hr|].
  split; [apply (invoice_with_items_fields _ _ _ _ Hrun)|].
  apply invoice_with_items_items in Hrun. rewrite Hm in Hrun. exact Hrun.
Qed.

Lemma pushed_invoice_items_witness :
  let w := fresh_world store_with_sale in
  let y := ApiInvoice.mk JUndef 1 60 2 "2024-01-01T08:30:00.000Z"
             [ApiItem.mk None "Beans" 2 30] in
  exists r,
    In r (rows (invoices (mem w)))
    /\ ApiInvoice.id y = InvoiceRow.id r
    /\ Forall2
         (fun it a =>
            ApiItem.quantity a = InvoiceItemRow.quantity it
            /\ ApiItem.price a = InvoiceItemRow.price it
            /\ ApiItem.productId a
               = (if str_truthy (InvoiceRow.serverId r)
                  then Some (InvoiceItemRow.productId it) else None)
            /\ ApiItem.productName a
               = match select_where
                         (fun p => ProductRow.id p =? InvoiceItemRow.productId it)
                         (products (mem w)) with
                 | p :: _ => if String.eqb (ProductRow.name p) EmptyString
                             then "Unknown" else ProductRow.name p
                 | [] => "Unknown"
                 end)
         (items_of (InvoiceRow.id r) (mem w))
         (ApiInvoice.items y).
Proof.
  intros w y.
  apply (pushed_invoice_items ticking "device_1" w
           (mkPushPayload [product_for_api beans_local; product_for_api oil_old]
              [y] "device_1")
           (snd (push_payload ticking "device_1" w)) y).
  - vm_compute. reflexivity.
  - left. reflexivity.
Defined.

(** X11. The dirty query looks at the date of a stamp, not at its age: a
    product whose [syncedAt] was written by [toISOString] on the UTC date
    of the instant one minute before the query is left out of the request,
    however long before the query on that date it was stamped. *)
Theorem same_day_stamp_is_never_pushed clk deviceId w body w1 r t :
  distinct_ids ProductRow.id (products (mem w)) ->
  In r (rows (products (mem w))) ->
  ProductRow.syncedAt r = Some (toISOString t) ->
  date_text t = date_text (clk (ticks w) - 60000) ->
  push_payload clk deviceId w = (Ok body, w1) ->
  ~ In (ProductRow.id r) (map ApiProduct.id (push_products body)).
Proof.
  intros Hd Hr Hs Hdate Hbody Hin.
  apply push_payload_inv in Hbody as (Hp & _ & _). rewrite Hp in Hin.
  rewrite map_map in Hin. apply in_map_iff in Hin as (r' & Hid & Hr').
  apply filter_In in Hr' as [Hr' Hdirty]. simpl in Hid.
  assert (r' = r) by (apply (same_key_same_row ProductRow.id (rows (products (mem w))));
                      assumption).
  subst r'. rewrite Hs, (same_date_never_dirty _ _ Hdate) in Hdirty. discriminate.
Qed.

Lemma same_day_stamp_is_never_pushed_witness :
  ~ In (ProductRow.id rice_synced_at_ten)
       (map ApiProduct.id
          (push_products (mkPushPayload [] [] "device_1"))).
Proof.
  apply (same_day_stamp_is_never_pushed ticking "device_1"
           (fresh_world store_synced_at_ten)
           (mkPushPayload [] [] "device_1")
           (snd (push_payload ticking "device_1" (fresh_world store_synced_at_ten)))
           rice_synced_at_ten (noon - 7200000)).
  - repeat constructor. intros [].
  - left. reflexivity.
  - reflexivity.
  - vm_compute. reflexivity.
  - vm_compute. reflexivity.
Defined.

(** ** initDatabase *)

Lemma initDatabase_run w :
  initDatabase w
  = (Ok tt,
     let s := mkStore
                (update_where (fun _ => true)
                   (fun r => ProductRow.mk (ProductRow.id r) (ProductRow.name r)
                               (ProductRow.costPrice r) (ProductRow.sellingPrice r)
                               (ProductRow.quantity r)
                               (InitSql.low_stock_case (ProductRow.quantity r))
                               (ProductRow.createdAt r) (ProductRow.syncedAt r)
                               (ProductRow.serverId r))
                   (products (mem w)))
                (invoices (mem w)) (invoice_items (mem w)) in
     mkWorld s (Some s) (ticks w)).
Proof. reflexivity. Qed.

Lemma low_stock_case_below (q : Z) :
  q <= InitSql.low_stock_case q <-> q <= 0.
Proof.
  unfold InitSql.low_stock_case.
  destruct (q >? 10) eqn:E1; [apply Z.gtb_lt in E1; lia|].
  destruct (q >? 4) eqn:E2; [apply Z.gtb_lt in E2; lia|].
  lia.
Qed.

(** X12. Every [initDatabase] recomputes the low-stock level of every
    product from its quantity (5 above ten units, 2 above four, else 0),
    whatever level was stored, be it entered or pulled from the server;
    nothing else changes. Afterwards the quantity of a product is at or
    below its level exactly when it is not positive. *)
Theorem initDatabase_recomputes_low_stock w :
  exists w',
    initDatabase w = (Ok tt, w')
    /\ map product_but_low_stock (rows (products (mem w')))
       = map product_but_low_stock (rows (products (mem w)))
    /\ seq (products (mem w')) = seq (products (mem w))
    /\ invoices (mem w') = invoices (mem w)
    /\ invoice_items (mem w') = invoice_items (mem w)
    /\ forall r, In r (rows (products (mem w'))) ->
         ProductRow.lowStockLevel r = InitSql.low_stock_case (ProductRow.quantity r)
         /\ (ProductRow.quantity r <= ProductRow.lowStockLevel r
             <-> ProductRow.quantity r <= 0).
Proof.
  eexists. split; [apply initDatabase_run|]. simpl.
  split; [|split; [reflexivity|split; [reflexivity|split; [reflexivity|]]]].
  - rewrite map_map. apply map_ext. intros r. reflexivity.
  - intros r Hr. apply in_map_iff in Hr as (r0 & <- & _). simpl.
    split; [reflexivity|]. apply low_stock_case_below.
Qed.

(** X13. [initDatabase] is idempotent: run on the world a first run left,
    it succeeds and changes nothing, in memory or in the export. *)
Theorem initDatabase_idempotent w :
  initDatabase (snd (initDatabase w)) = (Ok tt, snd (initDatabase w)).
Proof.
  rewrite (initDatabase_run w). simpl. rewrite initDatabase_run. simpl.
  assert (E : forall t : Table ProductRow.t,
            update_where (fun _ => true)
              (fun r => ProductRow.mk (ProductRow.id r) (ProductRow.name r)
                          (ProductRow.costPrice r) (ProductRow.sellingPrice r)
                          (ProductRow.quantity r)
                          (InitSql.low_stock_case (ProductRow.quantity r))
                          (ProductRow.createdAt r) (ProductRow.syncedAt r)
                          (ProductRow.serverId r))
              (update_where (fun _ => true)
                 (fun r => ProductRow.mk (ProductRow.id r) (ProductRow.name r)
                             (ProductRow.costPrice r) (ProductRow.sellingPrice r)
                             (ProductRow.quantity r)
                             (InitSql.low_stock_case (ProductRow.quantity r))
                             (ProductRow.createdAt r) (ProductRow.syncedAt r)
                             (ProductRow.serverId r)) t)
            = update_where (fun _ => true)
                (fun r => ProductRow.mk (ProductRow.id r) (ProductRow.name r)
                            (ProductRow.costPrice r) (ProductRow.sellingPrice r)
                            (ProductRow.quantity r)
                            (InitSql.low_stock_case (ProductRow.quantity r))
                            (ProductRow.createdAt r) (ProductRow.syncedAt r)
                            (ProductRow.serverId r)) t).
  { intros t. unfold update_where; simpl. rewrite map_map. reflexivity. }
  rewrite E. reflexivity.
Qed.

(** ** The transport *)

(** X14. [checkServerConnection] answers true exactly when the GET of
    /health was answered with a success status and a JSON body. A rejected
    request, a status outside 200..299 and a success status whose body is
    not JSON all count as no connection, and none of them throws. *)
Theorem checkServerConnection_true_iff {T} (health : FetchOutcome T) :
  checkServerConnection health = true
  <-> exists statusText error value,
        health = FetchResponds true statusText (Json error value).
Proof.
  unfold checkServerConnection, checkConnection, api_request. split.
  - destruct health as [te m | [|] st [m | e v]]; try discriminate.
    + destruct (te && includes "fetch" m); discriminate.
    + intros _. exists st, e, v. reflexivity.
  - intros (st & e & v & ->). reflexivity.
Qed.

Lemma api_request_throw {T} (outcome : FetchOutcome T) :
  (forall statusText error value,
     outcome <> FetchResponds true statusText (Json error value)) ->
  exists message : string, api_request outcome = Throw message.
Proof.
  intros Hno. unfold api_request.
  destruct outcome as [te m | [|] st [m | e v]].
  - destruct (te && includes "fetch" m); eexists; reflexivity.
  - eexists; reflexivity.
  - destruct (Hno st e v eq_refl).
  - eexists; reflexivity.
  - eexists; reflexivity.
Qed.

(** X15. A pull whose request fails touches nothing. Whenever the GET of
    /sync/all is not answered with a success status and a JSON body,
    [pullFromServer] throws the error of the request behind its prefix, and
    the in-memory database, its export and the clock are what they were:
    no statement ran and no transaction was opened. *)
Theorem pull_request_failure_keeps_world clk (outcome : FetchOutcome Snapshot) w :
  (forall statusText error value,
     outcome <> FetchResponds true statusText (Json error value)) ->
  exists message : string,
    api_request outcome = Throw message
    /\ pullFromServer clk (api_request outcome) w
       = (Throw ("Failed to pull from server: " ++ message), w).
Proof.
  intros Hno. destruct (api_request_throw outcome Hno) as [m Hm].
  exists m. split; [exact Hm|]. rewrite Hm. reflexivity.
Qed.

Lemma pull_request_failure_keeps_world_witness :
  exists message : string,
    api_request (FetchRejects true "Failed to fetch" : FetchOutcome Snapshot)
    = Throw message
    /\ pullFromServer ticking (api_request (FetchRejects true "Failed to fetch"))
         (fresh_world store_beans_oil)
       = (Throw ("Failed to pull from server: " ++ message),
          fresh_world store_beans_oil).
Proof.
  apply (pull_request_failure_keeps_world ticking
           (FetchRejects true "Failed to fetch") (fresh_world store_beans_oil)).
  intros statusText error value. discriminate.
Defined.

(** ** getDeviceId *)

Lemma new_device_id_truthy entropy k :
  str_truthy (Some (new_device_id entropy k)) = true.
Proof. reflexivity. Qed.

(** X16. With a SecureStore whose calls succeed the device identifier is
    made up at most once: a call of [getDeviceId] that follows another
    returns the identifier the first one returned, makes up none and
    leaves the store as it is. *)
Theorem getDeviceId_is_kept entropy d :
  store_works d ->
  getDeviceId entropy (snd (getDeviceId entropy d))
  = (fst (getDeviceId entropy d), snd (getDeviceId entropy d))
  /\ store_works (snd (getDeviceId entropy d)).
Proof.
  intros (store & Hs & Hg & Hp).
  assert (E : getDeviceId entropy d
              = if str_truthy (item store)
                then (match item store with Some id => id | None => EmptyString end, d)
                else (new_device_id entropy (generated d),
                      mkDevice (Some (mkSecureStore false false
                                        (Some (new_device_id entropy (generated d)))))
                               (S (generated d)))).
  { unfold getDeviceId. rewrite Hs, Hg, Hp. reflexivity. }
  rewrite E. destruct (str_truthy (item store)) eqn:Ht.
  - cbn [fst snd]. rewrite E. rewrite ?Ht. split; [reflexivity|].
    exists store. repeat split; assumption.
  - simpl. split; [reflexivity|].
    eexists. split; [reflexivity|]. split; reflexivity.
Qed.

Lemma getDeviceId_is_kept_witness :
  let d := mkDevice (Some (mkSecureStore false false None)) 0 in
  let entropy := fun k : nat => text_of_int (1704110400000 + Z.of_nat k) in
  getDeviceId entropy (snd (getDeviceId entropy d))
  = (fst (getDeviceId entropy d), snd (getDeviceId entropy d))
  /\ store_works (snd (getDeviceId entropy d)).
Proof.
  intros d entropy. apply (getDeviceId_is_kept entropy d).
  exists (mkSecureStore false false None). repeat split.
Defined.

(** X17. Without a usable SecureStore nothing is kept: when the import of
    the module failed or reading the item throws, every call of
    [getDeviceId] makes up a new identifier, so two calls in a row return
    different identifiers as soon as the made-up texts differ. *)
Theorem getDeviceId_without_store_is_new_each_time entropy d :
  secure_store d = None
  \/ (exists store, secure_store d = Some store /\ getItem_throws store = true) ->
  fst (getDeviceId entropy d) = new_device_id entropy (generated d)
  /\ fst (getDeviceId entropy (snd (getDeviceId entropy d)))
     = new_device_id entropy (S (generated d))
  /\ (entropy (generated d) <> entropy (S (generated d)) ->
      fst (getDeviceId entropy (snd (getDeviceId entropy d)))
      <> fst (getDeviceId entropy d)).
Proof.
  intros H.
  assert (E : forall d0, secure_store d0 = secure_store d ->
                getDeviceId entropy d0
                = (new_device_id entropy (generated d0),
                   mkDevice (secure_store d0) (S (generated d0)))).
  { intros d0 Hd0. unfold getDeviceId. rewrite Hd0.
    destruct H as [-> | (store & -> & ->)]; reflexivity. }
  rewrite (E d eq_refl). cbn [fst snd].
  rewrite (E (mkDevice (secure_store d) (S (generated d))) eq_refl). cbn [fst snd generated].
  split; [reflexivity|]. split; [reflexivity|].
  intros Hne Heq. apply Hne. unfold new_device_id in Heq.
  simpl in Heq. inversion Heq. reflexivity.
Qed.

Lemma getDeviceId_without_store_is_new_each_time_witness :
  let d := mkDevice None 0 in
  let entropy := fun k : nat => text_of_int (1704110400000 + Z.of_nat k) in
  fst (getDeviceId entropy d) = new_device_id entropy (generated d)
  /\ fst (getDeviceId entropy (snd (getDeviceId entropy d)))
     = new_device_id entropy (S (generated d))
  /\ (entropy (generated d) <> entropy (S (generated d)) ->
      fst (getDeviceId entropy (snd (getDeviceId entropy d)))
      <> fst (getDeviceId entropy d)).
Proof.
  intros d entropy.
  apply (getDeviceId_without_store_is_new_each_time entropy d).
  left. reflexivity.
Defined.

(** ** initSyncTables *)

Lemma same_column_refl c : same_column c c = true.
Proof. unfold same_column. apply String.eqb_refl. Qed.

Lemma existsb_snoc_same c l : existsb (same_column c) (l ++ [c]) = true.
Proof.
  rewrite existsb_app. simpl. rewrite same_column_refl.
  rewrite Bool.orb_true_r. reflexivity.
Qed.

Lemma existsb_snoc_keep c c' l :
  existsb (same_column c) l = true -> existsb (same_column c) (l ++ [c']) = true.
Proof. intros H. rewrite existsb_app, H. reflexivity. Qed.

(** The two ALTER statements of one table, each in its try block. *)
Lemma add_both_columns (table : string) (l : list string) :
  exists added,
    match add_column table "serverId"
            (match add_column table "syncedAt" (Some l) with
             | Ok c => c
             | Throw _ => Some l
             end) with
    | Ok c => c
    | Throw _ => match add_column table "syncedAt" (Some l) with
                 | Ok c => c
                 | Throw _ => Some l
                 end
    end = Some (l ++ added)
    /\ has_column "syncedAt" (Some (l ++ added)) = true
    /\ has_column "serverId" (Some (l ++ added)) = true
    /\ (has_column "syncedAt" (Some l) = true ->
        has_column "serverId" (Some l) = true -> added = []).
Proof.
  unfold add_column, has_column.
  destruct (existsb (same_column "syncedAt") l) eqn:E1.
  - destruct (existsb (same_column "serverId") l) eqn:E2.
    + exists []. rewrite app_nil_r. repeat split; assumption || reflexivity.
    + exists ["serverId"]. split; [reflexivity|].
      split; [apply existsb_snoc_keep; exact E1|].
      split; [apply existsb_snoc_same | discriminate].
  - destruct (existsb (same_column "serverId") (l ++ ["syncedAt"])) eqn:E2.
    + exists ["syncedAt"]. split; [reflexivity|].
      split; [apply existsb_snoc_same|]. split; [exact E2 | discriminate].
    + exists ["syncedAt"; "serverId"].
      replace (l ++ ["syncedAt"; "serverId"]) with ((l ++ ["syncedAt"]) ++ ["serverId"])
        by (rewrite <- app_assoc; reflexivity).
      split; [reflexivity|].
      split; [apply existsb_snoc_keep; apply existsb_snoc_same|].
      split; [apply existsb_snoc_same | discriminate].
Qed.

Lemma initSyncTables_run s :
  initSyncTables s
  = mkSchema
      (match products_columns s with
       | Some l =>
           match add_column "products" "serverId"
                   (match add_column "products" "syncedAt" (Some l) with
                    | Ok c => c | Throw _ => Some l end) with
           | Ok c => c
           | Throw _ => match add_column "products" "syncedAt" (Some l) with
                        | Ok c => c | Throw _ => Some l end
           end
       | None => None
       end)
      (match invoices_columns s with
       | Some l =>
           match add_column "invoices" "serverId"
                   (match add_column "invoices" "syncedAt" (Some l) with
                    | Ok c => c | Throw _ => Some l end) with
           | Ok c => c
           | Throw _ => match add_column "invoices" "syncedAt" (Some l) with
                        | Ok c => c | Throw _ => Some l end
           end
       | None => None
       end).
Proof.
  destruct s as [[lp|] [li|]]; unfold initSyncTables, attempt, alter_products,
    alter_invoices, result_bind; simpl;
    repeat match goal with
           | |- context [existsb ?f ?l] => destruct (existsb f l); simpl
           end; reflexivity.
Qed.

(** X18. [initSyncTables] can be run any number of times: it never throws,
    a second run changes nothing, a table that exists has both columns
    [syncedAt] and [serverId] afterwards with the columns it had still in
    front and in their order, nothing is added to a table that had both,
    and a table that does not exist is passed over in silence and still
    does not exist. *)
Theorem initSyncTables_adds_columns_once s :
  initSyncTables (initSyncTables s) = initSyncTables s
  /\ (forall l, products_columns s = Some l ->
        exists added,
          products_columns (initSyncTables s) = Some (l ++ added)
          /\ has_column "syncedAt" (products_columns (initSyncTables s)) = true
          /\ has_column "serverId" (products_columns (initSyncTables s)) = true
          /\ (has_column "syncedAt" (Some l) = true ->
              has_column "serverId" (Some l) = true -> added = []))
  /\ (forall l, invoices_columns s = Some l ->
        exists added,
          invoices_columns (initSyncTables s) = Some (l ++ added)
          /\ has_column "syncedAt" (invoices_columns (initSyncTables s)) = true
          /\ has_column "serverId" (invoices_columns (initSyncTables s)) = true
          /\ (has_column "syncedAt" (Some l) = true ->
              has_column "serverId" (Some l) = true -> added = []))
  /\ (products_columns s = None -> products_columns (initSyncTables s) = None)
  /\ (invoices_columns s = None -> invoices_columns (initSyncTables s) = None).
Proof.
  assert (Hp : forall l, products_columns s = Some l ->
        exists added,
          products_columns (initSyncTables s) = Some (l ++ added)
          /\ has_column "syncedAt" (products_columns (initSyncTables s)) = true
          /\ has_column "serverId" (products_columns (initSyncTables s)) = true
          /\ (has_column "syncedAt" (Some l) = true ->
              has_column "serverId" (Some l) = true -> added = [])).
  { intros l Hl. rewrite initSyncTables_run, Hl. cbn [products_columns].
    destruct (add_both_columns "products" l) as (added & -> & H1 & H2 & H3).
    exists added. repeat split; assumption. }
  assert (Hi : forall l, invoices_columns s = Some l ->
        exists added,
          invoices_columns (initSyncTables s) = Some (l ++ added)
          /\ has_column "syncedAt" (invoices_columns (initSyncTables s)) = true
          /\ has_column "serverId" (invoices_columns (initSyncTables s)) = true
          /\ (has_column "syncedAt" (Some l) = true ->
              has_column "serverId" (Some l) = true -> added = [])).
  { intros l Hl. rewrite initSyncTables_run, Hl. cbn [invoices_columns].
    destruct (add_both_columns "invoices" l) as (added & -> & H1 & H2 & H3).
    exists added. repeat split; assumption. }
  assert (Hpn : products_columns s = None -> products_columns (initSyncTables s) = None).
  { intros Hn. rewrite initSyncTables_run, Hn. reflexivity. }
  assert (Hin : invoices_columns s = None -> invoices_columns (initSyncTables s) = None).
  { intros Hn. rewrite initSyncTables_run, Hn. reflexivity. }
  split; [|repeat split; assumption].
  assert (Hext : forall a b, products_columns a = products_columns b ->
                   invoices_columns a = invoices_columns b -> a = b).
  { intros [pa ia] [pb ib]; simpl; congruence. }
  apply Hext; rewrite (initSyncTables_run (initSyncTables s));
    [cbn [products_columns] | cbn [invoices_columns]].
  - destruct (products_columns s) as [l|] eqn:El.
    + destruct (Hp l eq_refl) as (added & Hl & H1 & H2 & _).
      rewrite Hl in *.
      destruct (add_both_columns "products" (l ++ added)) as (added' & -> & _ & _ & H3).
      rewrite (H3 H1 H2), app_nil_r. reflexivity.
    + rewrite (Hpn eq_refl). reflexivity.
  - destruct (invoices_columns s) as [l|] eqn:El.
    + destruct (Hi l eq_refl) as (added & Hl & H1 & H2 & _).
      rewrite Hl in *.
      destruct (add_both_columns "invoices" (l ++ added)) as (added' & -> & _ & _ & H3).
      rewrite (H3 H1 H2), app_nil_r. reflexivity.
    + rewrite (Hin eq_refl). reflexivity.
Qed.

(** ** The month of a report *)

Lemma days_from_civil_shift (y m d : Z) :
  days_from_civil (y + 400) m d = days_from_civil y m d + 146097.
Proof.
  unfold days_from_civil.
  assert (E : (if m <=? 2 then y + 400 - 1 else y + 400)
              = (if m <=? 2 then y - 1 else y) + 1 * 400)
    by (destruct (m <=? 2); lia).
  rewrite E. set (y' := if m <=? 2 then y - 1 else y).
  rewrite Z.div_add by lia.
  replace (y' + 1 * 400 - (y' / 400 + 1) * 400) with (y' - y' / 400 * 400) by lia.
  lia.
Qed.

Lemma civil_from_days_shift (z : Z) :
  civil_from_days (z + 146097)
  = let '(y, m, d) := civil_from_days z in (y + 400, m, d).
Proof.
  unfold civil_from_days.
  replace (z + 146097 + 719468) with (z + 719468 + 1 * 146097) by lia.
  set (z' := z + 719468).
  rewrite Z.div_add by lia.
  replace (z' + 1 * 146097 - (z' / 146097 + 1) * 146097)
    with (z' - z' / 146097 * 146097) by lia.
  set (doe := z' - z' / 146097 * 146097).
  set (yoe := (doe - doe / 1460 + doe / 36524 - doe / 146096) / 365).
  set (doy := doe - (365 * yoe + yoe / 4 - yoe / 100)).
  set (mp := (5 * doy + 2) / 153).
  cbv zeta. fold mp.
  destruct ((if mp <? 10 then mp + 3 else mp - 9) <=? 2); f_equal; f_equal; lia.
Qed.

Lemma era_round_trip_400 : era_round_trip 400 = true.
Proof. vm_compute. reflexivity. Qed.

Lemma era_round_trip_spec (n : nat) (y m : Z) :
  era_round_trip n = true ->
  0 <= y < Z.of_nat n -> 1 <= m <= 12 ->
  civil_from_days (days_from_civil y m 1) = (y, m, 1).
Proof.
  intros H Hy Hm. unfold era_round_trip in H.
  rewrite forallb_forall in H.
  assert (Hin : In y (map Z.of_nat (List.seq 0 n))).
  { apply in_map_iff. exists (Z.to_nat y). split; [lia|]. apply in_seq. lia. }
  specialize (H y Hin). rewrite forallb_forall in H.
  assert (Hc : In m [1; 2; 3; 4; 5; 6; 7; 8; 9; 10; 11; 12]) by (simpl; lia).
  specialize (H m Hc). unfold first_day_round_trip in H.
  destruct (civil_from_days (days_from_civil y m 1)) as [[y' m'] d'].
  apply Bool.andb_true_iff in H as [H H3]. apply Bool.andb_true_iff in H as [H1 H2].
  apply Z.eqb_eq in H1, H2, H3. congruence.
Qed.

Lemma first_day_round_trip_era (y m : Z) :
  0 <= y < 400 -> 1 <= m <= 12 ->
  civil_from_days (days_from_civil y m 1) = (y, m, 1).
Proof.
  intros Hy Hm. apply (era_round_trip_spec 400 y m era_round_trip_400); [|exact Hm].
  assert (E : Z.of_nat 400 = 400) by (vm_compute; reflexivity).
  rewrite E. exact Hy.
Qed.

Lemma first_day_round_trip_eras (k : nat) (y m : Z) :
  0 <= y < 400 -> 1 <= m <= 12 ->
  civil_from_days (days_from_civil (y + 400 * Z.of_nat k) m 1)
  = (y + 400 * Z.of_nat k, m, 1).
Proof.
  intros Hy Hm. induction k as [|k IH].
  - replace (y + 400 * Z.of_nat 0) with y by lia.
    apply first_day_round_trip_era; assumption.
  - replace (y + 400 * Z.of_nat (S k)) with (y + 400 * Z.of_nat k + 400) by lia.
    rewrite days_from_civil_shift, civil_from_days_shift, IH. reflexivity.
Qed.

Lemma first_day_found_again (y m : Z) :
  0 <= y -> 1 <= m <= 12 ->
  civil_from_days (days_from_civil y m 1) = (y, m, 1).
Proof.
  intros Hy Hm.
  pose proof (Z.div_mod y 400 ltac:(lia)) as E.
  pose proof (Z.mod_pos_bound y 400 ltac:(lia)) as B.
  assert (Hq : 0 <= y / 400) by (apply Z.div_pos; lia).
  replace y with (y mod 400 + 400 * Z.of_nat (Z.to_nat (y / 400))) at 1 2 by lia.
  apply first_day_round_trip_eras; assumption.
Qed.

Lemma year_text_four_digits (y : Z) : 0 <= y <= 9999 -> year_text y = pad4 y.
Proof.
  intros Hy. unfold year_text.
  destruct (0 <=? y) eqn:E1; [|apply Z.leb_gt in E1; lia].
  destruct (y <=? 9999) eqn:E2; [reflexivity | apply Z.leb_gt in E2; lia].
Qed.

Lemma toISOString_midnight (days y m d : Z) :
  0 <= y <= 9999 ->
  civil_from_days days = (y, m, d) ->
  toISOString (86400000 * days)
  = (pad4 y ++ "-" ++ pad2 m ++ "-" ++ pad2 d ++ "T00:00:00.000Z")%string.
Proof.
  intros Hy H. unfold toISOString, date_text, clock_text.
  replace (86400000 * days / 86400000) with days
    by (rewrite Z.mul_comm, Z.div_mul; lia).
  replace ((86400000 * days) mod 86400000) with 0
    by (rewrite Z.mul_comm, Z.mod_mul; lia).
  replace ((86400000 * days) mod 1000) with 0
    by (replace (86400000 * days) with (86400 * days * 1000) by lia;
        rewrite Z.mod_mul; lia).
  rewrite H, (year_text_four_digits y Hy). reflexivity.
Qed.

Lemma padMonth_two_digits (month : Z) :
  1 <= month <= 12 -> padMonth month = pad2 month.
Proof.
  intros Hm.
  assert (Hc : month = 1 \/ month = 2 \/ month = 3 \/ month = 4 \/ month = 5
               \/ month = 6 \/ month = 7 \/ month = 8 \/ month = 9 \/ month = 10
               \/ month = 11 \/ month = 12) by lia.
  repeat (destruct Hc as [-> | Hc]; [reflexivity|]). subst. reflexivity.
Qed.

(** X19. The range of a report month is the month itself: for a month 1 to
    12 of a year from 100 to 9998, [startIso] is the first instant of the
    month and [endIso] the first instant of the month that follows,
    December being followed by January of the next year; the label is the
    year, a dash and the month in two digits. *)
Theorem getMonthRange_is_the_month (month year : Z) :
  100 <= year <= 9998 ->
  1 <= month <= 12 ->
  startIso (getMonthRange month year) = first_of_month year month
  /\ endIso (getMonthRange month year)
     = first_of_month (fst (next_month year month)) (snd (next_month year month))
  /\ label (getMonthRange month year)
     = (text_of_int year ++ "-" ++ pad2 month)%string.
Proof.
  intros Hy Hm. unfold getMonthRange. cbn [startIso endIso label].
  assert (Hyr : (if (0 <=? year) && (year <=? 99) then 1900 + year else year) = year).
  { destruct (0 <=? year) eqn:E1; [|reflexivity].
    destruct (year <=? 99) eqn:E2; [apply Z.leb_le in E2; lia | reflexivity]. }
  split; [|split].
  - unfold Date_UTC. rewrite Hyr.
    replace ((month - 1) / 12) with 0 by (symmetry; apply Z.div_small; lia).
    replace ((month - 1) mod 12 + 1) with month by (rewrite Z.mod_small; lia).
    replace (year + 0) with year by lia.
    rewrite (toISOString_midnight _ year month 1)
      by (try apply first_day_found_again; lia).
    reflexivity.
  - unfold Date_UTC, next_month. rewrite Hyr.
    destruct (month =? 12) eqn:E.
    + apply Z.eqb_eq in E. subst month. cbn [fst snd].
      change (12 / 12) with 1. change (12 mod 12 + 1) with 1.
      rewrite (toISOString_midnight _ (year + 1) 1 1)
        by (try apply first_day_found_again; lia).
      reflexivity.
    + apply Z.eqb_neq in E. cbn [fst snd].
      replace (month / 12) with 0 by (symmetry; apply Z.div_small; lia).
      replace (month mod 12 + 1) with (month + 1) by (rewrite Z.mod_small; lia).
      replace (year + 0) with year by lia.
      rewrite (toISOString_midnight _ year (month + 1) 1)
        by (try apply first_day_found_again; lia).
      reflexivity.
  - rewrite padMonth_two_digits by exact Hm. reflexivity.
Qed.

Lemma getMonthRange_is_the_month_witness :
  startIso (getMonthRange 12 2024) = first_of_month 2024 12
  /\ endIso (getMonthRange 12 2024)
     = first_of_month (fst (next_month 2024 12)) (snd (next_month 2024 12))
  /\ label (getMonthRange 12 2024) = (text_of_int 2024 ++ "-" ++ pad2 12)%string.
Proof. apply (getMonthRange_is_the_month 12 2024); lia. Defined.

(** ** Pull: what a record must carry *)

Lemma for_of_each {A} (body : A -> M unit) (xs : list A) :
  forall w w',
    for_of xs body w = (Ok tt, w') ->
    forall x, In x xs -> exists wa wb, body x wa = (Ok tt, wb).
Proof.
  induction xs as [|x0 xs IH]; intros w w' H x Hin; [destruct Hin|].
  simpl in H. apply bind_ok_inv in H as ([] & w1 & Hx & Hrest).
  destruct Hin as [<- | Hin].
  - exists w, w1. exact Hx.
  - exact (IH _ _ Hrest x Hin).
Qed.

Lemma bindValue_ok v vs : bindValue v = Ok vs -> v <> JUndef.
Proof. intros H E. subst v. discriminate. Qed.

(** X20. A pull succeeds only on complete records. After a successful pull
    every product of the snapshot has an [id] that is not undefined (even
    when its [_id] is there), a name, both prices, a quantity and a
    low-stock level, and every invoice has an [id] that is not undefined, a
    total amount and a number of items: a record in which one of them is
    absent or null makes the statement that binds it throw, and the pull
    with it. *)
Theorem pull_succeeds_only_on_complete_records clk response snap w w' :
  pullFromServer clk response w = (Ok snap, w') ->
  (forall sp, In sp (snap_products snap) ->
     ServerProduct.id sp <> JUndef
     /\ js_or (ServerProduct._id sp) (ServerProduct.id sp) <> JUndef
     /\ (exists name, ServerProduct.name sp = Val name)
     /\ (exists costPrice, ServerProduct.costPrice sp = Val costPrice)
     /\ (exists sellingPrice, ServerProduct.sellingPrice sp = Val sellingPrice)
     /\ (exists quantity, ServerProduct.quantity sp = Val quantity)
     /\ (exists lowStockLevel, ServerProduct.lowStockLevel sp = Val lowStockLevel))
  /\ (forall si, In si (snap_invoices snap) ->
        ServerInvoice.id si <> JUndef
        /\ js_or (ServerInvoice._id si) (ServerInvoice.id si) <> JUndef
        /\ (exists totalAmount, ServerInvoice.totalAmount si = Val totalAmount)
        /\ (exists totalItems, ServerInvoice.totalItems si = Val totalItems)).
Proof.
  intros Hpull. destruct response as [snap0|e]; [|discriminate].
  apply pullFromServer_ok_inv in Hpull as (<- & w0 & Htx & _).
  unfold pull_transaction in Htx.
  apply bind_ok_inv in Htx as ([] & w1 & Hp & Hi). split.
  - intros sp Hin. destruct (for_of_each _ _ _ _ Hp sp Hin) as (wa & wb & Hsp).
    apply pull_product_shape in Hsp
      as (vs & vb & n & c & sl & q & l & Hvs & Hvb & Hn & Hc & Hsl & Hq & Hl & _).
    split; [exact (bindValue_ok _ _ Hvb)|].
    split; [exact (bindValue_ok _ _ Hvs)|].
    repeat split; eexists; eassumption.
  - intros si Hin. destruct (for_of_each _ _ _ _ Hi si Hin) as (wa & wb & Hsi).
    apply pull_invoice_shape in Hsi
      as (vs & vb & a & n & w2 & Hvs & Hvb & Ha & Hn & _).
    split; [exact (bindValue_ok _ _ Hvb)|].
    split; [exact (bindValue_ok _ _ Hvs)|].
    split; eexists; eassumption.
Qed.

Lemma pull_succeeds_only_on_complete_records_witness :
  let snap := mkSnapshot [salt; oil_new] [sale_without_items] in
  (forall sp, In sp (snap_products snap) ->
     ServerProduct.id sp <> JUndef
     /\ js_or (ServerProduct._id sp) (ServerProduct.id sp) <> JUndef
     /\ (exists name, ServerProduct.name sp = Val name)
     /\ (exists costPrice, ServerProduct.costPrice sp = Val costPrice)
     /\ (exists sellingPrice, ServerProduct.sellingPrice sp = Val sellingPrice)
     /\ (exists quantity, ServerProduct.quantity sp = Val quantity)
     /\ (exists lowStockLevel, ServerProduct.lowStockLevel sp = Val lowStockLevel))
  /\ (forall si, In si (snap_invoices snap) ->
        ServerInvoice.id si <> JUndef
        /\ js_or (ServerInvoice._id si) (ServerInvoice.id si) <> JUndef
        /\ (exists totalAmount, ServerInvoice.totalAmount si = Val totalAmount)
        /\ (exists totalItems, ServerInvoice.totalItems si = Val totalItems)).
Proof.
  intros snap.
  apply (pull_succeeds_only_on_complete_records ticking (Ok snap) snap
           (fresh_world store_with_sale)
           (snd (pullFromServer ticking (Ok snap) (fresh_world store_with_sale)))).
  vm_compute. reflexivity.
Defined.

(** X21. The regular update goes by the server id: when exactly one product
    row carries the record's server id and the record's [id] is the id of
    no local row, a successful step of the product loop rewrites that row
    with the record's values and a new stamp and leaves its id, its
    [createdAt] and its server id; every other row, and the number of
    rows, stay as they are. *)
Theorem pull_updates_row_by_server_id clk sp w w' sid vb r0 :
  ServerProduct._id sp = JStr sid ->
  sid <> EmptyString ->
  bindValue (ServerProduct.id sp) = Ok vb ->
  (forall r, In r (rows (products (mem w))) -> id_eq (ProductRow.id r) vb = false) ->
  distinct_ids ProductRow.id (products (mem w)) ->
  In r0 (rows (products (mem w))) ->
  (forall r, In r (rows (products (mem w))) ->
     ProductRow.serverId r = Some sid <-> r = r0) ->
  pull_product clk sp w = (Ok tt, w') ->
  exists n c sl q l,
    ServerProduct.name sp = Val n
    /\ ServerProduct.costPrice sp = Val c
    /\ ServerProduct.sellingPrice sp = Val sl
    /\ ServerProduct.quantity sp = Val q
    /\ ServerProduct.lowStockLevel sp = Val l
    /\ seq (products (mem w')) = seq (products (mem w))
    /\ rows (products (mem w'))
       = map (fun r =>
                if ProductRow.id r =? ProductRow.id r0
                then ProductRow.mk (ProductRow.id r0) n c sl q l
                       (ProductRow.createdAt r0)
                       (Some (toISOString (clk (ticks w)))) (Some sid)
                else r)
             (rows (products (mem w))).
Proof.
  intros H_id Hsid Hvb Hforeign Hd Hr0 Huniq H.
  apply pull_product_shape in H
    as (vs & vb' & n & c & sl & q & l & Hvs & Hvb' & Hn & Hc & Hsl & Hq & Hl & _ & _ & _
        & Hshape).
  rewrite Hvb in Hvb'. inversion Hvb'; subst vb'. clear Hvb'.
  rewrite H_id in Hvs. unfold js_or in Hvs. simpl in Hvs.
  apply String.eqb_neq in Hsid. rewrite Hsid in Hvs. simpl in Hvs.
  inversion Hvs; subst vs. clear Hvs.
  assert (Hlook : lookup_rows ProductRow.id ProductRow.serverId (SText sid) vb
                    (products (mem w))
                  = select_where (fun r => serverId_eq (ProductRow.serverId r) (SText sid))
                      (products (mem w))).
  { unfold lookup_rows, select_where. apply filter_ext_in. intros r Hr.
    rewrite (Hforeign r Hr). apply Bool.orb_false_r. }
  exists n, c, sl, q, l. repeat (split; [assumption|]).
  destruct Hshape as [(r1 & tl & Hsel & ->) | (Hsel & _)].
  - rewrite Hlook in Hsel.
    assert (Hr1 : In r1 (select_where
                     (fun r => serverId_eq (ProductRow.serverId r) (SText sid))
                     (products (mem w))))
      by (rewrite Hsel; left; reflexivity).
    apply filter_In in Hr1 as [Hin1 Hs1]. apply serverId_eq_text in Hs1.
    apply (Huniq r1 Hin1) in Hs1. subst r1.
    split; [reflexivity|]. unfold update_where; simpl. apply map_ext_in.
    intros r Hr. destruct (ProductRow.id r =? ProductRow.id r0) eqn:E; [|reflexivity].
    apply Z.eqb_eq in E.
    assert (r = r0)
      by (apply (same_key_same_row ProductRow.id (rows (products (mem w))));
          assumption).
    subst r. reflexivity.
  - exfalso. rewrite Hlook in Hsel.
    assert (Hin : In r0 (select_where
                     (fun r => serverId_eq (ProductRow.serverId r) (SText sid))
                     (products (mem w)))).
    { apply filter_In. split; [exact Hr0|]. apply serverId_eq_text.
      apply (Huniq r0 Hr0). reflexivity. }
    rewrite Hsel in Hin. destruct Hin.
Qed.

Lemma pull_updates_row_by_server_id_witness :
  let w := fresh_world store_beans_oil in
  let w' := snd (pull_product ticking oil_from_elsewhere w) in
  exists n c sl q l,
    ServerProduct.name oil_from_elsewhere = Val n
    /\ ServerProduct.costPrice oil_from_elsewhere = Val c
    /\ ServerProduct.sellingPrice oil_from_elsewhere = Val sl
    /\ ServerProduct.quantity oil_from_elsewhere = Val q
    /\ ServerProduct.lowStockLevel oil_from_elsewhere = Val l
    /\ seq (products (mem w')) = seq (products (mem w))
    /\ rows (products (mem w'))
       = map (fun r =>
                if ProductRow.id r =? ProductRow.id oil_old
                then ProductRow.mk (ProductRow.id oil_old) n c sl q l
                       (ProductRow.createdAt oil_old)
                       (Some (toISOString (ticking (ticks w)))) (Some "abc")
                else r)
             (rows (products (mem w))).
Proof.
  intros w w'.
  apply (pull_updates_row_by_server_id ticking oil_from_elsewhere w w' "abc"
           (SInt 70) oil_old).
  - reflexivity.
  - discriminate.
  - reflexivity.
  - intros r [<- | [<- | []]]; reflexivity.
  - repeat constructor; simpl; intuition discriminate.
  - right. left. reflexivity.
  - intros r [<- | [<- | []]]; split; intros H; try discriminate; reflexivity.
  - vm_compute. reflexivity.
Defined.
